(** * WindMover_c: wind-driven displacement with stochastic uncertainty

    A shallow embedding of [lib_gnome/WindMover_c.cpp] (the pyGNOME build,
    i.e. with the [pyGNOME] macro defined) and the properties of its
    uncertainty store, scheduler, sampler and displacement computation.

    Conventions of the embedding.
    - [float] and [double] values are idealised as real numbers ([R]);
      rounding is not modelled, and neither are infinities and NaN: a
      division by zero, which gives one of them in the source, is outside
      the idealisation (in [R] it is an unspecified real number).
    - [int], [long] and [short] values are integers ([Z]); signed overflow is
      undefined in the source and is not modelled.  [Seconds] is an unsigned
      long; the one subtraction on it that the translated methods perform is
      guarded against going below zero.
    - A [Handle] is an optional list: [None] is the nil handle, and
      [_GetHandleSize(h)/sizeof(rec)] is the length of the list.  A cell of a
      freshly allocated or freshly enlarged handle holds no value yet
      ([None]) until the code writes it.
    - The mover object is a record that every method takes and returns.
    - The random source and the memory allocator are oracles kept in a
      [World] that is threaded through the calls. *)

From Stdlib Require Import Reals ZArith List Bool Lia Lra Psatz.
Import ListNotations.

Local Open Scope Z_scope.

(** ** Numeric helpers *)

(** [a < b] and [a <= b] on C doubles, as booleans. *)
Definition flt (a b : R) : bool := if Rlt_dec a b then true else false.
Definition fle (a b : R) : bool := if Rle_dec a b then true else false.

(** C's [pow(x, y)] for a base [x >= 0] and an exponent [y > 0]:
    [pow(0, y)] is [0], and otherwise it is [exp (y * ln x)]. *)
Definition c_pow (x y : R) : R :=
  if Req_dec_T x 0 then 0%R else Rpower x y.

(** ** Data model *)

Definition OSErr := Z.
Definition noErr : OSErr := 0.

(** One perturbation draw of the store ([LEWindUncertainRec]). *)
Record LEWindUncertainRec : Type := mkUnrec {
  randCos : R;
  randSin : R
}.

Record VelocityRec : Type := mkVel {
  u : R;
  v : R
}.

Record WorldPoint : Type := mkWP {
  pLong : R;
  pLat : R
}.

Record WorldPoint3D : Type := mkWP3 {
  p : WorldPoint;
  z : R
}.

Record LERec : Type := mkLE {
  le_p : WorldPoint;
  le_z : R;
  windage : R
}.

(** Constants, macros and error codes that the source takes from headers
    that are not part of the translated file. *)
Record Headers : Type := mkHeaders {
  OILSTAT_INWATER : Z;
  OILSTAT_TO_BE_REMOVED : Z;
  FORECAST_LE : Z;
  UNCERTAINTY_LE : Z;
  memFullErr : OSErr;
  METERSPERDEGREELAT : R;
  LongToLatRatio3 : R -> R
}.

(** The fields of [WindMover_c] that the translated methods read or write. *)
Record WindMover : Type := mkMover {
  fUncertainStartTime : Z;
  fDuration : R;
  fWindUncertaintyList : option (list (option LEWindUncertainRec));
  fLESetSizes : option (list Z);
  fSpeedScale : R;
  fAngleScale : R;
  fMaxSpeed : R;
  fMaxAngle : R;
  fSigma2 : R;
  fSigmaTheta : R;
  fUncertaintyDiffusion : R;
  fTimeUncertaintyWasSet : Z;
  bIsFirstStep : bool;
  fModelStartTime : Z;
  current_time_value : VelocityRec
}.

Definition set_store (m : WindMover)
    (l : option (list (option LEWindUncertainRec))) (s : option (list Z))
    (t : Z) : WindMover :=
  mkMover (fUncertainStartTime m) (fDuration m) l s
          (fSpeedScale m) (fAngleScale m) (fMaxSpeed m) (fMaxAngle m)
          (fSigma2 m) (fSigmaTheta m) (fUncertaintyDiffusion m)
          t (bIsFirstStep m) (fModelStartTime m) (current_time_value m).

Definition set_list (m : WindMover)
    (l : option (list (option LEWindUncertainRec))) : WindMover :=
  set_store m l (fLESetSizes m) (fTimeUncertaintyWasSet m).

Definition set_sizes (m : WindMover) (s : option (list Z)) : WindMover :=
  set_store m (fWindUncertaintyList m) s (fTimeUncertaintyWasSet m).

Definition set_time (m : WindMover) (t : Z) : WindMover :=
  set_store m (fWindUncertaintyList m) (fLESetSizes m) t.

Definition set_sigmas (m : WindMover) (s2 st : R) : WindMover :=
  mkMover (fUncertainStartTime m) (fDuration m)
          (fWindUncertaintyList m) (fLESetSizes m)
          (fSpeedScale m) (fAngleScale m) (fMaxSpeed m) (fMaxAngle m)
          s2 st (fUncertaintyDiffusion m)
          (fTimeUncertaintyWasSet m) (bIsFirstStep m) (fModelStartTime m)
          (current_time_value m).

(** ** The world: random source and allocator

    [GetRandomFloat] and [_NewHandle] live outside the translated file.  The
    world records the values that their successive calls return: the [n]-th
    call of [GetRandomFloat] returns [rand_tape n] (whatever its bounds), and
    the [n]-th call of [_NewHandle] succeeds iff [alloc_tape n]. *)
Record World : Type := mkWorld {
  rand_tape : nat -> R;
  rand_pos : nat;
  alloc_tape : nat -> bool;
  alloc_pos : nat
}.

Definition GetRandomFloat (lo hi : R) (w : World) : R * World :=
  (rand_tape w (rand_pos w),
   mkWorld (rand_tape w) (S (rand_pos w)) (alloc_tape w) (alloc_pos w)).

(** [_NewHandle(size)]: whether the request for [n] records is granted.  A
    negative count (a huge unsigned byte size) is never granted. *)
Definition NewHandle (n : Z) (w : World) : bool * World :=
  (andb (0 <=? n) (alloc_tape w (alloc_pos w)),
   mkWorld (rand_tape w) (rand_pos w) (alloc_tape w) (S (alloc_pos w))).

(** The world after [k] further calls of [GetRandomFloat]. *)
Definition skip_rand (k : nat) (w : World) : World :=
  mkWorld (rand_tape w) (k + rand_pos w) (alloc_tape w) (alloc_pos w).

(** ** PerturbationSampler *)

Local Open Scope R_scope.

(** [rndv]: one Box-Muller style draw. *)
Definition rndv (w : World) : (R * R) * World :=
  let (r1, w1) := GetRandomFloat 0 1 w in
  let cosArg := 2 * PI * r1 in
  let (r2, w2) := GetRandomFloat (1 / 1000) (999 / 1000) w1 in
  let srt := sqrt (- 2 * ln r2) in
  ((srt * cos cosArg, srt * sin cosArg), w2).

(** [TermsLessThanMax]: only the angle is tested; [abs] is the floating-point
    absolute value. *)
Definition TermsLessThanMax (cosTerm sinTerm speedMax angleMax sigma2 sigmaTheta : R)
  : bool :=
  fle (Rabs (sigmaTheta * sinTerm)) angleMax.

(** The retry loop [for (j = 0; j < 10; j++) { if (TermsLessThanMax(...)) break;
    rndv(...); }] that follows a first [rndv]; [j] counts the remaining
    iterations. *)
Fixpoint retry_loop (j : nat) (m : WindMover) (cs : R * R) (w : World)
  : (R * R) * World :=
  match j with
  | O => (cs, w)
  | S j' =>
      if TermsLessThanMax (fst cs) (snd cs) (fMaxSpeed m) (fMaxAngle m)
                          (fSigma2 m) (fSigmaTheta m)
      then (cs, w)
      else let (cs', w') := rndv w in retry_loop j' m cs' w'
  end.

(** The bounded sampler: the statements that [UpdateUncertaintyValues] and the
    grow path of [UpdateUncertainty] both run for one cell. *)
Definition sampleBounded (m : WindMover) (w : World) : (R * R) * World :=
  let (cs, w1) := rndv w in retry_loop 10 m cs w1.

Local Close Scope R_scope.

(** ** Arrays behind handles *)

(** [l[i] = x].  A write outside the array is undefined in the source; here
    it leaves the list as it is. *)
Fixpoint upd {A : Type} (i : nat) (x : A) (l : list A) : list A :=
  match l, i with
  | [], _ => []
  | _ :: t, O => x :: t
  | h :: t, S i' => h :: upd i' x t
  end.

Abbreviation cell := (option LEWindUncertainRec).

(** [_SetHandleSize(h, n * sizeof(rec))]: the first [n] cells are kept, and
    the cells added by an enlargement hold no value. *)
Definition SetHandleSize (n : Z) (l : list cell) : list cell :=
  firstn (Z.to_nat n) l ++ repeat None (Z.to_nat n - length l).

(** [_GetHandleSize(h)/sizeof(rec)]; the nil handle counts as empty. *)
Definition handle_len {A : Type} (h : option (list A)) : Z :=
  match h with
  | Some l => Z.of_nat (length l)
  | None => 0
  end.

(** ** UncertaintyStore *)

Definition DisposeUncertainty (m : WindMover) : WindMover :=
  set_store m None None 0.

(** The sampling loop [for (i = i0; i < i0 + k; i++)] that draws one bounded
    pair per cell and writes it. *)
Fixpoint fill_loop (k i : nat) (m : WindMover) (l : list cell) (w : World)
  : list cell * World :=
  match k with
  | O => (l, w)
  | S k' =>
      let (cs, w') := sampleBounded m w in
      fill_loop k' (S i) m (upd i (Some (mkUnrec (fst cs) (snd cs))) l) w'
  end.

Definition UpdateUncertaintyValues (elapsedTime : Z) (m : WindMover) (w : World)
  : WindMover * World :=
  let m1 := set_time m elapsedTime in
  match fWindUncertaintyList m1 with
  | None => (m1, w)
  | Some l =>
      let (l', w') := fill_loop (length l) 0 m1 l w in
      (set_list m1 (Some l'), w')
  end.

Section WithHeaders.

Variable H : Headers.

(** The compaction loop of [ReallocateUncertainty]:
    [for (i = 0; i < numLEs; i++) if (statusCodes[i] != OILSTAT_TO_BE_REMOVED)
    { list[numrec] = list[i]; numrec++; }].  A status read past the end of
    [codes] is undefined in the source; here it reads 0. *)
Fixpoint compact_loop (k i numrec : nat) (codes : list Z) (l : list cell)
  : list cell * nat :=
  match k with
  | O => (l, numrec)
  | S k' =>
      if nth i codes 0 =? OILSTAT_TO_BE_REMOVED H
      then compact_loop k' (S i) numrec codes l
      else compact_loop k' (S i) (S numrec) codes (upd numrec (nth i l None) l)
  end.

Definition ReallocateUncertainty (numLEs : Z) (statusCodes : option (list Z))
    (m : WindMover) : OSErr * WindMover :=
  match statusCodes with
  | None => (-1, m)
  | Some codes =>
      if numLEs =? 0 then (-1, m)
      else
        match fWindUncertaintyList m, fLESetSizes m with
        | Some l, Some s =>
            let uncertListSize := Z.of_nat (length l) in
            let numLESetsStored := Z.of_nat (length s) in
            if negb (uncertListSize =? numLEs) then (-1, m)
            else if negb (numLESetsStored =? 1) then (-1, m)
            else
              let (l', numrec) := compact_loop (Z.to_nat numLEs) 0 0 codes l in
              if Nat.eqb numrec 0 then (noErr, DisposeUncertainty m)
              else if Z.of_nat numrec <? uncertListSize
                   then (noErr,
                         set_list m (Some (SetHandleSize (Z.of_nat numrec) l')))
                   else (noErr, set_list m (Some l'))
        | _, _ => (noErr, m)
        end
  end.

(** The loop of [AllocateUncertainty] that stores the running total as the
    offset of each set.  A size read past the end of [sizes] is undefined in
    the source; here it reads 0. *)
Fixpoint offsets_loop (k i : nat) (numrec : Z) (sizes offs : list Z)
  : list Z * Z :=
  match k with
  | O => (offs, numrec)
  | S k' =>
      offsets_loop k' (S i) (numrec + nth i sizes 0) sizes (upd i numrec offs)
  end.

(** [AllocateUncertainty].  The cells of the offset table are all written by
    the loop, so their initial content (here 0) is never observed; the cells
    of the draw array are left without a value. *)
Definition AllocateUncertainty (numLESets : Z) (LESetsSizesList : list Z)
    (m : WindMover) (w : World) : OSErr * WindMover * World :=
  let m0 := DisposeUncertainty m in
  if numLESets =? 0 then (-1, m0, w)
  else
    let (ok1, w1) := NewHandle numLESets w in
    if negb ok1 then (memFullErr H, DisposeUncertainty m0, w1)
    else
      let (offs, numrec) :=
        offsets_loop (Z.to_nat numLESets) 0 0 LESetsSizesList
                     (repeat 0 (Z.to_nat numLESets)) in
      let m1 := set_sizes m0 (Some offs) in
      let (ok2, w2) := NewHandle numrec w1 in
      if negb ok2 then (memFullErr H, DisposeUncertainty m1, w2)
      else (noErr, set_list m1 (Some (repeat None (Z.to_nat numrec))), w2).

(** ** UncertaintyScheduler *)

(** The loop of [UpdateUncertainty] that compares each stored offset with the
    running total of the target sizes; the boolean tells whether it left
    through [break]. *)
Fixpoint check_loop (k i : nat) (numrec : Z) (sizes stored : list Z)
  : bool * Z :=
  match k with
  | O => (false, numrec)
  | S k' =>
      if negb (numrec =? nth i stored 0) then (true, numrec)
      else check_loop k' (S i) (numrec + nth i sizes 0) sizes stored
  end.

(** The locals of [UpdateUncertainty] when it reaches the test
    [if (needToReAllocate)]. *)
Record Decision : Type := mkDecision {
  needToReInit : bool;
  needToReAllocate : bool;
  d_numrec : Z;
  d_uncertListSize : Z;
  d_numLESetsStored : Z
}.

(** Lines 244-281: the flags as the source computes them, given that
    [fLESetSizes] is [stored]. *)
Definition check_sets (elapsedTime numLESets : Z) (LESetsSizesList stored : list Z)
    (m : WindMover) (reinit0 : bool) : Decision :=
  let numLESetsStored := Z.of_nat (length stored) in
  if negb (numLESets =? numLESetsStored)
  then mkDecision true false 0 0 numLESetsStored
  else
    let (brk, numrec) :=
      check_loop (Z.to_nat numLESets) 0 0 LESetsSizesList stored in
    let reinit1 := orb reinit0 brk in
    let uncertListSize := handle_len (fWindUncertaintyList m) in
    if negb (numrec =? uncertListSize)
    then
      if uncertListSize <? numrec
      then mkDecision reinit1 true numrec uncertListSize numLESetsStored
      else mkDecision true false numrec uncertListSize numLESetsStored
    else mkDecision reinit1 false numrec uncertListSize numLESetsStored.

Definition decide (elapsedTime numLESets : Z) (LESetsSizesList : list Z)
    (m : WindMover) : Decision :=
  let reinit0 :=
    orb (match fWindUncertaintyList m, fLESetSizes m with
         | Some _, Some _ => false
         | _, _ => true
         end)
        (elapsedTime <? fTimeUncertaintyWasSet m) in
  match fLESetSizes m with
  | None => mkDecision reinit0 false 0 0 0
  | Some stored =>
      check_sets elapsedTime numLESets LESetsSizesList stored m reinit0
  end.

Local Open Scope R_scope.

(** Lines 313-316: the spreads for this step. *)
Definition new_sigma2 (elapsedTime : Z) (m : WindMover) : R :=
  let s := fSpeedScale m * (315 / 1000)
           * c_pow (IZR (elapsedTime - fUncertainStartTime m)) (147 / 1000) in
  s * s / 2.

Definition new_sigmaTheta (elapsedTime : Z) (m : WindMover) : R :=
  fAngleScale m * (273 / 100)
  * sqrt (sqrt (IZR (elapsedTime - fUncertainStartTime m))).

(** Lines 313-328: recompute the spreads, then reinitialise or refresh. *)
Definition update_tail (reinit : bool) (elapsedTime numLESets : Z)
    (LESetsSizesList : list Z) (m : WindMover) (w : World)
  : OSErr * WindMover * World :=
  let m1 := set_sigmas m (new_sigma2 elapsedTime m) (new_sigmaTheta elapsedTime m) in
  if reinit then
    let '(err, m2, w2) := AllocateUncertainty numLESets LESetsSizesList m1 w in
    if (err =? 0)%Z
    then let (m3, w3) := UpdateUncertaintyValues elapsedTime m2 w2 in (err, m3, w3)
    else (err, m2, w2)
  else if fle (IZR (fTimeUncertaintyWasSet m1) + fDuration m1) (IZR elapsedTime)
  then let (m3, w3) := UpdateUncertaintyValues elapsedTime m1 w in (noErr, m3, w3)
  else (noErr, m1, w).

Local Close Scope R_scope.

(** Lines 283-308: the grow path.  The handle is enlarged first; then the
    set counts are tested; then the new cells are sampled.  The boolean is
    [false] on the early [return -1]. *)
Definition grow (d : Decision) (numLESets : Z) (m : WindMover) (w : World)
  : WindMover * World * bool :=
  let m1 :=
    set_list m (option_map (SetHandleSize (d_numrec d)) (fWindUncertaintyList m)) in
  if orb (negb (numLESets =? 1)) (negb (d_numLESetsStored d =? 1))
  then (m1, w, false)
  else
    match fWindUncertaintyList m1 with
    | None => (m1, w, true)
    | Some l =>
        let (l', w') :=
          fill_loop (Z.to_nat (d_numrec d - d_uncertListSize d))
                    (Z.to_nat (d_uncertListSize d)) m1 l w in
        (set_list m1 (Some l'), w', true)
    end.

Definition UpdateUncertainty (elapsedTime numLESets : Z) (LESetsSizesList : list Z)
    (m : WindMover) (w : World) : OSErr * WindMover * World :=
  if negb (fUncertainStartTime m <=? elapsedTime)
  then
    (0, match fWindUncertaintyList m with
        | Some _ => DisposeUncertainty m
        | None => m
        end, w)
  else
    let d := decide elapsedTime numLESets LESetsSizesList m in
    if needToReAllocate d
    then
      let '(m1, w1, ok) := grow d numLESets m w in
      if ok
      then update_tail (needToReInit d) elapsedTime numLESets LESetsSizesList m1 w1
      else (-1, m1, w1)
    else update_tail (needToReInit d) elapsedTime numLESets LESetsSizesList m w.

End WithHeaders.

(** ** DisplacementEngine *)

Section Displacement.

Variable H : Headers.

Local Open Scope R_scope.

(** The cell of the draw array at index [fLESetSizes[setIndex] + leIndex].
    Reading outside either array, or a cell that was never written, is
    undefined in the source; here such a read gives the pair (0, 0). *)
Definition read_draw (setIndex leIndex : Z) (l : list cell) (s : list Z)
  : LEWindUncertainRec :=
  match nth (Z.to_nat (nth (Z.to_nat setIndex) s 0%Z + leIndex)) l None with
  | Some r => r
  | None => mkUnrec 0 0
  end.

Definition AddUncertainty (setIndex leIndex : Z) (patVel : VelocityRec)
    (m : WindMover) (w : World) : OSErr * VelocityRec * World :=
  let tempV := patVel in
  match fWindUncertaintyList m, fLESetSizes m with
  | Some l, Some sz =>
      let norm := sqrt (v tempV * v tempV + u tempV * u tempV) in
      if flt norm 1
      then
        let (rand1, w1) := GetRandomFloat (-1) 1 w in
        let (rand2, w2) := GetRandomFloat (-1) 1 w1 in
        (0%Z,
         mkVel (u tempV + fUncertaintyDiffusion m * rand1)
               (v tempV + fUncertaintyDiffusion m * rand2),
         w2)
      else
        let unrec := read_draw setIndex leIndex l sz in
        let w0 := norm in
        let s := w0 * w0 - fSigma2 m in
        let sqs := if flt 0 s then sqrt s else 0 in
        let m' := if flt 0 s then sqrt (sqrt s) else 0 in
        let s1 := sqrt (w0 - sqs) in
        let x := randCos unrec * s1 + m' in
        let w1 := x * x in
        let dtheta := randSin unrec * fSigmaTheta m * PI / 180 in
        let costheta := cos dtheta in
        let sintheta := sin dtheta in
        let w2 := w1 / (if flt costheta (1 / 1000) then 1 / 1000 else costheta) in
        let t := w2 / norm in
        let tu := u tempV * t in
        let tv := v tempV * t in
        (0%Z,
         mkVel (tu * costheta - tv * sintheta) (tv * costheta + tu * sintheta),
         w)
  | _, _ => (0%Z, patVel, w)
  end.

Definition zero_delta : WorldPoint3D := mkWP3 (mkWP 0 0) 0.

(** [GetMove]: the displacement of one element, in millionths of a degree. *)
Definition GetMove (model_time timeStep setIndex leIndex : Z) (theLE : LERec)
    (leType : Z) (m : WindMover) (w : World) : WorldPoint3D * World :=
  let deltaPoint := zero_delta in
  let refPoint := le_p theLE in
  if flt 0 (le_z theLE) then (deltaPoint, w)
  else
    let timeValue := current_time_value m in
    let '(err, tv, w1) :=
      if (leType =? UNCERTAINTY_LE H)%Z
      then AddUncertainty setIndex leIndex timeValue m w
      else (noErr, timeValue, w) in
    let tu := u tv * windage theLE in
    let tv' := v tv * windage theLE in
    let dLong :=
      ((tu / METERSPERDEGREELAT H) * IZR timeStep)
      / LongToLatRatio3 H (pLat refPoint) in
    let dLat := (tv' / METERSPERDEGREELAT H) * IZR timeStep in
    (mkWP3 (mkWP (dLong * 1000000) (dLat * 1000000)) 0, w1).

(** ** BatchMoveComputation *)

(** Lines 511-516: the record handed to [GetMove] for element [i]. *)
Definition make_rec (r : WorldPoint3D) (wdg : R) : LERec :=
  mkLE (mkWP (pLong (p r)) (pLat (p r) * 1000000)) (z r) wdg.

(** Lines 521-522: what is stored into [delta[i]] from the result of
    [GetMove]. *)
Definition scale_delta (d : WorldPoint3D) : WorldPoint3D :=
  mkWP3 (mkWP (pLong (p d) / 1000000) (pLat (p d) / 1000000)) (z d).

(** One iteration of the loop of [get_move].  Reads past the end of the
    input arrays are undefined in the source; here they give zeros. *)
Definition move_one (i : nat) (model_time step_len : Z)
    (ref : list WorldPoint3D) (windages : list R) (LE_status : list Z)
    (spillType spill_ID : Z) (m : WindMover)
    (delta : list WorldPoint3D) (w : World) : list WorldPoint3D * World :=
  if negb (nth i LE_status 0%Z =? OILSTAT_INWATER H)%Z
  then (upd i zero_delta delta, w)
  else
    let rec := make_rec (nth i ref zero_delta) (nth i windages 0) in
    let (d, w') :=
      GetMove model_time step_len spill_ID (Z.of_nat i) rec spillType m w in
    (upd i (scale_delta d) delta, w').

Fixpoint move_loop (k i : nat) (model_time step_len : Z)
    (ref : list WorldPoint3D) (windages : list R) (LE_status : list Z)
    (spillType spill_ID : Z) (m : WindMover)
    (delta : list WorldPoint3D) (w : World) : list WorldPoint3D * World :=
  match k with
  | O => (delta, w)
  | S k' =>
      let (delta', w') :=
        move_one i model_time step_len ref windages LE_status
                 spillType spill_ID m delta w in
      move_loop k' (S i) model_time step_len ref windages LE_status
                spillType spill_ID m delta' w'
  end.

(** [get_move].  The three pointers that the source tests are optional
    arrays; [LE_status] is dereferenced without a test, so the embedding
    takes the array itself.  The result holds the error code and the
    [delta] array after the call. *)
Definition get_move (n : Z) (model_time step_len : Z)
    (ref delta : option (list WorldPoint3D)) (windages : option (list R))
    (LE_status : list Z) (spillType spill_ID : Z)
    (m : WindMover) (w : World)
  : OSErr * option (list WorldPoint3D) * World :=
  match delta, ref, windages with
  | Some dl, Some rf, Some wd =>
      if orb (spillType <? FORECAST_LE H)%Z (UNCERTAINTY_LE H <? spillType)%Z
      then (2%Z, delta, w)
      else
        let (dl', w') :=
          move_loop (Z.to_nat n) 0 model_time step_len rf wd LE_status
                    spillType spill_ID m dl w in
        (noErr, Some dl', w')
  | _, _, _ => (1%Z, delta, w)
  end.

(** [get_move] with the status array behind a pointer, as a caller hands it
    over.  Line 485 tests [delta], [ref] and [windages] and nothing else;
    line 506 reads [LE_status[i]] in every iteration.  With a nil status
    pointer the two checks run as they always do, a loop without an
    iteration ([n <= 0]) ends in [return noErr], and otherwise the first
    iteration reads through the nil pointer, which is undefined: the
    result is [None] then. *)
Definition get_move_ptr (n : Z) (model_time step_len : Z)
    (ref delta : option (list WorldPoint3D)) (windages : option (list R))
    (LE_status : option (list Z)) (spillType spill_ID : Z)
    (m : WindMover) (w : World)
  : option (OSErr * option (list WorldPoint3D) * World) :=
  match LE_status with
  | Some st =>
      Some (get_move n model_time step_len ref delta windages st
                     spillType spill_ID m w)
  | None =>
      match delta, ref, windages with
      | Some _, Some _, Some _ =>
          if orb (spillType <? FORECAST_LE H)%Z (UNCERTAINTY_LE H <? spillType)%Z
          then Some (2%Z, delta, w)
          else if (n <=? 0)%Z then Some (noErr, delta, w) else None
      | _, _, _ => Some (1%Z, delta, w)
      end
  end.

End Displacement.

(** ** Host step protocol *)

Definition PrepareForModelRun (m : WindMover) : OSErr * WindMover :=
  let m1 :=
    mkMover (fUncertainStartTime m) (fDuration m)
            (fWindUncertaintyList m) (fLESetSizes m)
            (fSpeedScale m) (fAngleScale m) (fMaxSpeed m) (fMaxAngle m)
            (fSigma2 m) (fSigmaTheta m) (fUncertaintyDiffusion m)
            (fTimeUncertaintyWasSet m) true (fModelStartTime m)
            (current_time_value m) in
  (noErr, DisposeUncertainty m1).

Definition ModelStepIsDone (m : WindMover) : WindMover :=
  mkMover (fUncertainStartTime m) (fDuration m)
          (fWindUncertaintyList m) (fLESetSizes m)
          (fSpeedScale m) (fAngleScale m) (fMaxSpeed m) (fMaxAngle m)
          (fSigma2 m) (fSigmaTheta m) (fUncertaintyDiffusion m)
          (fTimeUncertaintyWasSet m) false (fModelStartTime m)
          (current_time_value m).

(** The time-value object behind [timeDep] lives outside the translated
    file.  It is taken as a pair of oracles: what its [GetTimeValue] returns
    and leaves in the velocity it is handed (which holds zeros before the
    call), and what its [CheckStartTime] returns. *)
Record TimeDep : Type := mkTimeDep {
  td_GetTimeValue : Z -> OSErr * VelocityRec;
  td_CheckStartTime : Z -> OSErr
}.

(** The fields of [WindMover_c] that select the wind. *)
Record WindSource : Type := mkSource {
  fIsConstantWind : bool;
  fConstantValue : VelocityRec;
  timeDep : option TimeDep
}.

Definition GetTimeValue (current_time : Z) (s : WindSource)
  : OSErr * VelocityRec :=
  if fIsConstantWind s then (0, fConstantValue s)
  else
    match timeDep s with
    | Some td => td_GetTimeValue td current_time
    | None => (0, mkVel 0 0)
    end.

Definition CheckStartTime (time : Z) (s : WindSource) : OSErr :=
  if fIsConstantWind s then -2
  else
    match timeDep s with
    | Some td => td_CheckStartTime td time
    | None => 0
    end.

(** [Seconds] is an unsigned long: 64 bits on the LP64 targets of pyGNOME.
    The subtraction [model_time - fModelStartTime] wraps. *)
Definition Seconds_modulus : Z := 2 ^ 64.

Definition set_step (m : WindMover) (diffusion : R) (start : Z)
    (cur : VelocityRec) : WindMover :=
  mkMover (fUncertainStartTime m) (fDuration m)
          (fWindUncertaintyList m) (fLESetSizes m)
          (fSpeedScale m) (fAngleScale m) (fMaxSpeed m) (fMaxAngle m)
          (fSigma2 m) (fSigmaTheta m) diffusion
          (fTimeUncertaintyWasSet m) (bIsFirstStep m) start cur.

(** [PrepareForModelStep].  The error of [UpdateUncertainty] is stored in
    [err] and then overwritten by the error of [GetTimeValue].  The
    diffusion term divides by [time_step]: with a time step of zero the
    source stores an infinity there, which the real numbers do not have, so
    that the field is meaningful for [time_step <> 0] only. *)
Definition PrepareForModelStep (H : Headers) (model_time time_step : Z)
    (uncertain : bool) (numLESets : Z) (LESetsSizesList : list Z)
    (s : WindSource) (m : WindMover) (w : World)
  : OSErr * WindMover * World :=
  let m0 :=
    if bIsFirstStep m
    then set_step m (fUncertaintyDiffusion m) model_time (current_time_value m)
    else m in
  let '(m2, w2) :=
    if uncertain
    then
      let elapsed_time := (model_time - fModelStartTime m0) mod Seconds_modulus in
      let '(err, m1, w1) :=
        UpdateUncertainty H elapsed_time numLESets LESetsSizesList m0 w in
      (set_step m1 (sqrt (6 * (1000000 / 10000) / IZR time_step))%R
                (fModelStartTime m1) (current_time_value m1), w1)
    else (m0, w) in
  let (err, value) := GetTimeValue model_time s in
  (err, set_step m2 (fUncertaintyDiffusion m2) (fModelStartTime m2) value, w2).

(** The header values of the GNOME sources, used for the concrete runs
    below: status codes 2 and 12, element types 1 and 2, the Mac error code
    -108, and 111120 metres per degree of latitude. *)
Definition gnome_headers : Headers :=
  mkHeaders 2 12 1 2 (-108) 111120%R
            (fun lat => cos (lat / 1000000 * (PI / 180)))%R.

(** [Init]: the values set by the constructor.  [fTimeUncertaintyWasSet]
    and [current_time_value] are not set there; they start at zero here. *)
Definition Init : WindMover :=
  mkMover 0 (3 * 3600)%R None None 2%R (4 / 10)%R 30%R 60%R 0%R 0%R 0%R
          0 false 0 (mkVel 0 0).

(** A world whose random source alternates between two fixed values and
    whose allocator grants every request. *)
Definition steady_world (a b : R) : World :=
  mkWorld (fun n => if Nat.even n then a else b) 0 (fun _ => true) 0.

(** * Vocabulary of the properties and concrete inputs *)

(** The acceptance test on a drawn pair. *)
Definition accepts (m : WindMover) (cs : R * R) : bool :=
  TermsLessThanMax (fst cs) (snd cs) (fMaxSpeed m) (fMaxAngle m)
                   (fSigma2 m) (fSigmaTheta m).

(** The [i]-th pair that successive calls of [rndv] draw from world [w]. *)
Definition draw_at (w : World) (i : nat) : R * R :=
  fst (rndv (skip_rand (2 * i) w)).

(** The number of [rndv] calls made by one [sampleBounded]: each call takes
    two values from the random source. *)
Definition sample_calls (m : WindMover) (w : World) : nat :=
  Nat.div (rand_pos (snd (sampleBounded m w)) - rand_pos w) 2.

(** A mover whose angular spread has grown to 100 degrees, with the default
    acceptance bound of 60 degrees. *)
Definition hot_mover : WindMover :=
  mkMover 0 (3 * 3600)%R None None 2%R (4 / 10)%R 30%R 60%R 0%R 100%R 0%R
          0 false 0 (mkVel 0 0).

(** The draws whose status is not the removal code, in their order. *)
Definition survivors (H : Headers) (codes : list Z) (l : list cell)
  : list cell :=
  map snd (filter (fun cx => negb (fst cx =? OILSTAT_TO_BE_REMOVED H))
                  (combine codes l)).

Definition sum_list (l : list Z) : Z := fold_right Z.add 0 l.

(** The prefix sum of the target sizes before set [j]. *)
Definition prefix_sum (sizes : list Z) (j : nat) : Z :=
  sum_list (firstn j sizes).

Definition store_absent (m : WindMover) : Prop :=
  fWindUncertaintyList m = None \/ fLESetSizes m = None.

(** Some stored offset differs from the prefix sum of the target sizes. *)
Definition offsets_disagree (numLESets : Z) (sizes : list Z) (m : WindMover)
  : Prop :=
  exists (stored : list Z) (j : nat),
    fLESetSizes m = Some stored
    /\ (j < Z.to_nat numLESets)%nat
    /\ nth j stored 0 <> prefix_sum sizes j.

(** The cells written by [k] successive bounded draws, and the world after
    them. *)
Fixpoint draws (k : nat) (m : WindMover) (w : World) : list cell * World :=
  match k with
  | O => ([], w)
  | S k' =>
      let (cs, w1) := sampleBounded m w in
      let (r, w2) := draws k' m w1 in
      (Some (mkUnrec (fst cs) (snd cs)) :: r, w2)
  end.

(** The world after two further calls of [_NewHandle]. *)
Definition after_two_allocs (w : World) : World :=
  mkWorld (rand_tape w) (rand_pos w) (alloc_tape w) (S (S (alloc_pos w))).

(** The outcome of a full reinit for the target [sizes] at time
    [elapsedTime], starting in world [w0]: success, the offsets are the
    prefix sums, every one of the [sum_list sizes] cells has been written
    with a draw, the refresh time is [elapsedTime], and the allocator has
    been called twice. *)
Definition reinitialised (elapsedTime : Z) (sizes : list Z) (w0 : World)
    (res : OSErr * WindMover * World) : Prop :=
  fst (fst res) = noErr
  /\ fLESetSizes (snd (fst res))
     = Some (map (prefix_sum sizes) (seq 0 (length sizes)))
  /\ (exists l',
        fWindUncertaintyList (snd (fst res)) = Some l'
        /\ Z.of_nat (length l') = sum_list sizes
        /\ Forall (fun c : cell => c <> None) l')
  /\ fTimeUncertaintyWasSet (snd (fst res)) = elapsedTime
  /\ alloc_pos (snd res) = S (S (alloc_pos w0)).

(** A draw, for the concrete stores below. *)
Definition a_draw : cell := Some (mkUnrec (1 / 2) (- (1 / 4))).

(** A mover after some steps with one set: [k] stored draws, offset table
    [0], last refresh at time 0, spreads still at zero. *)
Definition one_set_mover (k : nat) : WindMover :=
  mkMover 0 (3 * 3600)%R (Some (repeat a_draw k)) (Some [0])
          2%R (4 / 10)%R 30%R 60%R 0%R 0%R 0%R 0 false 0 (mkVel 5 0).

(** A mover with two sets of three stored draws each. *)
Definition two_set_mover : WindMover :=
  mkMover 0 (3 * 3600)%R (Some (repeat a_draw 6)) (Some [0; 3])
          2%R (4 / 10)%R 30%R 60%R 0%R 0%R 0%R 0 false 0 (mkVel 5 0).

(** A mover with angle scale 3 after a first step at elapsed time 0 with
    one element: one stored draw, both spreads computed as zero. *)
Definition stale_mover : WindMover :=
  mkMover 0 (3 * 3600)%R (Some [a_draw]) (Some [0])
          2%R 3%R 30%R 60%R 0%R 0%R 0%R 0 false 0 (mkVel 5 0).

Local Open Scope R_scope.

(** The magnitude of a velocity, as [AddUncertainty] computes it. *)
Definition norm2 (a : VelocityRec) : R := sqrt (v a * v a + u a * u a).

(** A velocity scaled by [k] and then rotated by the angle [th]. *)
Definition scale_rotate (k th : R) (a : VelocityRec) : VelocityRec :=
  mkVel (u a * k * cos th - v a * k * sin th)
        (v a * k * cos th + u a * k * sin th).

(** The quantities of the perturbation, written with [max] as the
    specification does. *)
Definition draw_x (nrm sigma2 : R) (d : LEWindUncertainRec) : R :=
  let s := Rmax (nrm * nrm - sigma2) 0 in
  let sqs := sqrt s in
  randCos d * sqrt (nrm - sqs) + sqrt sqs.

Definition draw_dtheta (sigmaTheta : R) (d : LEWindUncertainRec) : R :=
  randSin d * sigmaTheta * PI / 180.

Definition draw_w (nrm sigma2 sigmaTheta : R) (d : LEWindUncertainRec) : R :=
  draw_x nrm sigma2 d * draw_x nrm sigma2 d
  / Rmax (cos (draw_dtheta sigmaTheta d)) (1 / 1000).

(** The perturbation as the specification words it: the scale factor is
    [sqrt w' / normV]. *)
Definition perturbed_as_specified (sigma2 sigmaTheta : R)
    (d : LEWindUncertainRec) (a : VelocityRec) : VelocityRec :=
  scale_rotate (sqrt (draw_w (norm2 a) sigma2 sigmaTheta d) / norm2 a)
               (draw_dtheta sigmaTheta d) a.

(** The pair held by [a_draw]. *)
Definition the_draw : LEWindUncertainRec := mkUnrec (1 / 2) (- (1 / 4)).

(** A mover whose store holds that single draw and whose spreads are zero,
    as after a first step at elapsed time 0, under a wind of 9 m/s. *)
Definition still_mover : WindMover :=
  mkMover 0 (3 * 3600) (Some [Some the_draw]) (Some [0%Z])
          2 (4 / 10) 30 60 0 0 0 0 false 0 (mkVel 9 0).

(** A mover without a store whose cached wind is 5 m/s to the east. *)
Definition breeze_mover : WindMover :=
  mkMover 0 (3 * 3600) None None 2 (4 / 10) 30 60 0 0 0 0 false 0 (mkVel 5 0).

(** The scalings as the specification words them. *)
Definition expand_fixed (x : R) : R := x / 1000000.
Definition encode_fixed (x : R) : R := x * 1000000.

Local Close Scope R_scope.

(** Whether a status code keeps its element in the store. *)
Definition kept_code (H : Headers) (c : Z) : bool :=
  negb (c =? OILSTAT_TO_BE_REMOVED H).

(** The settings of a mover: everything but the store, the refresh time
    and the two spreads. *)
Definition same_settings (m m' : WindMover) : Prop :=
  fUncertainStartTime m' = fUncertainStartTime m
  /\ fDuration m' = fDuration m
  /\ fSpeedScale m' = fSpeedScale m
  /\ fAngleScale m' = fAngleScale m
  /\ fMaxSpeed m' = fMaxSpeed m
  /\ fMaxAngle m' = fMaxAngle m
  /\ fUncertaintyDiffusion m' = fUncertaintyDiffusion m
  /\ bIsFirstStep m' = bIsFirstStep m
  /\ fModelStartTime m' = fModelStartTime m
  /\ current_time_value m' = current_time_value m.

(** The displacement in degrees of an in-water element that the wind alone
    gives: nothing below the surface, and otherwise the cached wind times
    the windage over the time step, converted to degrees, the longitude
    being divided by the ratio at the latitude in millionths of a degree. *)
Definition forecast_delta (H : Headers) (step_len : Z) (m : WindMover)
    (r : WorldPoint3D) (wdg : R) : WorldPoint3D :=
  if flt 0 (z r) then zero_delta
  else
    mkWP3
      (mkWP (u (current_time_value m) * wdg / METERSPERDEGREELAT H
             * IZR step_len / LongToLatRatio3 H (pLat (p r) * 1000000))%R
            (v (current_time_value m) * wdg / METERSPERDEGREELAT H
             * IZR step_len)%R)
      0%R.

(** What the batch stores for element [i] when the wind alone acts. *)
Definition forecast_entry (H : Headers) (step_len : Z) (m : WindMover)
    (ref : list WorldPoint3D) (windages : list R) (LE_status : list Z)
    (i : nat) : WorldPoint3D :=
  if nth i LE_status 0 =? OILSTAT_INWATER H
  then forecast_delta H step_len m (nth i ref zero_delta) (nth i windages 0%R)
  else zero_delta.

(** Every cell of the draw array, if there is one, has been written. *)
Definition all_written (m : WindMover) : Prop :=
  forall l, fWindUncertaintyList m = Some l ->
            Forall (fun c : cell => c <> None) l.

(** The world in which the tail of [UpdateUncertainty] runs: the one left
    by the grow path when the decision enters it, the given one otherwise. *)
Definition world_after_grow (elapsedTime numLESets : Z) (sizes : list Z)
    (m : WindMover) (w : World) : World :=
  if needToReAllocate (decide elapsedTime numLESets sizes m)
  then snd (fst (grow (decide elapsedTime numLESets sizes m) numLESets m w))
  else w.

(** The mover carrying the spreads that the step at [elapsedTime] computes. *)
Definition with_new_sigmas (elapsedTime : Z) (m : WindMover) : WindMover :=
  set_sigmas m (new_sigma2 elapsedTime m) (new_sigmaTheta elapsedTime m).

(** The world in which the batch reaches element [i]: the one left by the
    iterations before it. *)
Definition world_at (H : Headers) (i : nat) (model_time step_len : Z)
    (ref : list WorldPoint3D) (windages : list R) (LE_status : list Z)
    (spillType spill_ID : Z) (m : WindMover)
    (delta : list WorldPoint3D) (w : World) : World :=
  snd (move_loop H i 0 model_time step_len ref windages LE_status
                 spillType spill_ID m delta w).

(** The wind that [GetMove] uses for an element at or above the surface:
    the cached wind, perturbed by [AddUncertainty] for an uncertainty
    element. *)
Definition wind_used (H : Headers) (setIndex leIndex leType : Z)
    (m : WindMover) (w : World) : VelocityRec :=
  if leType =? UNCERTAINTY_LE H
  then snd (fst (AddUncertainty setIndex leIndex (current_time_value m) m w))
  else current_time_value m.

(** * Properties *)

(** ** Comparisons and array updates *)

Lemma flt_true (a b : R) : flt a b = true <-> (a < b)%R.
Proof.
  unfold flt. destruct (Rlt_dec a b) as [Hlt | Hge]; split; intro Hx;
    try reflexivity; try assumption; try discriminate. contradiction.
Qed.

Lemma flt_false (a b : R) : flt a b = false <-> (b <= a)%R.
Proof.
  unfold flt. destruct (Rlt_dec a b) as [Hlt | Hge]; split; intro Hx;
    try reflexivity; try discriminate; lra.
Qed.

Lemma fle_true (a b : R) : fle a b = true <-> (a <= b)%R.
Proof.
  unfold fle. destruct (Rle_dec a b) as [Hle | Hgt]; split; intro Hx;
    try reflexivity; try assumption; try discriminate. contradiction.
Qed.

Lemma fle_false (a b : R) : fle a b = false <-> (b < a)%R.
Proof.
  unfold fle. destruct (Rle_dec a b) as [Hle | Hgt]; split; intro Hx;
    try reflexivity; try discriminate; lra.
Qed.

Lemma upd_length {A : Type} (i : nat) (x : A) (l : list A) :
  length (upd i x l) = length l.
Proof.
  revert i. induction l as [| h t IH]; intros [| i]; simpl; auto.
Qed.

Lemma nth_error_upd_same {A : Type} (i : nat) (x : A) (l : list A) :
  (i < length l)%nat -> nth_error (upd i x l) i = Some x.
Proof.
  revert i. induction l as [| h t IH]; intros [| i] Hi; simpl in *;
    try lia; auto. apply IH. lia.
Qed.

Lemma nth_error_upd_other {A : Type} (i j : nat) (x : A) (l : list A) :
  i <> j -> nth_error (upd i x l) j = nth_error l j.
Proof.
  revert i j. induction l as [| h t IH]; intros [| i] [| j] Hij; simpl;
    auto; try congruence.
Qed.

(** ** C10: nothing moves below the surface *)

(** C10. For every element whose depth [z] is greater than 0, [GetMove]
    returns the zero displacement, whatever the model time, the time step,
    the cached wind, the windage, the element type and the state of the
    uncertainty store; the random source is not consulted. *)
Theorem GetMove_below_surface :
  forall (H : Headers) (model_time timeStep setIndex leIndex : Z)
         (theLE : LERec) (leType : Z) (m : WindMover) (w : World),
    (0 < le_z theLE)%R ->
    GetMove H model_time timeStep setIndex leIndex theLE leType m w
    = (zero_delta, w).
Proof.
  intros H mt ts si li theLE ty m w Hz.
  unfold GetMove.
  apply flt_true in Hz. rewrite Hz. reflexivity.
Qed.

Lemma GetMove_below_surface_witness :
  GetMove gnome_headers 0 900 0 0 (mkLE (mkWP 0 0) 1 (3 / 100)) 2
          Init (steady_world (1 / 4) (1 / 2))
  = (zero_delta, steady_world (1 / 4) (1 / 2)).
Proof.
  apply GetMove_below_surface. simpl. lra.
Defined.

(** ** The checks and the skipped elements of [get_move] *)

Section BatchFacts.

Variable H : Headers.
Variables (model_time step_len spillType spill_ID : Z).
Variables (ref : list WorldPoint3D) (windages : list R) (LE_status : list Z).
Variable m : WindMover.

Local Abbreviation one i :=
  (move_one H i model_time step_len ref windages LE_status spillType spill_ID m).
Local Abbreviation loop k i :=
  (move_loop H k i model_time step_len ref windages LE_status spillType
             spill_ID m).

Lemma move_one_skips (i : nat) (delta : list WorldPoint3D) (w : World) :
  nth i LE_status 0 <> OILSTAT_INWATER H ->
  one i delta w = (upd i zero_delta delta, w).
Proof.
  intros Hst. unfold move_one.
  apply Z.eqb_neq in Hst. rewrite Hst. reflexivity.
Qed.

Lemma move_one_length (i : nat) (delta : list WorldPoint3D) (w : World) :
  length (fst (one i delta w)) = length delta.
Proof.
  unfold move_one.
  destruct (negb (nth i LE_status 0 =? OILSTAT_INWATER H)).
  - simpl. apply upd_length.
  - destruct (GetMove H model_time step_len spill_ID (Z.of_nat i) _ spillType m w)
      as [d w']. simpl. apply upd_length.
Qed.

Lemma move_one_other (i j : nat) (delta : list WorldPoint3D) (w : World) :
  i <> j -> nth_error (fst (one i delta w)) j = nth_error delta j.
Proof.
  intros Hij. unfold move_one.
  destruct (negb (nth i LE_status 0 =? OILSTAT_INWATER H)).
  - simpl. apply nth_error_upd_other; assumption.
  - destruct (GetMove H model_time step_len spill_ID (Z.of_nat i) _ spillType m w)
      as [d w']. simpl. apply nth_error_upd_other; assumption.
Qed.

Lemma move_loop_length (k i : nat) (delta : list WorldPoint3D) (w : World) :
  length (fst (loop k i delta w)) = length delta.
Proof.
  revert i delta w. induction k as [| k IH]; intros i delta w; simpl.
  - reflexivity.
  - pose proof (move_one_length i delta w) as Hl.
    destruct (one i delta w) as [d' w'].
    rewrite IH. exact Hl.
Qed.

Lemma move_loop_before (k i j : nat) (delta : list WorldPoint3D) (w : World) :
  (j < i)%nat -> nth_error (fst (loop k i delta w)) j = nth_error delta j.
Proof.
  revert i delta w. induction k as [| k IH]; intros i delta w Hj; simpl.
  - reflexivity.
  - pose proof (move_one_other i j delta w) as Ho.
    destruct (one i delta w) as [d' w'].
    rewrite IH by lia. apply Ho. lia.
Qed.

Lemma move_loop_zero (k i j : nat) (delta : list WorldPoint3D) (w : World) :
  (i <= j < i + k)%nat -> (j < length delta)%nat ->
  nth j LE_status 0 <> OILSTAT_INWATER H ->
  nth_error (fst (loop k i delta w)) j = Some zero_delta.
Proof.
  revert i delta w. induction k as [| k IH]; intros i delta w Hj Hlen Hst.
  - lia.
  - simpl. pose proof (move_one_length i delta w) as Hl.
    destruct (Nat.eq_dec i j) as [-> | Hne].
    + rewrite (move_one_skips j delta w Hst).
      rewrite move_loop_before by lia.
      apply nth_error_upd_same. assumption.
    + destruct (one i delta w) as [d' w'].
      simpl in Hl. apply IH; try assumption; lia.
Qed.

End BatchFacts.

(** X26. [get_move] returns 1 (InvalidArgument) and leaves [delta] as it was
    when the [delta], [ref] or [windages] array is absent; with the three
    arrays present it returns 2 (InvalidPopulationTag) without writing when
    the element type is neither forecast nor uncertainty; and on a run with
    a valid type every element whose status is not in-water ends with the
    zero displacement, its iteration doing nothing but that assignment.
    The two element types are consecutive enumerators. *)
Theorem get_move_checks :
  forall (H : Headers) (n model_time step_len : Z)
         (ref delta : option (list WorldPoint3D)) (windages : option (list R))
         (LE_status : list Z) (spillType spill_ID : Z)
         (m : WindMover) (w : World),
    UNCERTAINTY_LE H = FORECAST_LE H + 1 ->
    ((delta = None \/ ref = None \/ windages = None) ->
     get_move H n model_time step_len ref delta windages LE_status
              spillType spill_ID m w = (1, delta, w))
    /\ (delta <> None -> ref <> None -> windages <> None ->
        spillType <> FORECAST_LE H -> spillType <> UNCERTAINTY_LE H ->
        get_move H n model_time step_len ref delta windages LE_status
                 spillType spill_ID m w = (2, delta, w))
    /\ (forall dl rf wl,
         delta = Some dl -> ref = Some rf -> windages = Some wl ->
         spillType = FORECAST_LE H \/ spillType = UNCERTAINTY_LE H ->
         exists dl' w',
           get_move H n model_time step_len ref delta windages LE_status
                    spillType spill_ID m w = (noErr, Some dl', w')
           /\ length dl' = length dl
           /\ forall i, (i < Z.to_nat n)%nat -> (i < length dl)%nat ->
                nth i LE_status 0 <> OILSTAT_INWATER H ->
                nth_error dl' i = Some zero_delta)
    /\ (forall i rf wl dl w0,
         nth i LE_status 0 <> OILSTAT_INWATER H ->
         move_one H i model_time step_len rf wl LE_status spillType spill_ID
                  m dl w0 = (upd i zero_delta dl, w0)).
Proof.
  intros H n mt sl ref delta wd st ty sid m w Hadj.
  repeat split.
  - intros Habs. unfold get_move.
    destruct delta as [dl |]; [| reflexivity].
    destruct ref as [rf |]; [| reflexivity].
    destruct wd as [wl |]; [| reflexivity].
    destruct Habs as [Hx | [Hx | Hx]]; discriminate.
  - intros Hd Hr Hw Hf Hu. unfold get_move.
    destruct delta as [dl |]; [| congruence].
    destruct ref as [rf |]; [| congruence].
    destruct wd as [wl |]; [| congruence].
    assert (Hout : orb (ty <? FORECAST_LE H) (UNCERTAINTY_LE H <? ty) = true).
    { apply orb_true_iff.
      destruct (Z.ltb_spec ty (FORECAST_LE H)); [left; reflexivity |].
      right. apply Z.ltb_lt. lia. }
    rewrite Hout. reflexivity.
  - intros dl rf wl -> -> -> Hty. unfold get_move.
    assert (Hin : orb (ty <? FORECAST_LE H) (UNCERTAINTY_LE H <? ty) = false).
    { apply orb_false_iff. split; apply Z.ltb_ge; lia. }
    rewrite Hin.
    pose proof (move_loop_length H mt sl ty sid rf wl st m (Z.to_nat n) 0 dl w)
      as Hlen.
    pose proof (fun j => move_loop_zero H mt sl ty sid rf wl st m
                                        (Z.to_nat n) 0 j dl w) as Hzero.
    destruct (move_loop H (Z.to_nat n) 0 mt sl rf wl st ty sid m dl w)
      as [dl' w'].
    exists dl', w'. simpl in Hlen, Hzero.
    split; [reflexivity | split; [exact Hlen |]].
    intros i Hi Hil Hst. apply Hzero; try assumption. lia.
  - intros i rf wl dl w0 Hst. apply move_one_skips. assumption.
Qed.

Lemma get_move_checks_witness :
  get_move gnome_headers 1 0 900 None (Some [zero_delta]) (Some [(3 / 100)%R])
           [2] 1 0 Init (steady_world (1 / 4) (1 / 2))
  = (1, Some [zero_delta], steady_world (1 / 4) (1 / 2)).
Proof.
  apply (get_move_checks gnome_headers 1 0 900 None (Some [zero_delta])
                         (Some [(3 / 100)%R]) [2] 1 0 Init
                         (steady_world (1 / 4) (1 / 2))).
  - reflexivity.
  - right. left. reflexivity.
Defined.

(** ** C7: the status array is not tested *)

(** C7 (the code departs from it). Of the four arrays that [get_move] reads,
    it tests three.  With [delta], [ref] and [windages] present and the
    status pointer absent, the call never returns 1 (InvalidArgument): it
    returns 2 for an element type that is not valid; for a valid type it
    returns [noErr] with [delta] as it was when there is no element, and
    reads through the nil pointer, with no defined result, when there is
    one.  The last two lines are such runs, for the forecast type: a batch
    of no element, and a batch of one. *)
Theorem get_move_untested_status :
  forall (H : Headers) (n model_time step_len : Z)
         (rf dl : list WorldPoint3D) (wl : list R) (spillType spill_ID : Z)
         (m : WindMover) (w : World),
    (forall (e : OSErr) (d : option (list WorldPoint3D)) (w' : World),
        get_move_ptr H n model_time step_len (Some rf) (Some dl) (Some wl) None
                     spillType spill_ID m w = Some (e, d, w') ->
        e <> 1)
    /\ (FORECAST_LE H <= spillType <= UNCERTAINTY_LE H -> n <= 0 ->
        get_move_ptr H n model_time step_len (Some rf) (Some dl) (Some wl) None
                     spillType spill_ID m w = Some (noErr, Some dl, w))
    /\ (FORECAST_LE H <= spillType <= UNCERTAINTY_LE H -> 0 < n ->
        get_move_ptr H n model_time step_len (Some rf) (Some dl) (Some wl) None
                     spillType spill_ID m w = None)
    /\ get_move_ptr gnome_headers 0 0 900 (Some [mkWP3 (mkWP (-122) 45) 0])
                    (Some [zero_delta]) (Some [(3 / 100)%R]) None 1 0
                    breeze_mover (steady_world (1 / 4) (1 / 2))
       = Some (noErr, Some [zero_delta], steady_world (1 / 4) (1 / 2))
    /\ get_move_ptr gnome_headers 1 0 900 (Some [mkWP3 (mkWP (-122) 45) 0])
                    (Some [zero_delta]) (Some [(3 / 100)%R]) None 1 0
                    breeze_mover (steady_world (1 / 4) (1 / 2))
       = None.
Proof.
  intros H n mt sl rf dl wl ty sid m w.
  assert (Hin : FORECAST_LE H <= ty <= UNCERTAINTY_LE H ->
                orb (ty <? FORECAST_LE H) (UNCERTAINTY_LE H <? ty) = false).
  { intros Hty. apply orb_false_iff. split; apply Z.ltb_ge; lia. }
  split; [| split; [| split; [| split]]].
  - intros e d w'. unfold get_move_ptr.
    destruct (orb (ty <? FORECAST_LE H) (UNCERTAINTY_LE H <? ty)).
    + intros Heq. injection Heq as <- _ _. discriminate.
    + destruct (n <=? 0); [| discriminate].
      intros Heq. injection Heq as <- _ _. discriminate.
  - intros Hty Hn. unfold get_move_ptr. rewrite (Hin Hty).
    replace (n <=? 0) with true by (symmetry; apply Z.leb_le; assumption).
    reflexivity.
  - intros Hty Hn. unfold get_move_ptr. rewrite (Hin Hty).
    replace (n <=? 0) with false by (symmetry; apply Z.leb_gt; assumption).
    reflexivity.
  - reflexivity.
  - reflexivity.
Qed.

(** ** C6: the bounded sampler *)

Lemma accepts_bound (m : WindMover) (cs : R * R) :
  accepts m cs = true <-> (Rabs (fSigmaTheta m * snd cs) <= fMaxAngle m)%R.
Proof. unfold accepts, TermsLessThanMax. apply fle_true. Qed.

Lemma skip_rand_0 (w : World) : skip_rand 0 w = w.
Proof. destruct w; reflexivity. Qed.

Lemma skip_rand_add (a b : nat) (w : World) :
  skip_rand a (skip_rand b w) = skip_rand (a + b) w.
Proof. unfold skip_rand; simpl. f_equal. lia. Qed.

Lemma rndv_world (w : World) : snd (rndv w) = skip_rand 2 w.
Proof. reflexivity. Qed.

Lemma rndv_eq (w : World) : rndv w = (fst (rndv w), skip_rand 2 w).
Proof. reflexivity. Qed.

(** What the retry loop does when it is entered with the [i]-th draw in hand
    and [j] iterations left: it stops at some draw [k], the first accepted
    one if there is one among the tested draws. *)
Lemma retry_loop_run (m : WindMover) (w0 : World) :
  forall (j i : nat),
  exists k : nat,
    (i <= k <= i + j)%nat
    /\ retry_loop j m (draw_at w0 i) (skip_rand (2 * S i) w0)
       = (draw_at w0 k, skip_rand (2 * S k) w0)
    /\ (forall l, (i <= l < k)%nat -> accepts m (draw_at w0 l) = false)
    /\ ((k < i + j)%nat -> accepts m (draw_at w0 k) = true).
Proof.
  induction j as [| j IH]; intros i.
  - exists i. simpl. repeat split; try lia; intros; lia.
  - cbn [retry_loop]. fold (accepts m (draw_at w0 i)).
    destruct (accepts m (draw_at w0 i)) eqn:Hacc.
    + exists i. repeat split; try lia; intros; try lia. assumption.
    + destruct (IH (S i)) as (k & Hk & Hrun & Hrej & Hok).
      exists k. rewrite (rndv_eq (skip_rand (2 * S i) w0)).
      rewrite skip_rand_add.
      replace (2 + 2 * S i)%nat with (2 * S (S i))%nat by lia.
      replace (fst (rndv (skip_rand (2 * S i) w0))) with (draw_at w0 (S i))
        by reflexivity.
      repeat split; try lia.
      * exact Hrun.
      * intros l Hl. destruct (Nat.eq_dec l i) as [-> | Hne];
          [assumption | apply Hrej; lia].
      * intros Hlt. apply Hok. lia.
Qed.

Lemma sampleBounded_run (m : WindMover) (w : World) :
  exists k : nat,
    (k <= 10)%nat
    /\ sampleBounded m w = (draw_at w k, skip_rand (2 * S k) w)
    /\ (forall l, (l < k)%nat -> accepts m (draw_at w l) = false)
    /\ ((k < 10)%nat -> accepts m (draw_at w k) = true).
Proof.
  destruct (retry_loop_run m w 10 0) as (k & Hk & Hrun & Hrej & Hok).
  exists k. unfold sampleBounded. rewrite (rndv_eq w).
  replace (fst (rndv w)) with (draw_at w 0)
    by (unfold draw_at; simpl (2 * 0)%nat; rewrite skip_rand_0; reflexivity).
  repeat split; try lia.
  - exact Hrun.
  - intros l Hl. apply Hrej. lia.
  - intros Hlt. apply Hok. lia.
Qed.

(** C6 (amended). [sampleBounded] calls [rndv] between 1 and 11 times: a
    first draw and at most 10 redraws.  It tests the first 10 draws in turn
    and returns the first one with [|sigmaTheta * sinTerm| <= maxAngle]; when
    all 10 fail, it returns the 11th draw without testing it.  Hence a
    returned pair either satisfies the bound or follows exactly 10 draws that
    failed it. *)
Theorem sampleBounded_spec :
  forall (m : WindMover) (w : World),
  exists n : nat,
    (1 <= n <= 11)%nat
    /\ sample_calls m w = n
    /\ fst (sampleBounded m w) = draw_at w (n - 1)
    /\ (forall l, (l < n - 1)%nat ->
          ~ (Rabs (fSigmaTheta m * snd (draw_at w l)) <= fMaxAngle m)%R)
    /\ ((n <= 10)%nat ->
          (Rabs (fSigmaTheta m * snd (fst (sampleBounded m w))) <= fMaxAngle m)%R)
    /\ ((Rabs (fSigmaTheta m * snd (fst (sampleBounded m w))) <= fMaxAngle m)%R
        \/ n = 11%nat).
Proof.
  intros m w.
  destruct (sampleBounded_run m w) as (k & Hk & Hrun & Hrej & Hok).
  exists (S k). unfold sample_calls. rewrite Hrun.
  replace (S k - 1)%nat with k by lia.
  split; [lia |]. split.
  - cbn [snd skip_rand rand_pos].
    replace (2 * S k + rand_pos w - rand_pos w)%nat with (S k * 2)%nat by lia.
    apply Nat.div_mul. discriminate.
  - split; [reflexivity |]. split.
    + intros l Hl Hb. apply accepts_bound in Hb.
      rewrite Hrej in Hb by assumption. discriminate.
    + split.
      * intros Hn. apply accepts_bound. apply Hok. lia.
      * destruct (Nat.eq_dec k 10) as [-> | Hne]; [right; reflexivity |].
        left. apply accepts_bound. apply Hok. lia.
Qed.

(** A random source that keeps returning 1/4 for the angle and 1/2 for the
    magnitude draws a pair whose sine term exceeds 1 every time. *)
Lemma steady_sin_term :
  (1 < sqrt (- 2 * ln (1 / 2)) * sin (2 * PI * (1 / 4)))%R.
Proof.
  replace (2 * PI * (1 / 4))%R with (PI / 2)%R by lra.
  rewrite sin_PI2, Rmult_1_r.
  replace (1 / 2)%R with (/ 2)%R by lra.
  rewrite ln_Rinv by lra.
  rewrite <- sqrt_1 at 1.
  apply sqrt_lt_1_alt. pose proof ln_lt_2. lra.
Qed.

Lemma steady_draw (l : nat) :
  snd (draw_at (steady_world (1 / 4) (1 / 2)) l)
  = (sqrt (- 2 * ln (1 / 2)) * sin (2 * PI * (1 / 4)))%R.
Proof.
  unfold draw_at, rndv, GetRandomFloat, skip_rand, steady_world.
  cbn [fst snd rand_tape rand_pos].
  replace (2 * l + 0)%nat with (2 * l)%nat by lia.
  assert (He : Nat.even (2 * l) = true).
  { rewrite Nat.even_mul. reflexivity. }
  assert (Ho : Nat.even (S (2 * l)) = false).
  { rewrite Nat.even_succ. rewrite <- Nat.negb_even, He. reflexivity. }
  rewrite He, Ho. reflexivity.
Qed.

Lemma hot_mover_rejects (l : nat) :
  accepts hot_mover (draw_at (steady_world (1 / 4) (1 / 2)) l) = false.
Proof.
  unfold accepts, TermsLessThanMax. apply fle_false.
  rewrite steady_draw. cbn [fSigmaTheta fMaxAngle hot_mover].
  pose proof steady_sin_term as Hs.
  rewrite Rabs_pos_eq; nra.
Qed.

(** C6, as stated, fails: when the first ten draws all miss the bound the
    sampler has called [rndv] eleven times, not at most ten. *)
Lemma sampleBounded_eleven_calls :
  sample_calls hot_mover (steady_world (1 / 4) (1 / 2)) = 11%nat
  /\ ~ (sample_calls hot_mover (steady_world (1 / 4) (1 / 2)) <= 10)%nat.
Proof.
  assert (Hc : sample_calls hot_mover (steady_world (1 / 4) (1 / 2)) = 11%nat).
  { destruct (sampleBounded_run hot_mover (steady_world (1 / 4) (1 / 2)))
      as (k & Hk & Hrun & _ & Hok).
    assert (Hk10 : k = 10%nat).
    { destruct (Nat.eq_dec k 10) as [He | Hne]; [assumption |].
      rewrite hot_mover_rejects in Hok.
      assert (Hlt : (k < 10)%nat) by lia.
      specialize (Hok Hlt). discriminate. }
    subst k. unfold sample_calls. rewrite Hrun. reflexivity. }
  split; [exact Hc | rewrite Hc; lia].
Qed.

(** ** C8: shrinking the store *)

Lemma firstn_snoc_nth {A : Type} (d : A) (l : list A) (i : nat) :
  (i < length l)%nat -> firstn (S i) l = firstn i l ++ [nth i l d].
Proof.
  revert i. induction l as [| h t IH]; intros i Hi; simpl in Hi; [lia |].
  destruct i as [| i]; [reflexivity |].
  change (h :: firstn (S i) t = h :: (firstn i t ++ [nth i t d])).
  rewrite IH by lia. reflexivity.
Qed.

Lemma firstn_upd_snoc {A : Type} (x : A) (l : list A) (n : nat) :
  (n < length l)%nat -> firstn (S n) (upd n x l) = firstn n l ++ [x].
Proof.
  revert n. induction l as [| h t IH]; intros n Hn; simpl in Hn; [lia |].
  destruct n as [| n]; [reflexivity |].
  change (h :: firstn (S n) (upd n x t) = h :: (firstn n t ++ [x])).
  rewrite IH by lia. reflexivity.
Qed.

Lemma skipn_upd {A : Type} (x : A) (l : list A) (n j : nat) :
  (n < j)%nat -> skipn j (upd n x l) = skipn j l.
Proof.
  revert n j. induction l as [| h t IH]; intros n j Hnj.
  - destruct n; reflexivity.
  - destruct j as [| j]; [lia |]. destruct n as [| n]; [reflexivity |].
    simpl. apply IH. lia.
Qed.

Lemma nth_hd_skipn {A : Type} (d : A) (i : nat) :
  forall l : list A, nth i l d = hd d (skipn i l).
Proof.
  induction i as [| i IH]; intros [| h t]; simpl; auto.
Qed.

Lemma skipn_S_tl {A : Type} (i : nat) :
  forall l : list A, skipn (S i) l = tl (skipn i l).
Proof.
  induction i as [| i IH]; intros [| h t]; try reflexivity.
  change (skipn (S i) t = tl (skipn i t)). apply IH.
Qed.

Lemma skipn_same_nth {A : Type} (d : A) (i : nat) (l l' : list A) :
  skipn i l = skipn i l' -> nth i l d = nth i l' d.
Proof.
  intros Heq. rewrite !nth_hd_skipn, Heq. reflexivity.
Qed.

Lemma combine_app_same {A B : Type} (cs cs' : list A) :
  forall xs xs' : list B,
    length cs = length xs ->
    combine (cs ++ cs') (xs ++ xs') = combine cs xs ++ combine cs' xs'.
Proof.
  induction cs as [| c cs IH]; intros [| x xs] xs' Hlen; simpl in *;
    try discriminate; [reflexivity |].
  rewrite IH by lia. reflexivity.
Qed.

Section Shrink.

Variable H : Headers.

Lemma survivors_snoc (cs : list Z) (xs : list cell) (c : Z) (x : cell) :
  length cs = length xs ->
  survivors H (cs ++ [c]) (xs ++ [x])
  = survivors H cs xs
    ++ (if c =? OILSTAT_TO_BE_REMOVED H then [] else [x]).
Proof.
  intros Hlen. unfold survivors.
  rewrite combine_app_same by assumption.
  rewrite filter_app, map_app. simpl.
  destruct (c =? OILSTAT_TO_BE_REMOVED H); reflexivity.
Qed.

Lemma compact_loop_spec (codes : list Z) (orig : list cell) :
  length codes = length orig ->
  forall (k i numrec : nat) (l : list cell),
    length l = length orig ->
    (i + k = length orig)%nat ->
    (numrec <= i)%nat ->
    firstn numrec l = survivors H (firstn i codes) (firstn i orig) ->
    skipn i l = skipn i orig ->
    length (fst (compact_loop H k i numrec codes l)) = length orig
    /\ (snd (compact_loop H k i numrec codes l) <= length orig)%nat
    /\ firstn (snd (compact_loop H k i numrec codes l))
              (fst (compact_loop H k i numrec codes l))
       = survivors H codes orig.
Proof.
  intros Hcodes. induction k as [| k IH]; intros i numrec l Hl Hik Hn Hpre Hsuf.
  - simpl. replace i with (length orig) in * by lia.
    rewrite <- Hcodes in Hpre at 1. rewrite !firstn_all in Hpre.
    repeat split; try assumption; lia.
  - cbn [compact_loop].
    assert (Hpre' :
      survivors H (firstn (S i) codes) (firstn (S i) orig)
      = survivors H (firstn i codes) (firstn i orig)
        ++ (if nth i codes 0 =? OILSTAT_TO_BE_REMOVED H
            then [] else [nth i orig None])).
    { rewrite (firstn_snoc_nth 0 codes i) by lia.
      rewrite (firstn_snoc_nth None orig i) by lia.
      apply survivors_snoc. rewrite !length_firstn. lia. }
    assert (Hsuf' : skipn (S i) l = skipn (S i) orig).
    { rewrite !skipn_S_tl, Hsuf. reflexivity. }
    destruct (nth i codes 0 =? OILSTAT_TO_BE_REMOVED H).
    + apply IH; try assumption; try lia.
      rewrite Hpre', app_nil_r. assumption.
    + apply IH; try lia.
      * rewrite upd_length. assumption.
      * rewrite firstn_upd_snoc by lia.
        rewrite Hpre', Hpre. f_equal. f_equal.
        apply skipn_same_nth. assumption.
      * rewrite skipn_upd by lia. assumption.
Qed.

Lemma compact_loop_all (codes : list Z) (l : list cell) :
  length codes = length l ->
  length (fst (compact_loop H (length l) 0 0 codes l)) = length l
  /\ (snd (compact_loop H (length l) 0 0 codes l) <= length l)%nat
  /\ firstn (snd (compact_loop H (length l) 0 0 codes l))
            (fst (compact_loop H (length l) 0 0 codes l))
     = survivors H codes l.
Proof.
  intros Hcodes. apply compact_loop_spec; try assumption; try reflexivity; lia.
Qed.

End Shrink.

Lemma SetHandleSize_shrink (n : nat) (l : list cell) :
  (n <= length l)%nat -> SetHandleSize (Z.of_nat n) l = firstn n l.
Proof.
  intros Hn. unfold SetHandleSize. rewrite Nat2Z.id.
  replace (n - length l)%nat with 0%nat by lia.
  simpl. apply app_nil_r.
Qed.

(** C8 (amended). [ReallocateUncertainty] returns -1 when the element count
    is 0 or the status array is absent.  Otherwise, when the store is not
    allocated it returns success and changes nothing.  When the store is
    allocated it returns -1, leaving the store as it is, unless the draw
    array holds exactly [numLEs] entries and there is exactly one set; and
    in that case it succeeds and the draw array becomes the entries whose
    status is not the removal code, in their original order, the offset
    table being kept, except that when no entry survives the whole store is
    disposed: both handles are nil. *)
Theorem ReallocateUncertainty_spec :
  forall (H : Headers) (numLEs : Z) (statusCodes : option (list Z))
         (m : WindMover),
    ((numLEs = 0 \/ statusCodes = None) ->
     ReallocateUncertainty H numLEs statusCodes m = (-1, m))
    /\ (forall codes,
          statusCodes = Some codes -> numLEs <> 0 ->
          (fWindUncertaintyList m = None \/ fLESetSizes m = None) ->
          ReallocateUncertainty H numLEs statusCodes m = (noErr, m))
    /\ (forall codes l s,
          statusCodes = Some codes -> numLEs <> 0 ->
          fWindUncertaintyList m = Some l -> fLESetSizes m = Some s ->
          (Z.of_nat (length l) <> numLEs \/ length s <> 1%nat) ->
          ReallocateUncertainty H numLEs statusCodes m = (-1, m))
    /\ (forall codes l s,
          statusCodes = Some codes -> numLEs <> 0 ->
          fWindUncertaintyList m = Some l -> fLESetSizes m = Some s ->
          Z.of_nat (length l) = numLEs -> length s = 1%nat ->
          length codes = length l ->
          ReallocateUncertainty H numLEs statusCodes m
          = (noErr,
             match survivors H codes l with
             | [] => DisposeUncertainty m
             | _ :: _ => set_list m (Some (survivors H codes l))
             end))
    /\ (fWindUncertaintyList (DisposeUncertainty m) = None
        /\ fLESetSizes (DisposeUncertainty m) = None).
Proof.
  intros H numLEs statusCodes m. repeat split.
  - intros [Hn | Hs]; unfold ReallocateUncertainty.
    + subst. destruct statusCodes; reflexivity.
    + subst. reflexivity.
  - intros codes -> Hn Habs. unfold ReallocateUncertainty.
    apply Z.eqb_neq in Hn. rewrite Hn.
    destruct Habs as [Ha | Ha]; rewrite Ha; [reflexivity |].
    destruct (fWindUncertaintyList m); reflexivity.
  - intros codes l s -> Hn Hl Hs Hbad. unfold ReallocateUncertainty.
    apply Z.eqb_neq in Hn. rewrite Hn, Hl, Hs.
    destruct (Z.eqb_spec (Z.of_nat (length l)) numLEs) as [Heq | Hne];
      [| reflexivity].
    destruct (Z.eqb_spec (Z.of_nat (length s)) 1) as [Heq1 | Hne1];
      [| reflexivity].
    destruct Hbad as [Hb | Hb]; [contradiction | lia].
  - intros codes l s -> Hn Hl Hs Hlen Hone Hcodes.
    unfold ReallocateUncertainty.
    apply Z.eqb_neq in Hn. rewrite Hn, Hl, Hs.
    rewrite (proj2 (Z.eqb_eq _ _) Hlen).
    replace (Z.of_nat (length s) =? 1) with true
      by (symmetry; apply Z.eqb_eq; lia).
    cbn [negb]. rewrite <- Hlen, Nat2Z.id.
    destruct (compact_loop_all H codes l Hcodes) as (Hl' & Hle & Hkeep).
    destruct (compact_loop H (length l) 0 0 codes l) as [l' numrec].
    cbn [fst snd] in *.
    assert (Hnum : numrec = length (survivors H codes l)).
    { rewrite <- Hkeep, length_firstn. lia. }
    destruct (Nat.eqb_spec numrec 0) as [Hz | Hnz].
    + rewrite Hz in *. destruct (survivors H codes l); [reflexivity |].
      simpl in Hnum. lia.
    + destruct (survivors H codes l) as [| c rest] eqn:Hsv;
        [simpl in Hnum; lia |].
      destruct (Z.ltb_spec (Z.of_nat numrec) (Z.of_nat (length l))) as [Hlt | Hge].
      * rewrite SetHandleSize_shrink by lia. rewrite Hkeep. reflexivity.
      * assert (Hall : numrec = length l') by lia.
        rewrite Hall, firstn_all in Hkeep. rewrite Hkeep. reflexivity.
Qed.

(** C8, as stated, fails: with no store allocated there is no set at all,
    yet the call reports success instead of an inconsistent state. *)
Lemma ReallocateUncertainty_absent_store :
  ReallocateUncertainty gnome_headers 3 (Some [2; 12; 2]) Init = (noErr, Init)
  /\ handle_len (fLESetSizes Init) <> 1
  /\ handle_len (fWindUncertaintyList Init) <> 3.
Proof.
  split; [reflexivity |]. split; simpl; lia.
Qed.

(** ** The scheduler's decision *)

Lemma sum_list_app (a b : list Z) : sum_list (a ++ b) = sum_list a + sum_list b.
Proof. induction a as [| x a IH]; simpl; lia. Qed.

Lemma prefix_sum_S (sizes : list Z) (j : nat) :
  prefix_sum sizes (S j) = prefix_sum sizes j + nth j sizes 0.
Proof.
  unfold prefix_sum. revert j.
  induction sizes as [| x t IH]; intros j.
  - destruct j; reflexivity.
  - destruct j as [| j].
    + simpl. lia.
    + change (x + sum_list (firstn (S j) t)
              = x + sum_list (firstn j t) + nth j t 0).
      rewrite IH. lia.
Qed.

Lemma prefix_sum_all (sizes : list Z) (j : nat) :
  (length sizes <= j)%nat -> prefix_sum sizes j = sum_list sizes.
Proof. intros Hj. unfold prefix_sum. rewrite firstn_all2 by lia. reflexivity. Qed.

Lemma sum_list_nonneg (l : list Z) : Forall (fun x => 0 <= x) l -> 0 <= sum_list l.
Proof. induction 1; simpl; lia. Qed.

(** The comparison loop either finds every stored offset equal to the
    prefix sum and ends with the next prefix sum, or breaks at a stored
    offset that differs. *)
Lemma check_loop_cases (sizes stored : list Z) :
  forall k i : nat,
    (check_loop k i (prefix_sum sizes i) sizes stored
     = (false, prefix_sum sizes (i + k))
     /\ forall j, (i <= j < i + k)%nat -> nth j stored 0 = prefix_sum sizes j)
    \/ (fst (check_loop k i (prefix_sum sizes i) sizes stored) = true
        /\ exists j, (i <= j < i + k)%nat
                     /\ nth j stored 0 <> prefix_sum sizes j).
Proof.
  induction k as [| k IH]; intros i.
  - left. simpl. rewrite Nat.add_0_r. split; [reflexivity | intros; lia].
  - cbn [check_loop].
    destruct (Z.eqb_spec (prefix_sum sizes i) (nth i stored 0)) as [Heq | Hne].
    + cbn [negb]. rewrite <- prefix_sum_S.
      destruct (IH (S i)) as [[Hrun Hall] | [Hbrk (j & Hj & Hdiff)]].
      * left. rewrite Hrun. replace (S i + k)%nat with (i + S k)%nat by lia.
        split; [reflexivity |]. intros j Hj.
        destruct (Nat.eq_dec j i) as [-> | Hji]; [auto | apply Hall; lia].
      * right. split; [assumption |]. exists j. split; [lia | assumption].
    + right. cbn [negb fst]. split; [reflexivity |].
      exists i. split; [lia | congruence].
Qed.

Section Decision.

Variables (elapsedTime numLESets : Z) (sizes : list Z) (m : WindMover).
Hypothesis Hsizes : Z.of_nat (length sizes) = numLESets.

Lemma decide_reinit_iff :
  needToReInit (decide elapsedTime numLESets sizes m) = true
  <-> (store_absent m
       \/ elapsedTime < fTimeUncertaintyWasSet m
       \/ numLESets <> handle_len (fLESetSizes m)
       \/ offsets_disagree numLESets sizes m
       \/ sum_list sizes < handle_len (fWindUncertaintyList m)).
Proof.
  unfold decide, store_absent, offsets_disagree.
  destruct (fLESetSizes m) as [stored |] eqn:Hst.
  2:{ split; [intros _; left; right; reflexivity |].
      intros _. destruct (fWindUncertaintyList m); reflexivity. }
  unfold check_sets. cbn [handle_len].
  destruct (Z.eqb_spec numLESets (Z.of_nat (length stored))) as [Hcnt | Hcnt].
  2:{ cbn [negb needToReInit]. split; [intros _ | reflexivity].
      right. right. left. assumption. }
  cbn [negb].
  assert (Htot : prefix_sum sizes (0 + Z.to_nat numLESets) = sum_list sizes).
  { apply prefix_sum_all. lia. }
  destruct (check_loop_cases sizes stored (Z.to_nat numLESets) 0)
    as [[Hrun Hall] | [Hbrk (j & Hj & Hdiff)]].
  - change (prefix_sum sizes 0) with 0 in Hrun. rewrite Hrun, Htot.
    rewrite orb_false_r.
    destruct (fWindUncertaintyList m) as [l |] eqn:Hl; cbn [handle_len].
    + cbn [orb].
      destruct (Z.eqb_spec (sum_list sizes) (Z.of_nat (length l))) as [He | Hn];
        cbn [negb].
      * cbn [needToReInit]. rewrite Z.ltb_lt. split.
        -- intros Hclk. right. left. assumption.
        -- intros [[Ha | Ha] | [Hclk | [Hc | [(s' & j & Hs' & Hj & Hd) | Hlt]]]];
             try discriminate; try assumption; try lia.
           injection Hs' as <-. exfalso. apply Hd. apply Hall. lia.
      * destruct (Z.ltb_spec (Z.of_nat (length l)) (sum_list sizes)) as [Hg | Hs];
          cbn [needToReInit].
        -- rewrite Z.ltb_lt. split.
           ++ intros Hclk. right. left. assumption.
           ++ intros [[Ha | Ha] | [Hclk | [Hc | [(s' & j & Hs' & Hj & Hd) | Hlt]]]];
                try discriminate; try assumption; try lia.
              injection Hs' as <-. exfalso. apply Hd. apply Hall. lia.
        -- split; [intros _ | reflexivity].
           right. right. right. right. lia.
    + cbn [orb].
      destruct (negb (sum_list sizes =? 0));
        [destruct (0 <? sum_list sizes) |]; cbn [needToReInit];
        (split; [intros _; left; left; reflexivity | reflexivity]).
  - change (prefix_sum sizes 0) with 0 in Hbrk.
    destruct (check_loop (Z.to_nat numLESets) 0 0 sizes stored) as [brk numrec].
    cbn [fst] in Hbrk. subst brk. rewrite orb_true_r.
    split.
    + intros _. right. right. right. left.
      exists stored, j. split; [reflexivity | split; [lia | assumption]].
    + intros _.
      destruct (negb (numrec =? handle_len (fWindUncertaintyList m)));
        [destruct (handle_len (fWindUncertaintyList m) <? numrec) |];
        reflexivity.
Qed.

End Decision.

(** ** Filling loops *)

Lemma upd_app_mid {A : Type} (x r : A) (done rest : list A) :
  upd (length done) x (done ++ r :: rest) = done ++ x :: rest.
Proof. induction done as [| h t IH]; simpl; [reflexivity | rewrite IH; reflexivity]. Qed.

Lemma sampleBounded_alloc (m : WindMover) (w : World) :
  alloc_pos (snd (sampleBounded m w)) = alloc_pos w
  /\ alloc_tape (snd (sampleBounded m w)) = alloc_tape w.
Proof.
  destruct (sampleBounded_run m w) as (k & _ & Hrun & _).
  rewrite Hrun. split; reflexivity.
Qed.

Lemma draws_length (k : nat) (m : WindMover) :
  forall w, length (fst (draws k m w)) = k.
Proof.
  induction k as [| k IH]; intros w; simpl; [reflexivity |].
  destruct (sampleBounded m w) as [cs w1].
  specialize (IH w1). destruct (draws k m w1) as [r w2].
  simpl in *. lia.
Qed.

Lemma draws_written (k : nat) (m : WindMover) :
  forall w, Forall (fun c : cell => c <> None) (fst (draws k m w)).
Proof.
  induction k as [| k IH]; intros w; simpl; [constructor |].
  destruct (sampleBounded m w) as [cs w1].
  specialize (IH w1). destruct (draws k m w1) as [r w2].
  simpl in *. constructor; [discriminate | assumption].
Qed.

Lemma draws_alloc (k : nat) (m : WindMover) :
  forall w, alloc_pos (snd (draws k m w)) = alloc_pos w
            /\ alloc_tape (snd (draws k m w)) = alloc_tape w.
Proof.
  induction k as [| k IH]; intros w; simpl; [split; reflexivity |].
  pose proof (sampleBounded_alloc m w) as [Hp Ht].
  destruct (sampleBounded m w) as [cs w1].
  specialize (IH w1). destruct (draws k m w1) as [r w2].
  simpl in *. destruct IH as [IHp IHt]. split; congruence.
Qed.

(** The filling loop writes the successive draws into the cells from
    [length done] on, and touches no other cell. *)
Lemma fill_loop_spec (m : WindMover) :
  forall (k : nat) (done rest : list cell) (w : World),
    (k <= length rest)%nat ->
    fill_loop k (length done) m (done ++ rest) w
    = (done ++ fst (draws k m w) ++ skipn k rest, snd (draws k m w)).
Proof.
  induction k as [| k IH]; intros done rest w Hk.
  - reflexivity.
  - destruct rest as [| r rest]; [simpl in Hk; lia |].
    cbn [fill_loop draws].
    destruct (sampleBounded m w) as [cs w1].
    rewrite upd_app_mid.
    change (done ++ Some (mkUnrec (fst cs) (snd cs)) :: rest)
      with (done ++ [Some (mkUnrec (fst cs) (snd cs))] ++ rest).
    rewrite app_assoc.
    replace (S (length done))
      with (length (done ++ [Some (mkUnrec (fst cs) (snd cs))]))
      by (rewrite length_app; simpl; lia).
    rewrite IH by (simpl in Hk; lia).
    destruct (draws k m w1) as [r' w2]. cbn [fst snd skipn].
    rewrite <- app_assoc. reflexivity.
Qed.

(** The offset loop stores the prefix sums. *)
Lemma offsets_loop_spec (sizes : list Z) :
  forall (k : nat) (done rest : list Z),
    length rest = k ->
    offsets_loop k (length done) (prefix_sum sizes (length done)) sizes
                 (done ++ rest)
    = (done ++ map (prefix_sum sizes) (seq (length done) k),
       prefix_sum sizes (length done + k)).
Proof.
  induction k as [| k IH]; intros done rest Hk.
  - destruct rest; [| discriminate]. simpl. rewrite Nat.add_0_r. reflexivity.
  - destruct rest as [| r rest]; [discriminate |].
    cbn [offsets_loop]. rewrite upd_app_mid, <- prefix_sum_S.
    change (done ++ prefix_sum sizes (length done) :: rest)
      with (done ++ [prefix_sum sizes (length done)] ++ rest).
    rewrite app_assoc.
    replace (S (length done))
      with (length (done ++ [prefix_sum sizes (length done)]))
      by (rewrite length_app; simpl; lia).
    rewrite IH by (simpl in Hk; lia).
    rewrite length_app. cbn [length seq map].
    rewrite <- app_assoc. f_equal.
    + replace (length done + 1)%nat with (S (length done)) by lia. reflexivity.
    + f_equal. lia.
Qed.

(** ** Allocation *)

Section Allocation.

Variable H : Headers.

(** Whenever [AllocateUncertainty] reports an error, both handles are nil. *)
Lemma AllocateUncertainty_failure (numLESets : Z) (sizes : list Z)
    (m : WindMover) (w : World) :
  fst (fst (AllocateUncertainty H numLESets sizes m w)) <> noErr ->
  fWindUncertaintyList (snd (fst (AllocateUncertainty H numLESets sizes m w)))
  = None
  /\ fLESetSizes (snd (fst (AllocateUncertainty H numLESets sizes m w))) = None.
Proof.
  unfold AllocateUncertainty.
  destruct (numLESets =? 0); [intros _; split; reflexivity |].
  destruct (NewHandle numLESets w) as [ok1 w1].
  destruct ok1; cbn [negb]; [| intros _; split; reflexivity].
  destruct (offsets_loop _ _ _ _ _) as [offs numrec].
  destruct (NewHandle numrec w1) as [ok2 w2].
  destruct ok2; cbn [negb]; [| intros _; split; reflexivity].
  cbn [fst]. intros Hne. exfalso. apply Hne. reflexivity.
Qed.

Lemma AllocateUncertainty_success (numLESets : Z) (sizes : list Z)
    (m : WindMover) (w : World) :
  Z.of_nat (length sizes) = numLESets ->
  numLESets <> 0 ->
  Forall (fun x => 0 <= x) sizes ->
  alloc_tape w (alloc_pos w) = true ->
  alloc_tape w (S (alloc_pos w)) = true ->
  AllocateUncertainty H numLESets sizes m w
  = (noErr,
     set_list
       (set_sizes (DisposeUncertainty m)
                  (Some (map (prefix_sum sizes) (seq 0 (length sizes)))))
       (Some (repeat None (Z.to_nat (sum_list sizes)))),
     after_two_allocs w).
Proof.
  intros Hlen Hn Hpos Ha1 Ha2. unfold AllocateUncertainty.
  apply Z.eqb_neq in Hn. rewrite Hn.
  unfold NewHandle at 1. rewrite Ha1.
  replace (0 <=? numLESets) with true by (symmetry; apply Z.leb_le; lia).
  cbn [andb negb].
  rewrite <- Hlen, Nat2Z.id.
  pose proof (offsets_loop_spec sizes (length sizes) [] (repeat 0 (length sizes))
                                (repeat_length _ _)) as Hoff.
  cbn [length app] in Hoff. change (prefix_sum sizes 0) with 0 in Hoff.
  rewrite Hoff. cbn [Nat.add].
  rewrite (prefix_sum_all sizes (length sizes)) by lia.
  unfold NewHandle. cbn [alloc_tape alloc_pos]. rewrite Ha2.
  replace (0 <=? sum_list sizes) with true
    by (symmetry; apply Z.leb_le; apply sum_list_nonneg; assumption).
  reflexivity.
Qed.

End Allocation.

(** ** Reinitialisation *)

Lemma skipn_repeat_all {A : Type} (x : A) (n : nat) : skipn n (repeat x n) = [].
Proof. apply skipn_all2. rewrite repeat_length. lia. Qed.

Lemma update_tail_reinit (H : Headers) (elapsedTime numLESets : Z)
    (sizes : list Z) (m : WindMover) (w : World) :
  Z.of_nat (length sizes) = numLESets ->
  numLESets <> 0 ->
  Forall (fun x => 0 <= x) sizes ->
  alloc_tape w (alloc_pos w) = true ->
  alloc_tape w (S (alloc_pos w)) = true ->
  reinitialised elapsedTime sizes w
                (update_tail H true elapsedTime numLESets sizes m w)
  /\ fSigma2 (snd (fst (update_tail H true elapsedTime numLESets sizes m w)))
     = new_sigma2 elapsedTime m
  /\ fSigmaTheta (snd (fst (update_tail H true elapsedTime numLESets sizes m w)))
     = new_sigmaTheta elapsedTime m.
Proof.
  intros Hlen Hn Hpos Ha1 Ha2. unfold update_tail.
  rewrite (AllocateUncertainty_success H numLESets sizes _ w Hlen Hn Hpos Ha1 Ha2).
  cbn [Z.eqb noErr]. unfold UpdateUncertaintyValues.
  cbn [fWindUncertaintyList set_time set_list set_store].
  set (T := Z.to_nat (sum_list sizes)).
  set (m3 := set_time _ elapsedTime).
  rewrite repeat_length.
  pose proof (fill_loop_spec m3 T [] (repeat None T) (after_two_allocs w)) as Hfill.
  cbn [length app] in Hfill.
  rewrite Hfill by (rewrite repeat_length; lia). clear Hfill.
  rewrite skipn_repeat_all, app_nil_r.
  pose proof (draws_length T m3 (after_two_allocs w)) as Hdl.
  pose proof (draws_written T m3 (after_two_allocs w)) as Hdw.
  pose proof (draws_alloc T m3 (after_two_allocs w)) as [Hdp _].
  unfold reinitialised. cbn [fst snd].
  repeat split.
  - exists (fst (draws T m3 (after_two_allocs w))).
    split; [reflexivity |]. split; [| assumption].
    rewrite Hdl. unfold T. apply Z2Nat.id. apply sum_list_nonneg. assumption.
  - rewrite Hdp. reflexivity.
Qed.

Lemma fill_loop_alloc (m : WindMover) :
  forall (k i : nat) (l : list cell) (w : World),
    alloc_pos (snd (fill_loop k i m l w)) = alloc_pos w
    /\ alloc_tape (snd (fill_loop k i m l w)) = alloc_tape w.
Proof.
  induction k as [| k IH]; intros i l w; cbn [fill_loop].
  - split; reflexivity.
  - pose proof (sampleBounded_alloc m w) as [Hp Ht].
    destruct (sampleBounded m w) as [cs w1]. cbn [snd] in Hp, Ht.
    destruct (IH (S i) (upd i (Some (mkUnrec (fst cs) (snd cs))) l) w1)
      as [IHp IHt].
    split; congruence.
Qed.

Lemma UpdateUncertaintyValues_keeps (elapsedTime : Z) (m : WindMover) (w : World) :
  fLESetSizes (fst (UpdateUncertaintyValues elapsedTime m w)) = fLESetSizes m
  /\ alloc_pos (snd (UpdateUncertaintyValues elapsedTime m w)) = alloc_pos w
  /\ alloc_tape (snd (UpdateUncertaintyValues elapsedTime m w)) = alloc_tape w.
Proof.
  unfold UpdateUncertaintyValues.
  cbn [fWindUncertaintyList set_time set_store].
  destruct (fWindUncertaintyList m) as [l |]; [| repeat split].
  pose proof (fill_loop_alloc (set_time m elapsedTime) (length l) 0 l w)
    as [Hp Ht].
  destruct (fill_loop (length l) 0 (set_time m elapsedTime) l w) as [l' w'].
  repeat split; assumption.
Qed.

Lemma grow_keeps (d : Decision) (numLESets : Z) (m : WindMover) (w : World) :
  fLESetSizes (fst (fst (grow d numLESets m w))) = fLESetSizes m
  /\ alloc_pos (snd (fst (grow d numLESets m w))) = alloc_pos w
  /\ alloc_tape (snd (fst (grow d numLESets m w))) = alloc_tape w
  /\ fUncertainStartTime (fst (fst (grow d numLESets m w)))
     = fUncertainStartTime m.
Proof.
  unfold grow.
  destruct (orb (negb (numLESets =? 1)) (negb (d_numLESetsStored d =? 1)));
    [repeat split |].
  cbn [fWindUncertaintyList set_list set_store].
  destruct (option_map (SetHandleSize (d_numrec d)) (fWindUncertaintyList m))
    as [l |]; [| repeat split].
  match goal with
  | |- context [fill_loop ?k ?i ?mm l w] =>
      pose proof (fill_loop_alloc mm k i l w) as [Hp Ht];
      destruct (fill_loop k i mm l w) as [l' w']
  end.
  repeat split; assumption.
Qed.

Lemma decide_realloc_count (elapsedTime numLESets : Z) (sizes : list Z)
    (m : WindMover) :
  needToReAllocate (decide elapsedTime numLESets sizes m) = true ->
  d_numLESetsStored (decide elapsedTime numLESets sizes m) = numLESets.
Proof.
  unfold decide. destruct (fLESetSizes m) as [stored |]; [| discriminate].
  unfold check_sets.
  destruct (Z.eqb_spec numLESets (Z.of_nat (length stored))) as [Heq | Hne];
    cbn [negb]; [| discriminate].
  destruct (check_loop _ _ _ _ _) as [brk numrec].
  destruct (negb (numrec =? handle_len (fWindUncertaintyList m)));
    [destruct (handle_len (fWindUncertaintyList m) <? numrec) |];
    cbn [needToReAllocate d_numLESetsStored]; intros; try discriminate;
    symmetry; assumption.
Qed.

Lemma grow_completes (d : Decision) (m : WindMover) (w : World) :
  d_numLESetsStored d = 1 -> snd (grow d 1 m w) = true.
Proof.
  intros Hone. unfold grow. rewrite Hone. cbn [Z.eqb negb orb].
  cbn [fWindUncertaintyList set_list set_store].
  destruct (option_map (SetHandleSize (d_numrec d)) (fWindUncertaintyList m))
    as [l |]; [| reflexivity].
  destruct (fill_loop _ _ _ l w) as [l' w']. reflexivity.
Qed.

(** A decided reinit is carried out, unless the grow path returns early or
    an allocation is refused. *)
Lemma reinit_carried_out (H : Headers) (elapsedTime numLESets : Z)
    (sizes : list Z) (m : WindMover) (w : World) :
  fUncertainStartTime m <= elapsedTime ->
  Z.of_nat (length sizes) = numLESets ->
  needToReInit (decide elapsedTime numLESets sizes m) = true ->
  (needToReAllocate (decide elapsedTime numLESets sizes m) = false
   \/ numLESets = 1) ->
  numLESets <> 0 ->
  Forall (fun x => 0 <= x) sizes ->
  alloc_tape w (alloc_pos w) = true ->
  alloc_tape w (S (alloc_pos w)) = true ->
  reinitialised elapsedTime sizes w
                (UpdateUncertainty H elapsedTime numLESets sizes m w).
Proof.
  intros Hact Hlen Hre Hgo Hn Hpos Ha1 Ha2.
  assert (Hactb : negb (fUncertainStartTime m <=? elapsedTime) = false).
  { apply negb_false_iff. apply Z.leb_le. assumption. }
  unfold UpdateUncertainty. rewrite Hactb, Hre.
  destruct (needToReAllocate (decide elapsedTime numLESets sizes m)) eqn:Hra.
  - destruct Hgo as [Hx | Hone]; [discriminate |]. rewrite Hone in *.
    pose proof (decide_realloc_count _ _ _ _ Hra) as Hcnt.
    pose proof (grow_completes (decide elapsedTime 1 sizes m) m w Hcnt) as Hok.
    pose proof (grow_keeps (decide elapsedTime 1 sizes m) 1 m w)
      as (_ & Hp & Ht & _).
    destruct (grow (decide elapsedTime 1 sizes m) 1 m w) as [[m1 w1] ok].
    cbn [fst snd] in *. subst ok.
    destruct (update_tail_reinit H elapsedTime 1 sizes m1 w1 Hlen Hn Hpos)
      as [Hr _].
    + rewrite Ht, Hp. assumption.
    + rewrite Ht, Hp. assumption.
    + unfold reinitialised in *. rewrite <- Hp. exact Hr.
  - apply update_tail_reinit; assumption.
Qed.

(** C9, as stated, fails: five draws are stored for one set and the target
    is three elements; the store is present, the clock has not moved back,
    the set counts agree and the only offset is the prefix sum, and yet the
    store is reinitialised. *)
Lemma reinit_on_smaller_target :
  ~ store_absent (one_set_mover 5)
  /\ ~ 100 < fTimeUncertaintyWasSet (one_set_mover 5)
  /\ 1 = handle_len (fLESetSizes (one_set_mover 5))
  /\ ~ offsets_disagree 1 [3] (one_set_mover 5)
  /\ needToReInit (decide 100 1 [3] (one_set_mover 5)) = true
  /\ reinitialised 100 [3] (steady_world (1 / 4) (1 / 2))
       (UpdateUncertainty gnome_headers 100 1 [3] (one_set_mover 5)
                          (steady_world (1 / 4) (1 / 2))).
Proof.
  split.
  { intros [Ha | Ha]; discriminate. }
  split; [simpl; lia |]. split; [reflexivity |]. split.
  { intros (stored & j & Hs & Hj & Hd). injection Hs as <-.
    assert (j = 0%nat) by (simpl in Hj; lia). subst j. apply Hd. reflexivity. }
  split; [reflexivity |].
  apply reinit_carried_out.
  - simpl. lia.
  - reflexivity.
  - reflexivity.
  - left. reflexivity.
  - lia.
  - repeat constructor. lia.
  - reflexivity.
  - reflexivity.
Qed.

(** ** C4: a total that does not match *)

(** The sampler reads the bounds and spreads of the mover, not its store. *)
Lemma retry_loop_store (m : WindMover) l s t :
  forall (j : nat) (cs : R * R) (w : World),
    retry_loop j (set_store m l s t) cs w = retry_loop j m cs w.
Proof.
  induction j as [| j IH]; intros cs w; cbn [retry_loop]; [reflexivity |].
  cbn [fMaxSpeed fMaxAngle fSigma2 fSigmaTheta set_store].
  destruct (TermsLessThanMax _ _ _ _ _ _); [reflexivity |].
  destruct (rndv w) as [cs' w']. apply IH.
Qed.

Lemma draws_store (m : WindMover) l s t :
  forall (k : nat) (w : World), draws k (set_store m l s t) w = draws k m w.
Proof.
  induction k as [| k IH]; intros w; cbn [draws]; [reflexivity |].
  unfold sampleBounded. destruct (rndv w) as [cs w1].
  rewrite retry_loop_store.
  destruct (retry_loop 10 m cs w1) as [cs' w2]. rewrite IH. reflexivity.
Qed.

Lemma draws_set_list (m : WindMover) x (k : nat) (w : World) :
  draws k (set_list m x) w = draws k m w.
Proof. apply draws_store. Qed.

Lemma SetHandleSize_grow (n : Z) (l : list cell) :
  Z.of_nat (length l) <= n ->
  SetHandleSize n l = l ++ repeat None (Z.to_nat n - length l).
Proof.
  intros Hn. unfold SetHandleSize. rewrite firstn_all2 by lia. reflexivity.
Qed.

Section Mismatch.

Variables (H : Headers) (elapsedTime numLESets : Z) (sizes : list Z).
Variables (m : WindMover) (l : list cell) (stored : list Z).

Hypothesis Hlist : fWindUncertaintyList m = Some l.
Hypothesis Hstored : fLESetSizes m = Some stored.
Hypothesis Hclock : fTimeUncertaintyWasSet m <= elapsedTime.
Hypothesis Hcount : Z.of_nat (length stored) = numLESets.
Hypothesis Hsizes : Z.of_nat (length sizes) = numLESets.
Hypothesis Hoffsets :
  forall j, (j < length stored)%nat -> nth j stored 0 = prefix_sum sizes j.

(** The decision when none of the store, the clock, the set count and the
    offsets calls for a reinit. *)
Lemma decide_matching :
  decide elapsedTime numLESets sizes m
  = if negb (sum_list sizes =? Z.of_nat (length l))
    then if Z.of_nat (length l) <? sum_list sizes
         then mkDecision false true (sum_list sizes) (Z.of_nat (length l))
                         numLESets
         else mkDecision true false (sum_list sizes) (Z.of_nat (length l))
                         numLESets
    else mkDecision false false (sum_list sizes) (Z.of_nat (length l))
                    numLESets.
Proof.
  unfold decide. rewrite Hlist, Hstored. cbn [orb].
  replace (elapsedTime <? fTimeUncertaintyWasSet m) with false
    by (symmetry; apply Z.ltb_ge; assumption).
  unfold check_sets. rewrite Hcount, Z.eqb_refl. cbn [negb].
  destruct (check_loop_cases sizes stored (Z.to_nat numLESets) 0)
    as [[Hrun _] | [_ (j & Hj & Hdiff)]].
  - change (prefix_sum sizes 0) with 0 in Hrun. rewrite Hrun.
    rewrite (prefix_sum_all sizes (0 + Z.to_nat numLESets)) by lia.
    rewrite Hlist. cbn [handle_len orb]. reflexivity.
  - exfalso. apply Hdiff. apply Hoffsets. lia.
Qed.

End Mismatch.

Lemma grow_single (numLESets : Z) (sizes : list Z) (m : WindMover)
    (l : list cell) (w : World) :
  fWindUncertaintyList m = Some l ->
  numLESets = 1 ->
  Z.of_nat (length l) < sum_list sizes ->
  grow (mkDecision false true (sum_list sizes) (Z.of_nat (length l)) numLESets)
       numLESets m w
  = (set_list m
       (Some (l ++ fst (draws (Z.to_nat (sum_list sizes - Z.of_nat (length l)))
                              m w))),
     snd (draws (Z.to_nat (sum_list sizes - Z.of_nat (length l))) m w),
     true).
Proof.
  intros Hlist Hone Hlt. unfold grow. cbn [d_numrec d_numLESetsStored d_uncertListSize].
  rewrite Hone. cbn [Z.eqb negb orb]. rewrite Hlist. cbn [option_map].
  cbn [fWindUncertaintyList set_list set_store].
  rewrite SetHandleSize_grow by lia.
  rewrite Nat2Z.id.
  replace (Z.to_nat (sum_list sizes) - length l)%nat
    with (Z.to_nat (sum_list sizes - Z.of_nat (length l))) by lia.
  rewrite fill_loop_spec by (rewrite repeat_length; lia).
  rewrite skipn_repeat_all, app_nil_r.
  rewrite draws_set_list. reflexivity.
Qed.

(** The grow path with one set: the stored cells are kept, the new cells
    are sampled with the mover as it is at that point, and the step goes on
    with the common tail. *)
Lemma UpdateUncertainty_grow_single (H : Headers) (elapsedTime : Z)
    (sizes : list Z) (m : WindMover) (l : list cell) (stored : list Z)
    (w : World) :
  fUncertainStartTime m <= elapsedTime ->
  fWindUncertaintyList m = Some l ->
  fLESetSizes m = Some stored ->
  fTimeUncertaintyWasSet m <= elapsedTime ->
  Z.of_nat (length stored) = 1 ->
  Z.of_nat (length sizes) = 1 ->
  (forall j, (j < length stored)%nat -> nth j stored 0 = prefix_sum sizes j) ->
  Z.of_nat (length l) < sum_list sizes ->
  UpdateUncertainty H elapsedTime 1 sizes m w
  = update_tail H false elapsedTime 1 sizes
      (set_list m
         (Some (l ++ fst (draws (Z.to_nat (sum_list sizes - Z.of_nat (length l)))
                                m w))))
      (snd (draws (Z.to_nat (sum_list sizes - Z.of_nat (length l))) m w)).
Proof.
  intros Hact Hlist Hstored Hclock Hcount Hsizes Hoffsets Hlt.
  pose proof (decide_matching elapsedTime 1 sizes m l stored
                              Hlist Hstored Hclock Hcount Hsizes Hoffsets)
    as Hdec.
  replace (sum_list sizes =? Z.of_nat (length l)) with false in Hdec
    by (symmetry; apply Z.eqb_neq; lia).
  rewrite (proj2 (Z.ltb_lt _ _) Hlt) in Hdec. cbn [negb] in Hdec.
  unfold UpdateUncertainty.
  replace (negb (fUncertainStartTime m <=? elapsedTime)) with false
    by (symmetry; apply negb_false_iff; apply Z.leb_le; assumption).
  rewrite Hdec. cbn [needToReAllocate needToReInit].
  rewrite (grow_single 1 sizes m l w Hlist eq_refl Hlt). reflexivity.
Qed.

(** C4 (amended). On a step with uncertainty active, with the store
    present, the clock not moved back, the set count equal to the target and
    every stored offset equal to the prefix sum of the target sizes, when
    the stored total differs from the target total: the grow path is entered
    exactly when the stored total is the smaller one; with exactly one set
    it appends freshly sampled cells after the stored ones, which are kept,
    and the step goes on without a reinit; with another number of sets the
    call returns -1; and a stored total larger than the target leads to a
    full reinit, which succeeds when the allocations are granted. *)
Theorem UpdateUncertainty_total_mismatch :
  forall (H : Headers) (elapsedTime numLESets : Z) (sizes : list Z)
         (m : WindMover) (l : list cell) (stored : list Z) (w : World),
    fUncertainStartTime m <= elapsedTime ->
    fWindUncertaintyList m = Some l ->
    fLESetSizes m = Some stored ->
    fTimeUncertaintyWasSet m <= elapsedTime ->
    Z.of_nat (length stored) = numLESets ->
    Z.of_nat (length sizes) = numLESets ->
    (forall j, (j < length stored)%nat -> nth j stored 0 = prefix_sum sizes j) ->
    sum_list sizes <> Z.of_nat (length l) ->
    (needToReAllocate (decide elapsedTime numLESets sizes m) = true
     <-> Z.of_nat (length l) < sum_list sizes)
    /\ (Z.of_nat (length l) < sum_list sizes -> numLESets = 1 ->
        UpdateUncertainty H elapsedTime numLESets sizes m w
        = update_tail H false elapsedTime numLESets sizes
            (set_list m
               (Some (l ++ fst (draws (Z.to_nat (sum_list sizes
                                                 - Z.of_nat (length l)))
                                      m w))))
            (snd (draws (Z.to_nat (sum_list sizes - Z.of_nat (length l))) m w)))
    /\ (Z.of_nat (length l) < sum_list sizes -> numLESets <> 1 ->
        fst (fst (UpdateUncertainty H elapsedTime numLESets sizes m w)) = -1)
    /\ (sum_list sizes < Z.of_nat (length l) ->
        needToReInit (decide elapsedTime numLESets sizes m) = true
        /\ (numLESets <> 0 ->
            Forall (fun x => 0 <= x) sizes ->
            alloc_tape w (alloc_pos w) = true ->
            alloc_tape w (S (alloc_pos w)) = true ->
            reinitialised elapsedTime sizes w
              (UpdateUncertainty H elapsedTime numLESets sizes m w))).
Proof.
  intros H elapsedTime numLESets sizes m l stored w
         Hact Hlist Hstored Hclock Hcount Hsizes Hoffsets Hdiff.
  pose proof (decide_matching elapsedTime numLESets sizes m l stored
                              Hlist Hstored Hclock Hcount Hsizes Hoffsets)
    as Hdec.
  apply Z.eqb_neq in Hdiff. rewrite Hdiff in Hdec. cbn [negb] in Hdec.
  assert (Hactb : negb (fUncertainStartTime m <=? elapsedTime) = false).
  { apply negb_false_iff. apply Z.leb_le. assumption. }
  split; [| split; [| split]].
  - rewrite Hdec.
    destruct (Z.ltb_spec (Z.of_nat (length l)) (sum_list sizes)) as [Hlt | Hge];
      cbn [needToReAllocate]; split; intros; try reflexivity; try assumption;
      try discriminate; lia.
  - intros Hlt Hone. rewrite Hone in *.
    apply (UpdateUncertainty_grow_single H elapsedTime sizes m l stored w);
      assumption.
  - intros Hlt Hmany. unfold UpdateUncertainty. rewrite Hactb, Hdec.
    rewrite (proj2 (Z.ltb_lt _ _) Hlt). cbn [needToReAllocate].
    unfold grow. apply Z.eqb_neq in Hmany. rewrite Hmany.
    cbn [negb orb]. reflexivity.
  - intros Hgt.
    assert (Hre : needToReInit (decide elapsedTime numLESets sizes m) = true).
    { rewrite Hdec. rewrite (proj2 (Z.ltb_ge _ _)) by lia. reflexivity. }
    split; [exact Hre |].
    intros Hn Hpos Ha1 Ha2. apply reinit_carried_out; try assumption.
    left. rewrite Hdec. rewrite (proj2 (Z.ltb_ge _ _)) by lia. reflexivity.
Qed.

Lemma UpdateUncertainty_total_mismatch_witness :
  fst (fst (UpdateUncertainty gnome_headers 100 2 [3; 5] two_set_mover
                              (steady_world (1 / 4) (1 / 2)))) = -1.
Proof.
  apply (UpdateUncertainty_total_mismatch gnome_headers 100 2 [3; 5]
           two_set_mover (repeat a_draw 6) [0; 3]
           (steady_world (1 / 4) (1 / 2))).
  - simpl. lia.
  - reflexivity.
  - reflexivity.
  - simpl. lia.
  - reflexivity.
  - reflexivity.
  - intros j Hj. simpl in Hj.
    destruct j as [| [| j]]; [reflexivity | reflexivity | lia].
  - simpl. lia.
  - simpl. lia.
  - lia.
Defined.

(** C4, as stated, fails: a stored total (4) larger than the target (2),
    with nothing else calling for a reinit, does not end in an error; the
    store is reinitialised to the target size and success is returned. *)
Lemma larger_store_is_reinitialised :
  handle_len (fWindUncertaintyList (one_set_mover 4)) = 4
  /\ fst (fst (UpdateUncertainty gnome_headers 50 1 [2] (one_set_mover 4)
                                 (steady_world (1 / 4) (1 / 2)))) = noErr
  /\ fst (fst (UpdateUncertainty gnome_headers 50 1 [2] (one_set_mover 4)
                                 (steady_world (1 / 4) (1 / 2)))) <> -1
  /\ handle_len
       (fWindUncertaintyList
          (snd (fst (UpdateUncertainty gnome_headers 50 1 [2] (one_set_mover 4)
                                       (steady_world (1 / 4) (1 / 2)))))) = 2.
Proof.
  assert (Hr : reinitialised 50 [2] (steady_world (1 / 4) (1 / 2))
                 (UpdateUncertainty gnome_headers 50 1 [2] (one_set_mover 4)
                                    (steady_world (1 / 4) (1 / 2)))).
  { apply reinit_carried_out.
    - simpl. lia.
    - reflexivity.
    - reflexivity.
    - left. reflexivity.
    - lia.
    - repeat constructor. lia.
    - reflexivity.
    - reflexivity. }
  destruct Hr as (Herr & _ & (l' & Hl' & Hlen & _) & _).
  split; [reflexivity |]. split; [exact Herr |]. split.
  - rewrite Herr. discriminate.
  - rewrite Hl'. exact Hlen.
Qed.

(** ** C1: the store after a failed grow *)

(** C1 (the code departs from it). [AllocateUncertainty] disposes both
    arrays before it reports a failure (lemma [AllocateUncertainty_failure]),
    but the grow path of [UpdateUncertainty] enlarges the draw array before
    it tests the set count: with two sets whose target sizes grew from
    (3, 3) to (3, 5) the call returns -1 and leaves the store enlarged from
    6 to 8 cells, the two new cells never written. *)
Theorem grow_failure_leaves_resized_store :
  UpdateUncertainty gnome_headers 100 2 [3; 5] two_set_mover
                    (steady_world (1 / 4) (1 / 2))
  = (-1,
     set_list two_set_mover (Some (repeat a_draw 6 ++ [None; None])),
     steady_world (1 / 4) (1 / 2)).
Proof. reflexivity. Qed.

(** ** C2: the spreads used by the grow path *)

Lemma sampleBounded_first_accepted (m : WindMover) (w : World) :
  accepts m (draw_at w 0) = true ->
  sampleBounded m w = (draw_at w 0, skip_rand 2 w).
Proof.
  intros Hacc.
  destruct (sampleBounded_run m w) as (k & _ & Hrun & Hrej & _).
  destruct k as [| k]; [exact Hrun |].
  rewrite (Hrej 0%nat) in Hacc by lia. discriminate.
Qed.

Lemma stale_sigmaTheta : new_sigmaTheta 10000 stale_mover = (819 / 10)%R.
Proof.
  unfold new_sigmaTheta. cbn [fAngleScale fUncertainStartTime stale_mover].
  change (10000 - 0) with 10000.
  replace (IZR 10000) with (100 * 100)%R by lra.
  rewrite sqrt_square by lra.
  replace 100%R with (10 * 10)%R by lra.
  rewrite sqrt_square by lra. lra.
Qed.

(** C2 (the code departs from it). The grow path samples the appended cells
    before the spreads of the step are recomputed.  At elapsed time 10000
    the angular spread of [stale_mover] becomes 81.9, but the cell appended
    in that step was accepted at the first draw under the previous spread 0,
    although its angle term exceeds the bound of 60 under the recomputed
    spread. *)
Theorem grow_path_uses_stale_sigma :
  exists d : LEWindUncertainRec,
    UpdateUncertainty gnome_headers 10000 1 [2] stale_mover
                      (steady_world (1 / 4) (1 / 2))
    = (noErr,
       set_sigmas (set_list stale_mover (Some [a_draw; Some d]))
                  (new_sigma2 10000 stale_mover) (819 / 10)%R,
       skip_rand 2 (steady_world (1 / 4) (1 / 2)))
    /\ (d = mkUnrec (fst (draw_at (steady_world (1 / 4) (1 / 2)) 0))
                    (snd (draw_at (steady_world (1 / 4) (1 / 2)) 0)))
    /\ (Rabs (fSigmaTheta stale_mover * randSin d) <= fMaxAngle stale_mover)%R
    /\ (fMaxAngle stale_mover < Rabs (819 / 10 * randSin d))%R.
Proof.
  set (w := steady_world (1 / 4) (1 / 2)).
  exists (mkUnrec (fst (draw_at w 0)) (snd (draw_at w 0))).
  assert (Hacc : accepts stale_mover (draw_at w 0) = true).
  { apply accepts_bound. cbn [fSigmaTheta fMaxAngle stale_mover].
    rewrite Rmult_0_l, Rabs_R0. lra. }
  split; [| split; [reflexivity | split]].
  - rewrite (UpdateUncertainty_grow_single gnome_headers 10000 [2] stale_mover
               [a_draw] [0] w).
    + change (Z.to_nat (sum_list [2] - Z.of_nat (length [a_draw]))) with 1%nat.
      cbn [draws]. rewrite (sampleBounded_first_accepted stale_mover w Hacc).
      cbn [fst snd app]. unfold update_tail. cbn [negb].
      replace (fle _ _) with false.
      * unfold set_sigmas. cbn -[new_sigma2 new_sigmaTheta draw_at].
        rewrite <- stale_sigmaTheta. reflexivity.
      * symmetry. apply fle_false. cbn. lra.
    + simpl. lia.
    + reflexivity.
    + reflexivity.
    + simpl. lia.
    + reflexivity.
    + reflexivity.
    + intros j Hj. simpl in Hj. replace j with 0%nat by lia. reflexivity.
    + simpl. lia.
  - cbn [randSin]. apply accepts_bound. exact Hacc.
  - cbn [randSin fMaxAngle stale_mover]. unfold w. rewrite steady_draw.
    pose proof steady_sin_term as Hs.
    rewrite Rabs_pos_eq; nra.
Qed.

(** ** C3: the perturbed wind *)

Local Open Scope R_scope.

Lemma max_as_branch (s : R) :
  (if flt 0 s then sqrt s else 0) = sqrt (Rmax s 0)
  /\ (if flt 0 s then sqrt (sqrt s) else 0) = sqrt (sqrt (Rmax s 0)).
Proof.
  destruct (flt 0 s) eqn:Hs.
  - apply flt_true in Hs. rewrite Rmax_left by lra. split; reflexivity.
  - apply flt_false in Hs. rewrite Rmax_right by lra.
    rewrite !sqrt_0. split; reflexivity.
Qed.

Lemma floor_as_max (c : R) :
  (if flt c (1 / 1000) then 1 / 1000 else c) = Rmax c (1 / 1000).
Proof.
  destruct (flt c (1 / 1000)) eqn:Hc.
  - apply flt_true in Hc. rewrite Rmax_right by lra. reflexivity.
  - apply flt_false in Hc. rewrite Rmax_left by lra. reflexivity.
Qed.

(** The main branch of [AddUncertainty]: the wind is scaled by [w' / normV]
    and rotated by [dtheta]. *)
Lemma AddUncertainty_main_branch (setIndex leIndex : Z) (patVel : VelocityRec)
    (m : WindMover) (w : World) (l : list cell) (sz : list Z) :
  fWindUncertaintyList m = Some l ->
  fLESetSizes m = Some sz ->
  1 <= norm2 patVel ->
  AddUncertainty setIndex leIndex patVel m w
  = (0%Z,
     scale_rotate
       (draw_w (norm2 patVel) (fSigma2 m) (fSigmaTheta m)
               (read_draw setIndex leIndex l sz) / norm2 patVel)
       (draw_dtheta (fSigmaTheta m) (read_draw setIndex leIndex l sz))
       patVel,
     w).
Proof.
  intros Hl Hs Hn. unfold AddUncertainty. rewrite Hl, Hs.
  fold (norm2 patVel).
  replace (flt (norm2 patVel) 1) with false
    by (symmetry; apply flt_false; assumption).
  destruct (max_as_branch (norm2 patVel * norm2 patVel - fSigma2 m))
    as [Hsqs Hm].
  rewrite Hsqs, Hm, floor_as_max.
  reflexivity.
Qed.

Lemma scale_rotate_norm (k th : R) (a : VelocityRec) :
  0 <= k -> norm2 (scale_rotate k th a) = k * norm2 a.
Proof.
  intros Hk. unfold norm2, scale_rotate. cbn [u v].
  assert (Hsq : 0 <= v a * v a + u a * u a) by nra.
  apply sqrt_lem_1.
  - nra.
  - apply Rmult_le_pos; [assumption | apply sqrt_pos].
  - replace (k * sqrt (v a * v a + u a * u a)
             * (k * sqrt (v a * v a + u a * u a)))
      with (k * k * (sqrt (v a * v a + u a * u a)
                     * sqrt (v a * v a + u a * u a))) by ring.
    rewrite sqrt_sqrt by assumption.
    pose proof (sin2_cos2 th) as Hsc. unfold Rsqr in Hsc.
    replace ((v a * k * cos th + u a * k * sin th)
             * (v a * k * cos th + u a * k * sin th)
             + (u a * k * cos th - v a * k * sin th)
               * (u a * k * cos th - v a * k * sin th))
      with (k * k * (v a * v a + u a * u a)
            * (sin th * sin th + cos th * cos th)) by ring.
    rewrite Hsc. ring.
Qed.

Lemma draw_w_nonneg (nrm sigma2 sigmaTheta : R) (d : LEWindUncertainRec) :
  0 <= draw_w nrm sigma2 sigmaTheta d.
Proof.
  unfold draw_w.
  assert (Hpos : 0 < Rmax (cos (draw_dtheta sigmaTheta d)) (1 / 1000)).
  { pose proof (Rmax_r (cos (draw_dtheta sigmaTheta d)) (1 / 1000)). lra. }
  apply Rmult_le_pos; [nra |].
  left. apply Rinv_0_lt_compat. assumption.
Qed.

Local Close Scope R_scope.

Local Open Scope R_scope.

(** C3 (amended). For an element whose store is allocated, whose draw [d]
    is stored at index [offsets[setIndex] + leIndex] and whose wind has a
    magnitude [w = normV] of at least 1: with [s = max (w * w - sigma2) 0],
    [sqs = sqrt s], [m = sqrt sqs], [s' = sqrt (w - sqs)],
    [x = randCos * s' + m], [dtheta = randSin * sigmaTheta * PI / 180] and
    [w' = x * x / max (cos dtheta) 0.001], the wind vector is scaled by the
    factor [w' / normV], so that its magnitude becomes [w'] with the
    direction kept, and then rotated by [dtheta]. *)
Theorem AddUncertainty_perturbation :
  forall (setIndex leIndex : Z) (patVel : VelocityRec) (m : WindMover)
         (w : World) (l : list cell) (sz : list Z) (d : LEWindUncertainRec),
    fWindUncertaintyList m = Some l ->
    fLESetSizes m = Some sz ->
    nth (Z.to_nat (nth (Z.to_nat setIndex) sz 0%Z + leIndex)) l None = Some d ->
    1 <= norm2 patVel ->
    AddUncertainty setIndex leIndex patVel m w
    = (0%Z,
       scale_rotate
         (draw_w (norm2 patVel) (fSigma2 m) (fSigmaTheta m) d / norm2 patVel)
         (draw_dtheta (fSigmaTheta m) d) patVel,
       w)
    /\ norm2 (scale_rotate
                (draw_w (norm2 patVel) (fSigma2 m) (fSigmaTheta m) d
                 / norm2 patVel)
                (draw_dtheta (fSigmaTheta m) d) patVel)
       = draw_w (norm2 patVel) (fSigma2 m) (fSigmaTheta m) d.
Proof.
  intros si li a m w l sz d Hl Hs Hd Hn. split.
  - rewrite (AddUncertainty_main_branch si li a m w l sz Hl Hs Hn).
    unfold read_draw. rewrite Hd. reflexivity.
  - pose proof (draw_w_nonneg (norm2 a) (fSigma2 m) (fSigmaTheta m) d) as Hw.
    rewrite scale_rotate_norm.
    + field. lra.
    + apply Rmult_le_pos; [assumption |].
      left. apply Rinv_0_lt_compat. lra.
Qed.

Lemma sqrt_81 : sqrt 81 = 9.
Proof. replace 81 with (9 * 9) by lra. apply sqrt_square. lra. Qed.

Lemma sqrt_9 : sqrt 9 = 3.
Proof. replace 9 with (3 * 3) by lra. apply sqrt_square. lra. Qed.

Lemma norm2_9_0 : norm2 (mkVel 9 0) = 9.
Proof.
  unfold norm2. cbn [u v].
  replace (0 * 0 + 9 * 9) with 81 by lra. apply sqrt_81.
Qed.

Lemma AddUncertainty_perturbation_witness :
  AddUncertainty 0 0 (mkVel 9 0) still_mover (steady_world (1 / 4) (1 / 2))
  = (0%Z,
     scale_rotate
       (draw_w (norm2 (mkVel 9 0)) 0 0 the_draw / norm2 (mkVel 9 0))
       (draw_dtheta 0 the_draw) (mkVel 9 0),
     steady_world (1 / 4) (1 / 2)).
Proof.
  apply (AddUncertainty_perturbation 0 0 (mkVel 9 0) still_mover
           (steady_world (1 / 4) (1 / 2)) [Some the_draw] [0%Z] the_draw).
  - reflexivity.
  - reflexivity.
  - reflexivity.
  - rewrite norm2_9_0. lra.
Defined.

Lemma still_dtheta : draw_dtheta 0 the_draw = 0.
Proof. unfold draw_dtheta, the_draw. cbn [randSin]. lra. Qed.

Lemma still_draw_w : draw_w 9 0 0 the_draw = 9.
Proof.
  unfold draw_w. rewrite still_dtheta.
  unfold draw_x, the_draw. cbn [randCos].
  replace (9 * 9 - 0) with 81 by lra.
  rewrite Rmax_left by lra.
  rewrite sqrt_81, sqrt_9.
  replace (9 - 9) with 0 by lra. rewrite sqrt_0.
  rewrite cos_0, Rmax_left by lra.
  lra.
Qed.

(** C3, as stated, fails: with zero spreads the code leaves a wind of
    (9, 0) as it is, of magnitude [w' = 9], whereas a scale factor of
    [sqrt w' / normV] gives (3, 0); the magnitude of the result is neither
    [sqrt w'] nor [sqrt w' / normV]. *)
Lemma AddUncertainty_not_as_specified :
  snd (fst (AddUncertainty 0 0 (mkVel 9 0) still_mover
                           (steady_world (1 / 4) (1 / 2)))) = mkVel 9 0
  /\ perturbed_as_specified 0 0 the_draw (mkVel 9 0) = mkVel 3 0
  /\ snd (fst (AddUncertainty 0 0 (mkVel 9 0) still_mover
                              (steady_world (1 / 4) (1 / 2))))
     <> perturbed_as_specified (fSigma2 still_mover) (fSigmaTheta still_mover)
                               the_draw (mkVel 9 0)
  /\ norm2 (mkVel 9 0) <> sqrt (draw_w (norm2 (mkVel 9 0)) 0 0 the_draw)
  /\ norm2 (mkVel 9 0)
     <> sqrt (draw_w (norm2 (mkVel 9 0)) 0 0 the_draw) / norm2 (mkVel 9 0).
Proof.
  assert (Hcode :
    snd (fst (AddUncertainty 0 0 (mkVel 9 0) still_mover
                             (steady_world (1 / 4) (1 / 2)))) = mkVel 9 0).
  { rewrite (AddUncertainty_main_branch 0 0 (mkVel 9 0) still_mover _
               [Some the_draw] [0%Z] eq_refl eq_refl)
      by (rewrite norm2_9_0; lra).
    cbn [fst snd]. change (read_draw 0 0 [Some the_draw] [0%Z]) with the_draw.
    cbn [fSigma2 fSigmaTheta still_mover].
    rewrite norm2_9_0, still_draw_w, still_dtheta.
    unfold scale_rotate. cbn [u v].
    rewrite cos_0, sin_0. f_equal; field. }
  assert (Hspec : perturbed_as_specified 0 0 the_draw (mkVel 9 0) = mkVel 3 0).
  { unfold perturbed_as_specified.
    rewrite norm2_9_0, still_draw_w, sqrt_9, still_dtheta.
    unfold scale_rotate. cbn [u v].
    rewrite cos_0, sin_0. f_equal; field. }
  split; [exact Hcode |]. split; [exact Hspec |]. split.
  - rewrite Hcode. cbn [fSigma2 fSigmaTheta still_mover]. rewrite Hspec.
    intros Heq. injection Heq as Hu. lra.
  - rewrite norm2_9_0, still_draw_w, sqrt_9. split; lra.
Qed.

Local Close Scope R_scope.

(** ** C5: the scaling around [GetMove] *)

Local Open Scope R_scope.

Lemma GetMove_breeze (lat : R) :
  GetMove gnome_headers 0 900 0 0 (mkLE (mkWP (-122) lat) 0 (3 / 100)) 1
          breeze_mover (steady_world (1 / 4) (1 / 2))
  = (mkWP3 (mkWP (5 * (3 / 100) / 111120 * 900
                  / cos (lat / 1000000 * (PI / 180)) * 1000000)
                 (0 * (3 / 100) / 111120 * 900 * 1000000)) 0,
     steady_world (1 / 4) (1 / 2)).
Proof.
  unfold GetMove. cbn [le_z].
  replace (flt 0 0) with false by (symmetry; apply flt_false; lra).
  reflexivity.
Qed.

(** C5, as stated, fails: for an in-water element at latitude 0 and
    longitude -122 under a wind of 5 m/s, the latitude handed to [GetMove]
    is the given one times 1,000,000, not divided by it, and the stored
    displacement is the one returned by [GetMove] divided by 1,000,000
    (9/7408 of a degree), not multiplied by it. *)
Lemma get_move_scales_the_other_way :
  pLat (le_p (make_rec (mkWP3 (mkWP (-122) 45) 0) (3 / 100))) = encode_fixed 45
  /\ pLat (le_p (make_rec (mkWP3 (mkWP (-122) 45) 0) (3 / 100)))
     <> expand_fixed 45
  /\ get_move gnome_headers 1 0 900 (Some [mkWP3 (mkWP (-122) 0) 0])
              (Some [zero_delta]) (Some [3 / 100]) [2%Z] 1 0 breeze_mover
              (steady_world (1 / 4) (1 / 2))
     = (noErr, Some [mkWP3 (mkWP (9 / 7408) 0) 0],
        steady_world (1 / 4) (1 / 2))
  /\ pLong (p (fst (GetMove gnome_headers 0 900 0 0
                            (mkLE (mkWP (-122) (expand_fixed 0)) 0 (3 / 100)) 1
                            breeze_mover (steady_world (1 / 4) (1 / 2)))))
     = 1000000 * (9 / 7408)
  /\ 9 / 7408 <> encode_fixed (1000000 * (9 / 7408)).
Proof.
  assert (Hcos : forall x, x = 0 -> cos (x / 1000000 * (PI / 180)) = 1).
  { intros x ->. replace (0 / 1000000 * (PI / 180)) with 0 by lra.
    apply cos_0. }
  split; [reflexivity |]. split.
  { unfold make_rec, expand_fixed. cbn [pLat le_p p]. lra. }
  split.
  { unfold get_move. cbn [FORECAST_LE UNCERTAINTY_LE gnome_headers].
    change (orb (1 <? 1)%Z (2 <? 1)%Z) with false. cbn iota.
    change (Z.to_nat 1) with 1%nat. cbn [move_loop].
    unfold move_one. cbn [nth OILSTAT_INWATER gnome_headers].
    change (negb (2 =? 2)%Z) with false. cbn iota.
    unfold make_rec. cbn [p pLong pLat z].
    change (Z.of_nat 0) with 0%Z.
    rewrite GetMove_breeze. unfold scale_delta. cbn [p pLong pLat z upd].
    rewrite Hcos by lra.
    replace (5 * (3 / 100) / 111120 * 900 / 1 * 1000000 / 1000000)
      with (9 / 7408) by lra.
    replace (0 * (3 / 100) / 111120 * 900 * 1000000 / 1000000) with 0 by lra.
    reflexivity. }
  split.
  { rewrite GetMove_breeze. cbn [fst p pLong].
    rewrite Hcos by (unfold expand_fixed; lra). lra. }
  unfold encode_fixed. lra.
Qed.

Local Close Scope R_scope.


(** ** Concrete runs of the store operations *)

(** Allocating for two sets of 3 and 5 elements: offsets 0 and 3, and 8
    cells waiting for their draws. *)
Example AllocateUncertainty_two_sets :
  AllocateUncertainty gnome_headers 2 [3; 5] Init (steady_world 0 0)
  = (noErr,
     set_list (set_sizes (DisposeUncertainty Init) (Some [0; 3]))
              (Some (repeat None 8)),
     after_two_allocs (steady_world 0 0)).
Proof. reflexivity. Qed.

(** A refused second allocation leaves nothing behind. *)
Example AllocateUncertainty_refused :
  AllocateUncertainty gnome_headers 2 [3; 5] (one_set_mover 4)
    (mkWorld (fun _ => 0%R) 0 (fun n => Nat.eqb n 0) 0)
  = (-108, DisposeUncertainty (one_set_mover 4),
     mkWorld (fun _ => 0%R) 0 (fun n => Nat.eqb n 0) 2).
Proof. reflexivity. Qed.

(** Removing the second and fourth of four elements keeps the first and the
    third draw, in that order. *)
Example ReallocateUncertainty_four_to_two :
  ReallocateUncertainty gnome_headers 4 (Some [2; 12; 2; 12])
    (set_list (one_set_mover 0)
       (Some [Some (mkUnrec 1 0); Some (mkUnrec 2 0);
              Some (mkUnrec 3 0); Some (mkUnrec 4 0)]))
  = (noErr,
     set_list (one_set_mover 0)
       (Some [Some (mkUnrec 1 0); Some (mkUnrec 3 0)])).
Proof. reflexivity. Qed.

(** Removing every element disposes the store. *)
Example ReallocateUncertainty_all_removed :
  ReallocateUncertainty gnome_headers 2 (Some [12; 12]) (one_set_mover 2)
  = (noErr, DisposeUncertainty (one_set_mover 2)).
Proof. reflexivity. Qed.

(** * Further properties of the code *)

(** ** Moves without a store *)

(** Without a store [AddUncertainty] hands the wind back. *)
Lemma AddUncertainty_store_absent (setIndex leIndex : Z) (patVel : VelocityRec)
    (m : WindMover) (w : World) :
  store_absent m ->
  AddUncertainty setIndex leIndex patVel m w = (0, patVel, w).
Proof.
  intros [Ha | Ha]; unfold AddUncertainty; rewrite Ha; [reflexivity |].
  destruct (fWindUncertaintyList m); reflexivity.
Qed.

Lemma GetMove_store_absent (H : Headers) (model_time timeStep setIndex leIndex : Z)
    (theLE : LERec) (leType leType' : Z) (m : WindMover) (w : World) :
  store_absent m ->
  GetMove H model_time timeStep setIndex leIndex theLE leType m w
  = GetMove H model_time timeStep setIndex leIndex theLE leType' m w
  /\ snd (GetMove H model_time timeStep setIndex leIndex theLE leType m w) = w.
Proof.
  intros Habs. unfold GetMove.
  destruct (flt 0 (le_z theLE)); [split; reflexivity |].
  rewrite (AddUncertainty_store_absent _ _ _ _ _ Habs).
  destruct (leType =? UNCERTAINTY_LE H), (leType' =? UNCERTAINTY_LE H);
    split; reflexivity.
Qed.

(** X1. While the store is absent (as after any disposal) the element type
    plays no part in [GetMove]: an uncertainty
    element moves exactly as a forecast element, and the random source is
    left alone. *)
Theorem GetMove_ignores_type_without_store :
  forall (H : Headers) (model_time timeStep setIndex leIndex : Z)
         (theLE : LERec) (leType leType' : Z) (m : WindMover) (w : World),
    store_absent m ->
    GetMove H model_time timeStep setIndex leIndex theLE leType m w
    = GetMove H model_time timeStep setIndex leIndex theLE leType' m w
    /\ snd (GetMove H model_time timeStep setIndex leIndex theLE leType m w) = w.
Proof.
  intros H mt ts si li theLE ty ty' m w Habs.
  apply GetMove_store_absent. assumption.
Qed.

Lemma GetMove_ignores_type_without_store_witness :
  GetMove gnome_headers 0 900 0 0 (mkLE (mkWP (-122) 0) 0 (3 / 100)) 2
          breeze_mover (steady_world (1 / 4) (1 / 2))
  = GetMove gnome_headers 0 900 0 0 (mkLE (mkWP (-122) 0) 0 (3 / 100)) 1
            breeze_mover (steady_world (1 / 4) (1 / 2)).
Proof.
  apply (GetMove_ignores_type_without_store gnome_headers 0 900 0 0
           (mkLE (mkWP (-122) 0) 0 (3 / 100)) 2 1 breeze_mover
           (steady_world (1 / 4) (1 / 2))).
  left. reflexivity.
Defined.

(** X2. Before the uncertainty start time [UpdateUncertainty] succeeds
    without consulting the random source or the allocator, leaves no draw
    array behind, changes nothing at all when there was none, and the
    moves that follow do not depend on the element type. *)
Theorem UpdateUncertainty_before_start :
  forall (H : Headers) (elapsedTime numLESets : Z) (sizes : list Z)
         (m : WindMover) (w : World),
    elapsedTime < fUncertainStartTime m ->
    exists m' : WindMover,
      UpdateUncertainty H elapsedTime numLESets sizes m w = (0, m', w)
      /\ fWindUncertaintyList m' = None
      /\ (fWindUncertaintyList m = None -> m' = m)
      /\ current_time_value m' = current_time_value m
      /\ forall mt ts si li theLE ty ty' w0,
           GetMove H mt ts si li theLE ty m' w0
           = GetMove H mt ts si li theLE ty' m' w0.
Proof.
  intros H e n sizes m w Hlt. unfold UpdateUncertainty.
  replace (negb (fUncertainStartTime m <=? e)) with true
    by (symmetry; apply negb_true_iff; apply Z.leb_gt; assumption).
  destruct (fWindUncertaintyList m) as [l |] eqn:Hl.
  - exists (DisposeUncertainty m).
    split; [reflexivity |]. split; [reflexivity |].
    split; [discriminate |]. split; [reflexivity |].
    intros. apply GetMove_store_absent. left. reflexivity.
  - exists m. split; [reflexivity |]. split; [assumption |].
    split; [reflexivity |]. split; [reflexivity |].
    intros. apply GetMove_store_absent. left. assumption.
Qed.

Lemma UpdateUncertainty_before_start_witness :
  exists m' : WindMover,
    UpdateUncertainty gnome_headers 10 1 [3]
      (mkMover 3600 (3 * 3600)%R (Some [a_draw]) (Some [0]) 2%R (4 / 10)%R
               30%R 60%R 0%R 0%R 0%R 0 false 0 (mkVel 5 0))
      (steady_world (1 / 4) (1 / 2))
    = (0, m', steady_world (1 / 4) (1 / 2))
    /\ fWindUncertaintyList m' = None.
Proof.
  destruct (UpdateUncertainty_before_start gnome_headers 10 1 [3]
              (mkMover 3600 (3 * 3600)%R (Some [a_draw]) (Some [0]) 2%R
                       (4 / 10)%R 30%R 60%R 0%R 0%R 0%R 0 false 0 (mkVel 5 0))
              (steady_world (1 / 4) (1 / 2)))
    as (m' & Hrun & Hnil & _).
  - simpl. lia.
  - exists m'. split; assumption.
Defined.

(** ** Allocation outcomes *)

Lemma nth_nonneg (sizes : list Z) (j : nat) :
  Forall (fun x => 0 <= x) sizes -> 0 <= nth j sizes 0.
Proof.
  intros Hpos. revert j. induction Hpos as [| x t Hx Ht IH]; intros [| j];
    simpl; try lia. apply IH.
Qed.

(** X3. Whatever the allocator answers, [AllocateUncertainty] for a target
    of non-negative sizes ends in one of two states.  Either it succeeds:
    the set count is not zero, the offset table holds the prefix sums of
    the sizes (starting at 0 and never decreasing), and the draw array has
    as many cells as the sizes add up to, none written yet.  Or it reports
    -1 or the memory error and both handles are nil.  In both cases the
    refresh time is reset to 0. *)
Theorem AllocateUncertainty_outcome :
  forall (H : Headers) (numLESets : Z) (sizes : list Z)
         (m : WindMover) (w : World),
    Z.of_nat (length sizes) = numLESets ->
    Forall (fun x => 0 <= x) sizes ->
    fTimeUncertaintyWasSet
      (snd (fst (AllocateUncertainty H numLESets sizes m w))) = 0
    /\ ((fst (fst (AllocateUncertainty H numLESets sizes m w)) = noErr
         /\ numLESets <> 0
         /\ fLESetSizes (snd (fst (AllocateUncertainty H numLESets sizes m w)))
            = Some (map (prefix_sum sizes) (seq 0 (length sizes)))
         /\ fWindUncertaintyList
              (snd (fst (AllocateUncertainty H numLESets sizes m w)))
            = Some (repeat None (Z.to_nat (sum_list sizes)))
         /\ prefix_sum sizes 0 = 0
         /\ (forall j, prefix_sum sizes j <= prefix_sum sizes (S j)))
        \/ ((fst (fst (AllocateUncertainty H numLESets sizes m w)) = -1
             \/ fst (fst (AllocateUncertainty H numLESets sizes m w))
                = memFullErr H)
            /\ fLESetSizes
                 (snd (fst (AllocateUncertainty H numLESets sizes m w))) = None
            /\ fWindUncertaintyList
                 (snd (fst (AllocateUncertainty H numLESets sizes m w)))
               = None)).
Proof.
  intros H n sizes m w Hlen Hpos.
  destruct (Z.eq_dec n 0) as [Hz | Hnz].
  { unfold AllocateUncertainty. rewrite (proj2 (Z.eqb_eq _ _) Hz).
    split; [reflexivity |]. right. split; [left; reflexivity |].
    split; reflexivity. }
  destruct (alloc_tape w (alloc_pos w)) eqn:Ha1.
  - destruct (alloc_tape w (S (alloc_pos w))) eqn:Ha2.
    + rewrite (AllocateUncertainty_success H n sizes m w Hlen Hnz Hpos Ha1 Ha2).
      split; [reflexivity |]. left. cbn [fst snd].
      split; [reflexivity |]. split; [assumption |].
      split; [reflexivity |]. split; [reflexivity |].
      split; [reflexivity |].
      intros j. rewrite prefix_sum_S.
      pose proof (nth_nonneg sizes j Hpos). lia.
    + unfold AllocateUncertainty, NewHandle.
      rewrite (proj2 (Z.eqb_neq _ _) Hnz), Ha1.
      replace (0 <=? n) with true by (symmetry; apply Z.leb_le; lia).
      cbn [andb negb alloc_tape alloc_pos].
      destruct (offsets_loop _ _ _ _ _) as [offs numrec].
      rewrite Ha2, andb_false_r. cbn [negb fst snd].
      split; [reflexivity |]. right. split; [right; reflexivity |].
      split; reflexivity.
  - unfold AllocateUncertainty, NewHandle.
    rewrite (proj2 (Z.eqb_neq _ _) Hnz), Ha1, andb_false_r. cbn [negb fst snd].
    split; [reflexivity |]. right. split; [right; reflexivity |].
    split; reflexivity.
Qed.

Lemma AllocateUncertainty_outcome_witness :
  fTimeUncertaintyWasSet
    (snd (fst (AllocateUncertainty gnome_headers 2 [3; 5] (one_set_mover 4)
                                   (steady_world 0 0)))) = 0.
Proof.
  apply (AllocateUncertainty_outcome gnome_headers 2 [3; 5] (one_set_mover 4)
                                     (steady_world 0 0)).
  - reflexivity.
  - repeat constructor; lia.
Defined.

(** ** Shrinking, continued *)

Section ShrinkMore.

Variable H : Headers.

Lemma ReallocateUncertainty_compacted (numLEs : Z) (codes : list Z)
    (m : WindMover) (l : list cell) (s : list Z) :
  numLEs <> 0 ->
  fWindUncertaintyList m = Some l ->
  fLESetSizes m = Some s ->
  Z.of_nat (length l) = numLEs ->
  length s = 1%nat ->
  length codes = length l ->
  ReallocateUncertainty H numLEs (Some codes) m
  = (noErr,
     match survivors H codes l with
     | [] => DisposeUncertainty m
     | _ :: _ => set_list m (Some (survivors H codes l))
     end).
Proof.
  intros Hn Hl Hs Hlen Hone Hcodes. unfold ReallocateUncertainty.
  apply Z.eqb_neq in Hn. rewrite Hn, Hl, Hs.
  rewrite (proj2 (Z.eqb_eq _ _) Hlen).
  replace (Z.of_nat (length s) =? 1) with true
    by (symmetry; apply Z.eqb_eq; lia).
  cbn [negb]. rewrite <- Hlen, Nat2Z.id.
  destruct (compact_loop_all H codes l Hcodes) as (Hl' & Hle & Hkeep).
  destruct (compact_loop H (length l) 0 0 codes l) as [l' numrec].
  cbn [fst snd] in *.
  assert (Hnum : numrec = length (survivors H codes l)).
  { rewrite <- Hkeep, length_firstn. lia. }
  destruct (Nat.eqb_spec numrec 0) as [Hz | Hnz].
  - rewrite Hz in *. destruct (survivors H codes l); [reflexivity |].
    simpl in Hnum. lia.
  - destruct (survivors H codes l) as [| c rest] eqn:Hsv;
      [simpl in Hnum; lia |].
    destruct (Z.ltb_spec (Z.of_nat numrec) (Z.of_nat (length l))) as [Hlt | Hge].
    + rewrite SetHandleSize_shrink by lia. rewrite Hkeep. reflexivity.
    + assert (Hall : numrec = length l') by lia.
      rewrite Hall, firstn_all in Hkeep. rewrite Hkeep. reflexivity.
Qed.

Lemma survivors_cons (c : Z) (x : cell) (codes : list Z) (l : list cell) :
  survivors H (c :: codes) (x :: l)
  = if kept_code H c then x :: survivors H codes l else survivors H codes l.
Proof.
  unfold survivors, kept_code. cbn [combine filter fst].
  destruct (negb (c =? OILSTAT_TO_BE_REMOVED H)); reflexivity.
Qed.

Lemma survivors_all_kept :
  forall (codes : list Z) (l : list cell),
    length codes = length l ->
    forallb (kept_code H) codes = true ->
    survivors H codes l = l.
Proof.
  induction codes as [| c codes IH]; intros [| x l] Hlen Hall;
    try discriminate; [reflexivity |].
  rewrite survivors_cons. cbn [forallb] in Hall.
  apply andb_true_iff in Hall. destruct Hall as [Hc Hrest].
  rewrite Hc, IH; auto.
Qed.

Lemma survivors_length :
  forall (codes : list Z) (l : list cell),
    length codes = length l ->
    length (survivors H codes l) = length (filter (kept_code H) codes).
Proof.
  induction codes as [| c codes IH]; intros [| x l] Hlen;
    try discriminate; [reflexivity |].
  rewrite survivors_cons. cbn [filter].
  destruct (kept_code H c); cbn [length]; rewrite IH; auto.
Qed.

Lemma survivors_written :
  forall (codes : list Z) (l : list cell),
    Forall (fun c : cell => c <> None) l ->
    Forall (fun c : cell => c <> None) (survivors H codes l).
Proof.
  induction codes as [| c codes IH]; intros [| x l] Hw;
    try (constructor; fail).
  rewrite survivors_cons. inversion Hw; subst.
  destruct (kept_code H c); [constructor |]; auto.
Qed.

End ShrinkMore.

(** X4. Shrinking a one-set store in which no element is flagged for
    removal changes nothing: the mover, draws included, is exactly as
    before. *)
Theorem ReallocateUncertainty_nothing_removed :
  forall (H : Headers) (numLEs : Z) (codes : list Z) (m : WindMover)
         (l : list cell) (s : list Z),
    numLEs <> 0 ->
    fWindUncertaintyList m = Some l ->
    fLESetSizes m = Some s ->
    Z.of_nat (length l) = numLEs ->
    length s = 1%nat ->
    length codes = length l ->
    forallb (kept_code H) codes = true ->
    ReallocateUncertainty H numLEs (Some codes) m = (noErr, m).
Proof.
  intros H n codes m l s Hn Hl Hs Hlen Hone Hcodes Hall.
  rewrite (ReallocateUncertainty_compacted H n codes m l s Hn Hl Hs Hlen Hone
                                           Hcodes).
  rewrite (survivors_all_kept H codes l Hcodes Hall).
  destruct l as [| x l]; [simpl in Hlen; lia |].
  destruct m. cbn in Hl, Hs. subst. reflexivity.
Qed.

Lemma ReallocateUncertainty_nothing_removed_witness :
  ReallocateUncertainty gnome_headers 3 (Some [2; 2; 3]) (one_set_mover 3)
  = (noErr, one_set_mover 3).
Proof.
  apply (ReallocateUncertainty_nothing_removed gnome_headers 3 [2; 2; 3]
           (one_set_mover 3) (repeat a_draw 3) [0]).
  - lia.
  - reflexivity.
  - reflexivity.
  - reflexivity.
  - reflexivity.
  - reflexivity.
  - reflexivity.
Defined.

(** X5. A successful shrink of a one-set store leaves as many draws as
    there are elements not flagged for removal, never more than before;
    draws that had been written stay written; and as long as one element
    survives, the offset table and the refresh time are kept. *)
Theorem ReallocateUncertainty_count :
  forall (H : Headers) (numLEs : Z) (codes : list Z) (m : WindMover)
         (l : list cell) (s : list Z),
    numLEs <> 0 ->
    fWindUncertaintyList m = Some l ->
    fLESetSizes m = Some s ->
    Z.of_nat (length l) = numLEs ->
    length s = 1%nat ->
    length codes = length l ->
    handle_len
      (fWindUncertaintyList
         (snd (ReallocateUncertainty H numLEs (Some codes) m)))
    = Z.of_nat (length (filter (kept_code H) codes))
    /\ handle_len
         (fWindUncertaintyList
            (snd (ReallocateUncertainty H numLEs (Some codes) m))) <= numLEs
    /\ (Forall (fun c : cell => c <> None) l ->
        forall l',
          fWindUncertaintyList
            (snd (ReallocateUncertainty H numLEs (Some codes) m)) = Some l' ->
          Forall (fun c : cell => c <> None) l')
    /\ (filter (kept_code H) codes <> [] ->
        fLESetSizes (snd (ReallocateUncertainty H numLEs (Some codes) m))
        = fLESetSizes m
        /\ fTimeUncertaintyWasSet
             (snd (ReallocateUncertainty H numLEs (Some codes) m))
           = fTimeUncertaintyWasSet m).
Proof.
  intros H n codes m l s Hn Hl Hs Hlen Hone Hcodes.
  rewrite (ReallocateUncertainty_compacted H n codes m l s Hn Hl Hs Hlen Hone
                                           Hcodes).
  pose proof (survivors_length H codes l Hcodes) as Hcount.
  pose proof (survivors_written H codes l) as Hwr.
  pose proof (filter_length_le (kept_code H) codes) as Hle.
  cbn [snd].
  destruct (survivors H codes l) as [| c rest] eqn:Hsv.
  - cbn [fWindUncertaintyList DisposeUncertainty set_store handle_len].
    simpl in Hcount.
    split; [lia |]. split; [lia |]. split; [intros _ l' Hx; discriminate |].
    intros Hne. destruct (filter (kept_code H) codes); [congruence |].
    simpl in Hcount. lia.
  - cbn [fWindUncertaintyList fLESetSizes fTimeUncertaintyWasSet set_list
         set_store handle_len].
    split; [rewrite Hcount; reflexivity |].
    split; [lia |].
    split; [| intros _; split; reflexivity].
    intros Hw l' Hx. injection Hx as <-. apply Hwr. assumption.
Qed.

Lemma ReallocateUncertainty_count_witness :
  handle_len
    (fWindUncertaintyList
       (snd (ReallocateUncertainty gnome_headers 5 (Some [2; 12; 2; 12; 2])
                                   (one_set_mover 5))))
  = Z.of_nat (length (filter (kept_code gnome_headers) [2; 12; 2; 12; 2])).
Proof.
  apply (ReallocateUncertainty_count gnome_headers 5 [2; 12; 2; 12; 2]
           (one_set_mover 5) (repeat a_draw 5) [0]).
  - lia.
  - reflexivity.
  - reflexivity.
  - reflexivity.
  - reflexivity.
  - reflexivity.
Defined.

(** ** Steps that keep the store *)

Lemma UpdateUncertainty_matching (H : Headers) (elapsedTime numLESets : Z)
    (sizes : list Z) (m : WindMover) (l : list cell) (stored : list Z)
    (w : World) :
  fUncertainStartTime m <= elapsedTime ->
  fWindUncertaintyList m = Some l ->
  fLESetSizes m = Some stored ->
  fTimeUncertaintyWasSet m <= elapsedTime ->
  Z.of_nat (length stored) = numLESets ->
  Z.of_nat (length sizes) = numLESets ->
  (forall j, (j < length stored)%nat -> nth j stored 0 = prefix_sum sizes j) ->
  sum_list sizes = Z.of_nat (length l) ->
  UpdateUncertainty H elapsedTime numLESets sizes m w
  = update_tail H false elapsedTime numLESets sizes m w.
Proof.
  intros Hact Hlist Hstored Hclock Hcount Hsizes Hoffsets Hsame.
  pose proof (decide_matching elapsedTime numLESets sizes m l stored
                              Hlist Hstored Hclock Hcount Hsizes Hoffsets)
    as Hdec.
  rewrite (proj2 (Z.eqb_eq _ _) Hsame) in Hdec. cbn [negb] in Hdec.
  unfold UpdateUncertainty.
  replace (negb (fUncertainStartTime m <=? elapsedTime)) with false
    by (symmetry; apply negb_false_iff; apply Z.leb_le; assumption).
  rewrite Hdec. reflexivity.
Qed.

Lemma UpdateUncertaintyValues_refresh (elapsedTime : Z) (m : WindMover)
    (l : list cell) (w : World) :
  fWindUncertaintyList m = Some l ->
  UpdateUncertaintyValues elapsedTime m w
  = (set_list (set_time m elapsedTime) (Some (fst (draws (length l) m w))),
     snd (draws (length l) m w)).
Proof.
  intros Hl. unfold UpdateUncertaintyValues.
  cbn [fWindUncertaintyList set_time set_store]. rewrite Hl.
  pose proof (fill_loop_spec (set_time m elapsedTime) (length l) [] l w
                             (Nat.le_refl _)) as Hfill.
  cbn [length app] in Hfill. rewrite Hfill.
  rewrite skipn_all, app_nil_r.
  unfold set_time. rewrite !draws_store. reflexivity.
Qed.

(** X6. A step with uncertainty active whose target sizes match the store
    (same set count, offsets equal to the prefix sums, same total), with
    the clock not moved back and the refresh not yet due, leaves every draw
    and the refresh time as they are: only the two spreads are recomputed,
    and neither the random source nor the allocator is consulted. *)
Theorem UpdateUncertainty_steady :
  forall (H : Headers) (elapsedTime numLESets : Z) (sizes : list Z)
         (m : WindMover) (l : list cell) (stored : list Z) (w : World),
    fUncertainStartTime m <= elapsedTime ->
    fWindUncertaintyList m = Some l ->
    fLESetSizes m = Some stored ->
    fTimeUncertaintyWasSet m <= elapsedTime ->
    Z.of_nat (length stored) = numLESets ->
    Z.of_nat (length sizes) = numLESets ->
    (forall j, (j < length stored)%nat -> nth j stored 0 = prefix_sum sizes j) ->
    sum_list sizes = Z.of_nat (length l) ->
    (IZR elapsedTime < IZR (fTimeUncertaintyWasSet m) + fDuration m)%R ->
    UpdateUncertainty H elapsedTime numLESets sizes m w
    = (noErr,
       set_sigmas m (new_sigma2 elapsedTime m) (new_sigmaTheta elapsedTime m),
       w).
Proof.
  intros H e n sizes m l stored w Hact Hlist Hstored Hclock Hcount Hsizes
         Hoffsets Hsame Hdue.
  rewrite (UpdateUncertainty_matching H e n sizes m l stored w); try assumption.
  unfold update_tail.
  cbn [fTimeUncertaintyWasSet fDuration set_sigmas].
  replace (fle _ _) with false by (symmetry; apply fle_false; assumption).
  reflexivity.
Qed.

Lemma UpdateUncertainty_steady_witness :
  UpdateUncertainty gnome_headers 100 1 [3] (one_set_mover 3)
                    (steady_world (1 / 4) (1 / 2))
  = (noErr,
     set_sigmas (one_set_mover 3) (new_sigma2 100 (one_set_mover 3))
                (new_sigmaTheta 100 (one_set_mover 3)),
     steady_world (1 / 4) (1 / 2)).
Proof.
  apply (UpdateUncertainty_steady gnome_headers 100 1 [3] (one_set_mover 3)
           (repeat a_draw 3) [0]).
  - simpl. lia.
  - reflexivity.
  - reflexivity.
  - simpl. lia.
  - reflexivity.
  - reflexivity.
  - intros j Hj. simpl in Hj. replace j with 0%nat by lia. reflexivity.
  - reflexivity.
  - simpl. lra.
Defined.

(** X7. In the same matching situation, once the refresh is due
    ([elapsed >= last refresh + duration]) every cell of the draw array is
    overwritten in place by the successive bounded draws taken under the
    spreads recomputed for this step; the array keeps its length, the
    offset table is kept, and the refresh time becomes the elapsed time. *)
Theorem UpdateUncertainty_refresh :
  forall (H : Headers) (elapsedTime numLESets : Z) (sizes : list Z)
         (m : WindMover) (l : list cell) (stored : list Z) (w : World),
    fUncertainStartTime m <= elapsedTime ->
    fWindUncertaintyList m = Some l ->
    fLESetSizes m = Some stored ->
    fTimeUncertaintyWasSet m <= elapsedTime ->
    Z.of_nat (length stored) = numLESets ->
    Z.of_nat (length sizes) = numLESets ->
    (forall j, (j < length stored)%nat -> nth j stored 0 = prefix_sum sizes j) ->
    sum_list sizes = Z.of_nat (length l) ->
    (IZR (fTimeUncertaintyWasSet m) + fDuration m <= IZR elapsedTime)%R ->
    UpdateUncertainty H elapsedTime numLESets sizes m w
    = (noErr,
       set_store
         (set_sigmas m (new_sigma2 elapsedTime m) (new_sigmaTheta elapsedTime m))
         (Some (fst (draws (length l)
                           (set_sigmas m (new_sigma2 elapsedTime m)
                                       (new_sigmaTheta elapsedTime m)) w)))
         (Some stored) elapsedTime,
       snd (draws (length l)
                  (set_sigmas m (new_sigma2 elapsedTime m)
                              (new_sigmaTheta elapsedTime m)) w))
    /\ length (fst (draws (length l)
                          (set_sigmas m (new_sigma2 elapsedTime m)
                                      (new_sigmaTheta elapsedTime m)) w))
       = length l
    /\ Forall (fun c : cell => c <> None)
              (fst (draws (length l)
                          (set_sigmas m (new_sigma2 elapsedTime m)
                                      (new_sigmaTheta elapsedTime m)) w)).
Proof.
  intros H e n sizes m l stored w Hact Hlist Hstored Hclock Hcount Hsizes
         Hoffsets Hsame Hdue.
  split; [| split; [apply draws_length | apply draws_written]].
  rewrite (UpdateUncertainty_matching H e n sizes m l stored w); try assumption.
  unfold update_tail.
  cbn [fTimeUncertaintyWasSet fDuration set_sigmas].
  replace (fle _ _) with true by (symmetry; apply fle_true; assumption).
  rewrite (UpdateUncertaintyValues_refresh e _ l w) by (cbn; assumption).
  clear - Hstored. destruct m. cbn in Hstored. subst. reflexivity.
Qed.

Lemma UpdateUncertainty_refresh_witness :
  length (fst (draws (length (repeat a_draw 3))
                     (set_sigmas (one_set_mover 3)
                                 (new_sigma2 20000 (one_set_mover 3))
                                 (new_sigmaTheta 20000 (one_set_mover 3)))
                     (steady_world (1 / 4) (1 / 2))))
  = length (repeat a_draw 3).
Proof.
  apply (UpdateUncertainty_refresh gnome_headers 20000 1 [3] (one_set_mover 3)
           (repeat a_draw 3) [0] (steady_world (1 / 4) (1 / 2))).
  - simpl. lia.
  - reflexivity.
  - reflexivity.
  - simpl. lia.
  - reflexivity.
  - reflexivity.
  - intros j Hj. simpl in Hj. replace j with 0%nat by lia. reflexivity.
  - reflexivity.
  - simpl. lra.
Defined.

(** X8. When one set grows and the refresh is not yet due, the stored draws
    stay where they are and the new cells are appended after them, one
    bounded draw each, so that the array reaches the target total; the
    refresh time is kept and the spreads are recomputed. *)
Theorem UpdateUncertainty_grow_keeps_draws :
  forall (H : Headers) (elapsedTime : Z) (sizes : list Z) (m : WindMover)
         (l : list cell) (stored : list Z) (w : World),
    fUncertainStartTime m <= elapsedTime ->
    fWindUncertaintyList m = Some l ->
    fLESetSizes m = Some stored ->
    fTimeUncertaintyWasSet m <= elapsedTime ->
    Z.of_nat (length stored) = 1 ->
    Z.of_nat (length sizes) = 1 ->
    (forall j, (j < length stored)%nat -> nth j stored 0 = prefix_sum sizes j) ->
    Z.of_nat (length l) < sum_list sizes ->
    (IZR elapsedTime < IZR (fTimeUncertaintyWasSet m) + fDuration m)%R ->
    UpdateUncertainty H elapsedTime 1 sizes m w
    = (noErr,
       set_sigmas
         (set_list m
            (Some (l ++ fst (draws (Z.to_nat (sum_list sizes
                                              - Z.of_nat (length l))) m w))))
         (new_sigma2 elapsedTime m) (new_sigmaTheta elapsedTime m),
       snd (draws (Z.to_nat (sum_list sizes - Z.of_nat (length l))) m w))
    /\ Z.of_nat
         (length (l ++ fst (draws (Z.to_nat (sum_list sizes
                                             - Z.of_nat (length l))) m w)))
       = sum_list sizes
    /\ firstn (length l)
              (l ++ fst (draws (Z.to_nat (sum_list sizes
                                          - Z.of_nat (length l))) m w))
       = l.
Proof.
  intros H e sizes m l stored w Hact Hlist Hstored Hclock Hcount Hsizes
         Hoffsets Hlt Hdue.
  split; [| split].
  - rewrite (UpdateUncertainty_grow_single H e sizes m l stored w);
      try assumption.
    unfold update_tail.
    cbn [fTimeUncertaintyWasSet fDuration set_sigmas set_list set_store].
    replace (fle _ _) with false by (symmetry; apply fle_false; assumption).
    reflexivity.
  - rewrite length_app, draws_length. lia.
  - rewrite firstn_app, Nat.sub_diag, firstn_all. cbn [firstn].
    apply app_nil_r.
Qed.

Lemma UpdateUncertainty_grow_keeps_draws_witness :
  firstn (length (repeat a_draw 3))
         (repeat a_draw 3
          ++ fst (draws (Z.to_nat (sum_list [5]
                                   - Z.of_nat (length (repeat a_draw 3))))
                        (one_set_mover 3) (steady_world (1 / 4) (1 / 2))))
  = repeat a_draw 3.
Proof.
  apply (UpdateUncertainty_grow_keeps_draws gnome_headers 100 [5]
           (one_set_mover 3) (repeat a_draw 3) [0]
           (steady_world (1 / 4) (1 / 2))).
  - simpl. lia.
  - reflexivity.
  - reflexivity.
  - simpl. lia.
  - reflexivity.
  - reflexivity.
  - intros j Hj. simpl in Hj. replace j with 0%nat by lia. reflexivity.
  - simpl. lia.
  - simpl. lra.
Defined.

(** ** What the scheduler leaves alone *)

Lemma same_settings_refl (m : WindMover) : same_settings m m.
Proof. unfold same_settings. repeat split. Qed.

Lemma same_settings_trans (a b c : WindMover) :
  same_settings a b -> same_settings b c -> same_settings a c.
Proof.
  unfold same_settings.
  intros (H1 & H2 & H3 & H4 & H5 & H6 & H7 & H8 & H9 & H10)
         (K1 & K2 & K3 & K4 & K5 & K6 & K7 & K8 & K9 & K10).
  repeat split; congruence.
Qed.

Lemma same_settings_store (m : WindMover) l s t :
  same_settings m (set_store m l s t).
Proof. unfold same_settings. repeat split. Qed.

Lemma same_settings_sigmas (m : WindMover) (a b : R) :
  same_settings m (set_sigmas m a b).
Proof. unfold same_settings. repeat split. Qed.

Lemma UpdateUncertaintyValues_settings (elapsedTime : Z) (m : WindMover)
    (w : World) :
  same_settings m (fst (UpdateUncertaintyValues elapsedTime m w))
  /\ fSigma2 (fst (UpdateUncertaintyValues elapsedTime m w)) = fSigma2 m
  /\ fSigmaTheta (fst (UpdateUncertaintyValues elapsedTime m w)) = fSigmaTheta m.
Proof.
  unfold UpdateUncertaintyValues.
  cbn [fWindUncertaintyList set_time set_store].
  destruct (fWindUncertaintyList m) as [l |].
  - destruct (fill_loop (length l) 0 (set_time m elapsedTime) l w) as [l' w'].
    unfold same_settings. repeat split.
  - unfold same_settings. repeat split.
Qed.

Lemma AllocateUncertainty_settings (H : Headers) (numLESets : Z)
    (sizes : list Z) (m : WindMover) (w : World) :
  same_settings m (snd (fst (AllocateUncertainty H numLESets sizes m w)))
  /\ fSigma2 (snd (fst (AllocateUncertainty H numLESets sizes m w))) = fSigma2 m
  /\ fSigmaTheta (snd (fst (AllocateUncertainty H numLESets sizes m w)))
     = fSigmaTheta m
  /\ rand_pos (snd (AllocateUncertainty H numLESets sizes m w)) = rand_pos w
  /\ rand_tape (snd (AllocateUncertainty H numLESets sizes m w)) = rand_tape w.
Proof.
  unfold AllocateUncertainty.
  destruct (numLESets =? 0); [unfold same_settings; repeat split |].
  destruct (NewHandle numLESets w) as [ok1 w1] eqn:H1.
  assert (Hw1 : rand_pos w1 = rand_pos w /\ rand_tape w1 = rand_tape w).
  { unfold NewHandle in H1. injection H1 as _ <-. split; reflexivity. }
  destruct Hw1 as [Hp1 Ht1].
  destruct ok1; cbn [negb fst snd];
    [| unfold same_settings; repeat split; try reflexivity; assumption].
  destruct (offsets_loop _ _ _ _ _) as [offs numrec].
  destruct (NewHandle numrec w1) as [ok2 w2] eqn:H2.
  assert (Hw2 : rand_pos w2 = rand_pos w1 /\ rand_tape w2 = rand_tape w1).
  { unfold NewHandle in H2. injection H2 as _ <-. split; reflexivity. }
  destruct Hw2 as [Hp2 Ht2].
  destruct ok2; cbn [negb fst snd]; unfold same_settings; repeat split;
    try reflexivity; congruence.
Qed.

Lemma new_sigma_settings (elapsedTime : Z) (m m' : WindMover) :
  same_settings m m' ->
  new_sigma2 elapsedTime m' = new_sigma2 elapsedTime m
  /\ new_sigmaTheta elapsedTime m' = new_sigmaTheta elapsedTime m.
Proof.
  intros (H1 & _ & H3 & H4 & _). unfold new_sigma2, new_sigmaTheta.
  rewrite H1, H3, H4. split; reflexivity.
Qed.

Lemma update_tail_frame (H : Headers) (reinit : bool) (elapsedTime numLESets : Z)
    (sizes : list Z) (m : WindMover) (w : World) :
  same_settings m
    (snd (fst (update_tail H reinit elapsedTime numLESets sizes m w)))
  /\ fSigma2 (snd (fst (update_tail H reinit elapsedTime numLESets sizes m w)))
     = new_sigma2 elapsedTime m
  /\ fSigmaTheta
       (snd (fst (update_tail H reinit elapsedTime numLESets sizes m w)))
     = new_sigmaTheta elapsedTime m.
Proof.
  unfold update_tail.
  set (m1 := set_sigmas m (new_sigma2 elapsedTime m) (new_sigmaTheta elapsedTime m)).
  assert (Hm1 : same_settings m m1) by apply same_settings_sigmas.
  assert (Hm2 : fSigma2 m1 = new_sigma2 elapsedTime m) by reflexivity.
  assert (Hmt : fSigmaTheta m1 = new_sigmaTheta elapsedTime m) by reflexivity.
  clearbody m1.
  destruct reinit.
  - pose proof (AllocateUncertainty_settings H numLESets sizes m1 w)
      as (Hs & H2 & Ht & _).
    destruct (AllocateUncertainty H numLESets sizes m1 w) as [[err m2] w2].
    cbn [fst snd] in Hs, H2, Ht.
    destruct (err =? 0).
    + pose proof (UpdateUncertaintyValues_settings elapsedTime m2 w2)
        as (Hs3 & H23 & Ht3).
      destruct (UpdateUncertaintyValues elapsedTime m2 w2) as [m3 w3].
      cbn [fst snd] in *.
      split; [eapply same_settings_trans; [exact Hm1 |];
              eapply same_settings_trans; eassumption |].
      split; congruence.
    + cbn [fst snd].
      split; [eapply same_settings_trans; eassumption |].
      split; congruence.
  - destruct (fle _ _).
    + pose proof (UpdateUncertaintyValues_settings elapsedTime m1 w)
        as (Hs3 & H23 & Ht3).
      destruct (UpdateUncertaintyValues elapsedTime m1 w) as [m3 w3].
      cbn [fst snd] in *.
      split; [eapply same_settings_trans; eassumption |].
      split; congruence.
    + cbn [fst snd]. split; [assumption |]. split; assumption.
Qed.

Lemma grow_frame (d : Decision) (numLESets : Z) (m : WindMover) (w : World) :
  same_settings m (fst (fst (grow d numLESets m w)))
  /\ fSigma2 (fst (fst (grow d numLESets m w))) = fSigma2 m
  /\ fSigmaTheta (fst (fst (grow d numLESets m w))) = fSigmaTheta m
  /\ fTimeUncertaintyWasSet (fst (fst (grow d numLESets m w)))
     = fTimeUncertaintyWasSet m.
Proof.
  unfold grow.
  destruct (orb (negb (numLESets =? 1)) (negb (d_numLESetsStored d =? 1)));
    [unfold same_settings; repeat split |].
  cbn [fWindUncertaintyList set_list set_store].
  destruct (option_map (SetHandleSize (d_numrec d)) (fWindUncertaintyList m))
    as [l |]; [| unfold same_settings; repeat split].
  destruct (fill_loop _ _ _ l w) as [l' w'].
  unfold same_settings. repeat split.
Qed.

Lemma UpdateUncertainty_frame (H : Headers) (elapsedTime numLESets : Z)
    (sizes : list Z) (m : WindMover) (w : World) :
  same_settings m
    (snd (fst (UpdateUncertainty H elapsedTime numLESets sizes m w))).
Proof.
  unfold UpdateUncertainty.
  destruct (negb (fUncertainStartTime m <=? elapsedTime)).
  - cbn [fst snd]. destruct (fWindUncertaintyList m);
      [apply same_settings_store | apply same_settings_refl].
  - destruct (needToReAllocate (decide elapsedTime numLESets sizes m)).
    + pose proof (grow_frame (decide elapsedTime numLESets sizes m)
                             numLESets m w) as (Hs & _).
      destruct (grow (decide elapsedTime numLESets sizes m) numLESets m w)
        as [[m1 w1] ok].
      cbn [fst snd] in Hs. destruct ok; [| exact Hs].
      eapply same_settings_trans; [exact Hs |]. apply update_tail_frame.
    + apply update_tail_frame.
Qed.

(** X9. Neither [UpdateUncertainty] nor [ReallocateUncertainty] ever
    touches the settings of the mover: the start time, the refresh
    duration, the two scales, the two acceptance bounds, the near-calm
    diffusion, the first-step flag, the model start time and the cached
    wind are the same after every call, whatever its outcome. *)
Theorem scheduler_keeps_settings :
  forall (H : Headers) (elapsedTime numLESets : Z) (sizes : list Z)
         (numLEs : Z) (statusCodes : option (list Z))
         (m : WindMover) (w : World),
    same_settings m
      (snd (fst (UpdateUncertainty H elapsedTime numLESets sizes m w)))
    /\ same_settings m (snd (ReallocateUncertainty H numLEs statusCodes m)).
Proof.
  intros H e n sizes numLEs codes m w.
  split; [apply UpdateUncertainty_frame |].
  unfold ReallocateUncertainty.
  destruct codes as [codes |]; [| apply same_settings_refl].
  destruct (numLEs =? 0); [apply same_settings_refl |].
  destruct (fWindUncertaintyList m) as [l |]; [| apply same_settings_refl].
  destruct (fLESetSizes m) as [s |]; [| apply same_settings_refl].
  destruct (negb (Z.of_nat (length l) =? numLEs)); [apply same_settings_refl |].
  destruct (negb (Z.of_nat (length s) =? 1)); [apply same_settings_refl |].
  destruct (compact_loop H (Z.to_nat numLEs) 0 0 codes l) as [l' numrec].
  destruct (Nat.eqb numrec 0); [apply same_settings_store |].
  destruct (Z.of_nat numrec <? Z.of_nat (length l)); apply same_settings_store.
Qed.

Lemma UpdateUncertainty_new_sigmas (H : Headers) (elapsedTime numLESets : Z)
    (sizes : list Z) (m : WindMover) (w : World) :
  fUncertainStartTime m <= elapsedTime ->
  (needToReAllocate (decide elapsedTime numLESets sizes m) = false
   \/ numLESets = 1) ->
  fSigma2 (snd (fst (UpdateUncertainty H elapsedTime numLESets sizes m w)))
  = new_sigma2 elapsedTime m
  /\ fSigmaTheta
       (snd (fst (UpdateUncertainty H elapsedTime numLESets sizes m w)))
     = new_sigmaTheta elapsedTime m.
Proof.
  intros Hact Hgo. unfold UpdateUncertainty.
  replace (negb (fUncertainStartTime m <=? elapsedTime)) with false
    by (symmetry; apply negb_false_iff; apply Z.leb_le; assumption).
  destruct (needToReAllocate (decide elapsedTime numLESets sizes m)) eqn:Hra.
  - destruct Hgo as [Hx | Hone]; [discriminate |]. rewrite Hone in *.
    pose proof (decide_realloc_count _ _ _ _ Hra) as Hcnt.
    pose proof (grow_completes (decide elapsedTime 1 sizes m) m w Hcnt) as Hok.
    pose proof (grow_frame (decide elapsedTime 1 sizes m) 1 m w) as (Hs & _).
    destruct (grow (decide elapsedTime 1 sizes m) 1 m w) as [[m1 w1] ok].
    cbn [fst snd] in *. subst ok.
    destruct (new_sigma_settings elapsedTime m m1 Hs) as [<- <-].
    apply update_tail_frame.
  - apply update_tail_frame.
Qed.

(** X10. On every step with uncertainty active in which the grow path does
    not return early, the mover ends with the spreads of this step,
    [sigma2 = (speedScale * 0.315 * (elapsed - start)^0.147)^2 / 2] and
    [sigmaTheta = angleScale * 2.73 * sqrt (sqrt (elapsed - start))], also
    when an allocation is refused; and [sigma2] is never negative. *)
Theorem UpdateUncertainty_spreads :
  forall (H : Headers) (elapsedTime numLESets : Z) (sizes : list Z)
         (m : WindMover) (w : World),
    fUncertainStartTime m <= elapsedTime ->
    (needToReAllocate (decide elapsedTime numLESets sizes m) = false
     \/ numLESets = 1) ->
    fSigma2 (snd (fst (UpdateUncertainty H elapsedTime numLESets sizes m w)))
    = new_sigma2 elapsedTime m
    /\ fSigmaTheta
         (snd (fst (UpdateUncertainty H elapsedTime numLESets sizes m w)))
       = new_sigmaTheta elapsedTime m
    /\ (0 <= fSigma2
              (snd (fst (UpdateUncertainty H elapsedTime numLESets sizes m w))))%R.
Proof.
  intros H e n sizes m w Hact Hgo.
  pose proof (UpdateUncertainty_new_sigmas H e n sizes m w Hact Hgo) as Hboth.
  destruct Hboth as [H2 Ht]. split; [exact H2 |]. split; [exact Ht |].
  rewrite H2. unfold new_sigma2.
  match goal with |- (0 <= ?s * ?s / 2)%R => pose proof (Rle_0_sqr s) as Hsq end.
  unfold Rsqr in Hsq. lra.
Qed.

Lemma UpdateUncertainty_spreads_witness :
  fSigma2 (snd (fst (UpdateUncertainty gnome_headers 100 1 [3] Init
                                       (steady_world (1 / 4) (1 / 2)))))
  = new_sigma2 100 Init.
Proof.
  apply (UpdateUncertainty_spreads gnome_headers 100 1 [3] Init
                                   (steady_world (1 / 4) (1 / 2))).
  - simpl. lia.
  - left. reflexivity.
Defined.

(** ** Steps in sequence *)

Lemma nth_prefix_table (sizes : list Z) (j : nat) :
  (j < length sizes)%nat ->
  nth j (map (prefix_sum sizes) (seq 0 (length sizes))) 0 = prefix_sum sizes j.
Proof.
  intros Hj. change 0 with (prefix_sum sizes 0).
  rewrite map_nth, seq_nth by assumption. reflexivity.
Qed.

(** X11. The step that follows a full reinit, with the same target sizes,
    the clock not moved back and the refresh not yet due, leaves the fresh
    draws alone: it succeeds, consults neither the random source nor the
    allocator, and only recomputes the spreads. *)
Theorem reinit_then_steady :
  forall (H : Headers) (elapsedTime laterTime numLESets : Z) (sizes : list Z)
         (m : WindMover) (w : World),
    fUncertainStartTime m <= elapsedTime ->
    Z.of_nat (length sizes) = numLESets ->
    needToReInit (decide elapsedTime numLESets sizes m) = true ->
    (needToReAllocate (decide elapsedTime numLESets sizes m) = false
     \/ numLESets = 1) ->
    numLESets <> 0 ->
    Forall (fun x => 0 <= x) sizes ->
    alloc_tape w (alloc_pos w) = true ->
    alloc_tape w (S (alloc_pos w)) = true ->
    elapsedTime <= laterTime ->
    (IZR laterTime < IZR elapsedTime + fDuration m)%R ->
    UpdateUncertainty H laterTime numLESets sizes
      (snd (fst (UpdateUncertainty H elapsedTime numLESets sizes m w)))
      (snd (UpdateUncertainty H elapsedTime numLESets sizes m w))
    = (noErr,
       set_sigmas
         (snd (fst (UpdateUncertainty H elapsedTime numLESets sizes m w)))
         (new_sigma2 laterTime m) (new_sigmaTheta laterTime m),
       snd (UpdateUncertainty H elapsedTime numLESets sizes m w)).
Proof.
  intros H e e' n sizes m w Hact Hlen Hre Hgo Hn Hpos Ha1 Ha2 Hle Hdue.
  pose proof (reinit_carried_out H e n sizes m w Hact Hlen Hre Hgo Hn Hpos
                                 Ha1 Ha2)
    as (_ & Hoffs & (l' & Hl' & Hlen' & _) & Htime & _).
  pose proof (UpdateUncertainty_frame H e n sizes m w) as Hset.
  destruct (UpdateUncertainty H e n sizes m w) as [[err m1] w1].
  cbn [fst snd] in *.
  destruct (new_sigma_settings e' m m1 Hset) as [Hs2 Hst].
  destruct Hset as (Hstart & Hdur & _).
  rewrite (UpdateUncertainty_matching H e' n sizes m1 l'
             (map (prefix_sum sizes) (seq 0 (length sizes))) w1).
  - unfold update_tail. rewrite Hs2, Hst.
    cbn [fTimeUncertaintyWasSet fDuration set_sigmas].
    replace (fle _ _) with false; [reflexivity |].
    symmetry. apply fle_false. rewrite Htime, Hdur. assumption.
  - lia.
  - assumption.
  - assumption.
  - lia.
  - rewrite length_map, length_seq. assumption.
  - assumption.
  - intros j Hj. rewrite length_map, length_seq in Hj.
    apply nth_prefix_table. assumption.
  - lia.
Qed.

Lemma reinit_then_steady_witness :
  UpdateUncertainty gnome_headers 60 1 [3]
    (snd (fst (UpdateUncertainty gnome_headers 0 1 [3] Init
                                 (steady_world (1 / 4) (1 / 2)))))
    (snd (UpdateUncertainty gnome_headers 0 1 [3] Init
                            (steady_world (1 / 4) (1 / 2))))
  = (noErr,
     set_sigmas
       (snd (fst (UpdateUncertainty gnome_headers 0 1 [3] Init
                                    (steady_world (1 / 4) (1 / 2)))))
       (new_sigma2 60 Init) (new_sigmaTheta 60 Init),
     snd (UpdateUncertainty gnome_headers 0 1 [3] Init
                            (steady_world (1 / 4) (1 / 2)))).
Proof.
  apply (reinit_then_steady gnome_headers 0 60 1 [3] Init
                            (steady_world (1 / 4) (1 / 2))).
  - simpl. lia.
  - reflexivity.
  - reflexivity.
  - left. reflexivity.
  - lia.
  - repeat constructor. lia.
  - reflexivity.
  - reflexivity.
  - lia.
  - simpl. lra.
Defined.

(** X12. Shrinking and then stepping: after a shrink of a one-set store
    that leaves at least one element, a step whose target is the number of
    surviving elements, with the clock not moved back and the refresh not
    yet due, succeeds and keeps exactly the surviving draws, in their
    order; nothing is sampled or allocated. *)
Theorem shrink_then_steady :
  forall (H : Headers) (numLEs elapsedTime : Z) (codes : list Z)
         (m : WindMover) (l : list cell) (w : World),
    numLEs <> 0 ->
    fWindUncertaintyList m = Some l ->
    fLESetSizes m = Some [0] ->
    Z.of_nat (length l) = numLEs ->
    length codes = length l ->
    filter (kept_code H) codes <> [] ->
    fUncertainStartTime m <= elapsedTime ->
    fTimeUncertaintyWasSet m <= elapsedTime ->
    (IZR elapsedTime < IZR (fTimeUncertaintyWasSet m) + fDuration m)%R ->
    UpdateUncertainty H elapsedTime 1
      [Z.of_nat (length (filter (kept_code H) codes))]
      (snd (ReallocateUncertainty H numLEs (Some codes) m)) w
    = (noErr,
       set_sigmas (set_list m (Some (survivors H codes l)))
                  (new_sigma2 elapsedTime m) (new_sigmaTheta elapsedTime m),
       w).
Proof.
  intros H n e codes m l w Hn Hl Hs Hlen Hcodes Hkept Hact Hclock Hdue.
  rewrite (ReallocateUncertainty_compacted H n codes m l [0] Hn Hl Hs Hlen
                                           eq_refl Hcodes).
  pose proof (survivors_length H codes l Hcodes) as Hcount.
  cbn [snd].
  destruct (survivors H codes l) as [| c rest] eqn:Hsv.
  { destruct (filter (kept_code H) codes); [congruence | discriminate]. }
  rewrite <- Hsv in *. clear Hsv c rest.
  rewrite (UpdateUncertainty_matching H e 1
             [Z.of_nat (length (filter (kept_code H) codes))]
             (set_list m (Some (survivors H codes l)))
             (survivors H codes l) [0] w).
  - unfold update_tail.
    cbn [fTimeUncertaintyWasSet fDuration set_sigmas set_list set_store].
    replace (fle _ _) with false
      by (symmetry; apply fle_false; assumption).
    reflexivity.
  - assumption.
  - reflexivity.
  - cbn. assumption.
  - assumption.
  - reflexivity.
  - reflexivity.
  - intros j Hj. simpl in Hj. replace j with 0%nat by lia. reflexivity.
  - cbn [sum_list fold_right]. rewrite Hcount. lia.
Qed.

Lemma shrink_then_steady_witness :
  UpdateUncertainty gnome_headers 100 1
    [Z.of_nat (length (filter (kept_code gnome_headers) [2; 12; 2]))]
    (snd (ReallocateUncertainty gnome_headers 3 (Some [2; 12; 2])
                                (one_set_mover 3)))
    (steady_world (1 / 4) (1 / 2))
  = (noErr,
     set_sigmas
       (set_list (one_set_mover 3)
                 (Some (survivors gnome_headers [2; 12; 2] (repeat a_draw 3))))
       (new_sigma2 100 (one_set_mover 3)) (new_sigmaTheta 100 (one_set_mover 3)),
     steady_world (1 / 4) (1 / 2)).
Proof.
  apply (shrink_then_steady gnome_headers 3 100 [2; 12; 2] (one_set_mover 3)
           (repeat a_draw 3) (steady_world (1 / 4) (1 / 2))).
  - lia.
  - reflexivity.
  - reflexivity.
  - reflexivity.
  - reflexivity.
  - discriminate.
  - simpl. lia.
  - simpl. lia.
  - simpl. lra.
Defined.

(** ** The sampler, continued *)

Local Open Scope R_scope.

(** X13. One call of [rndv] takes exactly two values from the random
    source; when the second one, [u2], lies in (0, 1], the pair it returns
    has squared norm [-2 * ln u2] whatever the angle, so that each of its
    terms is at most [sqrt (-2 * ln u2)] in absolute value. *)
Theorem rndv_squared_norm :
  forall w : World,
    0 < rand_tape w (S (rand_pos w)) <= 1 ->
    snd (rndv w) = skip_rand 2 w
    /\ fst (fst (rndv w)) * fst (fst (rndv w))
       + snd (fst (rndv w)) * snd (fst (rndv w))
       = - 2 * ln (rand_tape w (S (rand_pos w)))
    /\ Rabs (fst (fst (rndv w))) <= sqrt (- 2 * ln (rand_tape w (S (rand_pos w))))
    /\ Rabs (snd (fst (rndv w))) <= sqrt (- 2 * ln (rand_tape w (S (rand_pos w)))).
Proof.
  intros w [Hpos Hle1].
  unfold rndv, GetRandomFloat. cbn [fst snd rand_tape rand_pos].
  set (r2 := rand_tape w (S (rand_pos w))) in *.
  set (a := 2 * PI * rand_tape w (rand_pos w)).
  assert (Hln : 0 <= - 2 * ln r2).
  { destruct Hle1 as [Hlt | Heq].
    - pose proof (ln_increasing r2 1 Hpos Hlt) as Hl. rewrite ln_1 in Hl. lra.
    - rewrite Heq, ln_1. lra. }
  pose proof (sqrt_pos (- 2 * ln r2)) as Hs.
  pose proof (sqrt_sqrt (- 2 * ln r2) Hln) as Hss.
  pose proof (sin2_cos2 a) as Hsc. unfold Rsqr in Hsc.
  pose proof (SIN_bound a) as Hsin. pose proof (COS_bound a) as Hcos.
  split; [reflexivity |]. split.
  - replace (sqrt (- 2 * ln r2) * cos a * (sqrt (- 2 * ln r2) * cos a)
             + sqrt (- 2 * ln r2) * sin a * (sqrt (- 2 * ln r2) * sin a))
      with (sqrt (- 2 * ln r2) * sqrt (- 2 * ln r2)
            * (sin a * sin a + cos a * cos a)) by ring.
    rewrite Hss, Hsc. ring.
  - split; apply Rabs_le; split; nra.
Qed.

Lemma rndv_squared_norm_witness :
  snd (rndv (steady_world (1 / 4) (1 / 2)))
  = skip_rand 2 (steady_world (1 / 4) (1 / 2)).
Proof.
  apply (rndv_squared_norm (steady_world (1 / 4) (1 / 2))).
  simpl. lra.
Defined.

(** X14. The bounded sampler stops after its first draw, having taken
    exactly two values from the random source, if and only if that draw
    satisfies [|sigmaTheta * sinTerm| <= maxAngle]; it then returns it.  In
    particular it never redraws while the angular spread is zero and the
    bound is not negative. *)
Theorem sampleBounded_single_draw :
  forall (m : WindMover) (w : World),
    (Rabs (fSigmaTheta m * snd (fst (rndv w))) <= fMaxAngle m
     <-> rand_pos (snd (sampleBounded m w)) = (2 + rand_pos w)%nat)
    /\ (Rabs (fSigmaTheta m * snd (fst (rndv w))) <= fMaxAngle m ->
        sampleBounded m w = (fst (rndv w), skip_rand 2 w))
    /\ (fSigmaTheta m = 0 -> 0 <= fMaxAngle m ->
        sampleBounded m w = (fst (rndv w), skip_rand 2 w)).
Proof.
  intros m w.
  assert (Hd0 : draw_at w 0 = fst (rndv w)).
  { unfold draw_at. simpl (2 * 0)%nat. rewrite skip_rand_0. reflexivity. }
  assert (Hfirst : Rabs (fSigmaTheta m * snd (fst (rndv w))) <= fMaxAngle m ->
                   sampleBounded m w = (fst (rndv w), skip_rand 2 w)).
  { intros Hb. rewrite <- Hd0 in Hb. apply accepts_bound in Hb.
    rewrite (sampleBounded_first_accepted m w Hb), Hd0. reflexivity. }
  split; [| split; [exact Hfirst |]].
  - split.
    + intros Hb. rewrite (Hfirst Hb). reflexivity.
    + intros Hpos.
      destruct (sampleBounded_run m w) as (k & Hk & Hrun & _ & Hok).
      rewrite Hrun in Hpos. cbn [snd skip_rand rand_pos] in Hpos.
      assert (k = 0%nat) by lia. subst k.
      rewrite <- Hd0. apply accepts_bound. apply Hok. lia.
  - intros Hz Hmax. apply Hfirst. rewrite Hz, Rmult_0_l, Rabs_R0. assumption.
Qed.

Local Close Scope R_scope.

(** ** The perturbation, continued *)

Local Open Scope R_scope.

Lemma draw_w_zero_spreads (nrm : R) (d : LEWindUncertainRec) :
  0 <= nrm -> draw_w nrm 0 0 d = nrm /\ draw_dtheta 0 d = 0.
Proof.
  intros Hn.
  assert (Hth : draw_dtheta 0 d = 0) by (unfold draw_dtheta; lra).
  split; [| exact Hth].
  unfold draw_w. rewrite Hth, cos_0, Rmax_left by lra.
  unfold draw_x.
  replace (nrm * nrm - 0) with (nrm * nrm) by lra.
  rewrite Rmax_left by nra.
  rewrite sqrt_square by assumption.
  replace (nrm - nrm) with 0 by lra. rewrite sqrt_0.
  replace (randCos d * 0 + sqrt nrm) with (sqrt nrm) by lra.
  rewrite sqrt_sqrt by assumption. lra.
Qed.

Lemma spreads_at_start (m : WindMover) :
  new_sigma2 (fUncertainStartTime m) m = 0
  /\ new_sigmaTheta (fUncertainStartTime m) m = 0.
Proof.
  unfold new_sigma2, new_sigmaTheta, c_pow. rewrite Z.sub_diag.
  destruct (Req_dec_T 0 0) as [_ | Hne]; [| contradiction].
  rewrite !sqrt_0. split; lra.
Qed.

Lemma AddUncertainty_identity (setIndex leIndex : Z) (patVel : VelocityRec)
    (m : WindMover) (w : World) :
  fSigma2 m = 0 -> fSigmaTheta m = 0 -> 1 <= norm2 patVel ->
  AddUncertainty setIndex leIndex patVel m w = (0%Z, patVel, w).
Proof.
  intros H2 Ht Hn.
  destruct (fWindUncertaintyList m) as [l |] eqn:Hl.
  2:{ apply AddUncertainty_store_absent. left. assumption. }
  destruct (fLESetSizes m) as [sz |] eqn:Hs.
  2:{ apply AddUncertainty_store_absent. right. assumption. }
  rewrite (AddUncertainty_main_branch setIndex leIndex patVel m w l sz Hl Hs Hn).
  rewrite H2, Ht.
  destruct (draw_w_zero_spreads (norm2 patVel)
              (read_draw setIndex leIndex l sz)) as [Hw Hth]; [lra |].
  rewrite Hw, Hth. unfold scale_rotate. rewrite cos_0, sin_0.
  destruct patVel as [pu pv]. cbn [u v].
  f_equal. f_equal. f_equal; field; lra.
Qed.

(** X15. While both spreads are zero the perturbation is the identity: a
    wind of magnitude at least 1 comes back unchanged whatever the stored
    draw.  This is the case after the step at which uncertainty starts
    ([elapsed = fUncertainStartTime]), whose recomputed spreads are both
    zero. *)
Theorem first_active_step_is_unperturbed :
  forall (H : Headers) (numLESets : Z) (sizes : list Z) (m : WindMover)
         (w : World) (setIndex leIndex : Z) (patVel : VelocityRec) (w0 : World),
    (needToReAllocate (decide (fUncertainStartTime m) numLESets sizes m) = false
     \/ numLESets = 1%Z) ->
    1 <= norm2 patVel ->
    AddUncertainty setIndex leIndex patVel
      (snd (fst (UpdateUncertainty H (fUncertainStartTime m) numLESets sizes
                                   m w))) w0
    = (0%Z, patVel, w0).
Proof.
  intros H n sizes m w si li a w0 Hgo Hn.
  destruct (UpdateUncertainty_new_sigmas H (fUncertainStartTime m) n sizes m w
              (Z.le_refl _) Hgo) as [H2 Ht].
  destruct (spreads_at_start m) as [Hz2 Hzt].
  apply AddUncertainty_identity; [congruence | congruence | assumption].
Qed.

Lemma first_active_step_is_unperturbed_witness :
  AddUncertainty 0 1 (mkVel 9 0)
    (snd (fst (UpdateUncertainty gnome_headers (fUncertainStartTime Init) 1 [3%Z]
                                 Init (steady_world (1 / 4) (1 / 2)))))
    (steady_world (1 / 4) (1 / 2))
  = (0%Z, mkVel 9 0, steady_world (1 / 4) (1 / 2)).
Proof.
  apply (first_active_step_is_unperturbed gnome_headers 1 [3%Z] Init
           (steady_world (1 / 4) (1 / 2)) 0 1 (mkVel 9 0)
           (steady_world (1 / 4) (1 / 2))).
  - left. reflexivity.
  - rewrite norm2_9_0. lra.
Defined.

(** X16. In the main branch (store allocated, wind magnitude at least 1)
    the magnitude of the perturbed wind is [x * x] divided by the cosine of
    the rotation angle floored at 0.001: it is never below [x * x] and
    never above 1000 times [x * x], where [x = randCos * s' + m]. *)
Theorem AddUncertainty_magnitude_bounds :
  forall (setIndex leIndex : Z) (patVel : VelocityRec) (m : WindMover)
         (w : World) (l : list cell) (sz : list Z),
    fWindUncertaintyList m = Some l ->
    fLESetSizes m = Some sz ->
    1 <= norm2 patVel ->
    draw_x (norm2 patVel) (fSigma2 m) (read_draw setIndex leIndex l sz)
    * draw_x (norm2 patVel) (fSigma2 m) (read_draw setIndex leIndex l sz)
    <= norm2 (snd (fst (AddUncertainty setIndex leIndex patVel m w)))
    <= 1000 * (draw_x (norm2 patVel) (fSigma2 m)
                      (read_draw setIndex leIndex l sz)
               * draw_x (norm2 patVel) (fSigma2 m)
                        (read_draw setIndex leIndex l sz)).
Proof.
  intros si li a m w l sz Hl Hs Hn.
  rewrite (AddUncertainty_main_branch si li a m w l sz Hl Hs Hn).
  cbn [fst snd].
  set (d := read_draw si li l sz).
  pose proof (draw_w_nonneg (norm2 a) (fSigma2 m) (fSigmaTheta m) d) as Hw.
  rewrite scale_rotate_norm
    by (apply Rmult_le_pos; [assumption | left; apply Rinv_0_lt_compat; lra]).
  replace (draw_w (norm2 a) (fSigma2 m) (fSigmaTheta m) d / norm2 a * norm2 a)
    with (draw_w (norm2 a) (fSigma2 m) (fSigmaTheta m) d) by (field; lra).
  unfold draw_w.
  set (x := draw_x (norm2 a) (fSigma2 m) d).
  set (c := Rmax (cos (draw_dtheta (fSigmaTheta m) d)) (1 / 1000)).
  assert (Hc : 1 / 1000 <= c <= 1).
  { unfold c. split; [apply Rmax_r |].
    apply Rmax_lub; [apply COS_bound | lra]. }
  assert (Hx : 0 <= x * x) by nra.
  assert (Hic : 1 <= / c <= 1000).
  { split.
    - rewrite <- Rinv_1. apply Rinv_le_contravar; lra.
    - replace 1000 with (/ (1 / 1000)) by lra.
      apply Rinv_le_contravar; lra. }
  unfold Rdiv. split; nra.
Qed.

Lemma AddUncertainty_magnitude_bounds_witness :
  draw_x (norm2 (mkVel 9 0)) (fSigma2 still_mover)
         (read_draw 0 0 [Some the_draw] [0%Z])
  * draw_x (norm2 (mkVel 9 0)) (fSigma2 still_mover)
           (read_draw 0 0 [Some the_draw] [0%Z])
  <= norm2 (snd (fst (AddUncertainty 0 0 (mkVel 9 0) still_mover
                                     (steady_world (1 / 4) (1 / 2))))).
Proof.
  apply (AddUncertainty_magnitude_bounds 0 0 (mkVel 9 0) still_mover
           (steady_world (1 / 4) (1 / 2)) [Some the_draw] [0%Z]).
  - reflexivity.
  - reflexivity.
  - rewrite norm2_9_0. lra.
Defined.

(** X17. In the near-calm branch (store allocated, wind magnitude below 1)
    each component of the wind is shifted by [fUncertaintyDiffusion] times
    one value taken from the random source, two values in all; the stored
    draws and the two spreads play no part; and with values in [-1, 1] no
    component moves by more than [|fUncertaintyDiffusion|]. *)
Theorem AddUncertainty_near_calm :
  forall (setIndex leIndex : Z) (patVel : VelocityRec) (m : WindMover)
         (w : World) (l : list cell) (sz : list Z),
    fWindUncertaintyList m = Some l ->
    fLESetSizes m = Some sz ->
    norm2 patVel < 1 ->
    AddUncertainty setIndex leIndex patVel m w
    = (0%Z,
       mkVel (u patVel + fUncertaintyDiffusion m * rand_tape w (rand_pos w))
             (v patVel + fUncertaintyDiffusion m * rand_tape w (S (rand_pos w))),
       skip_rand 2 w)
    /\ (Rabs (rand_tape w (rand_pos w)) <= 1 ->
        Rabs (u (snd (fst (AddUncertainty setIndex leIndex patVel m w)))
              - u patVel) <= Rabs (fUncertaintyDiffusion m))
    /\ (Rabs (rand_tape w (S (rand_pos w))) <= 1 ->
        Rabs (v (snd (fst (AddUncertainty setIndex leIndex patVel m w)))
              - v patVel) <= Rabs (fUncertaintyDiffusion m)).
Proof.
  intros si li a m w l sz Hl Hs Hn.
  assert (Hrun :
    AddUncertainty si li a m w
    = (0%Z,
       mkVel (u a + fUncertaintyDiffusion m * rand_tape w (rand_pos w))
             (v a + fUncertaintyDiffusion m * rand_tape w (S (rand_pos w))),
       skip_rand 2 w)).
  { unfold AddUncertainty. rewrite Hl, Hs. fold (norm2 a).
    replace (flt (norm2 a) 1) with true
      by (symmetry; apply flt_true; assumption).
    reflexivity. }
  assert (Hbound : forall D r, Rabs r <= 1 -> Rabs (D * r) <= Rabs D).
  { intros D r Hr. rewrite Rabs_mult.
    pose proof (Rabs_pos D). nra. }
  split; [exact Hrun |]. rewrite Hrun. cbn [fst snd u v].
  split; intros Hr.
  - replace (u a + fUncertaintyDiffusion m * rand_tape w (rand_pos w) - u a)
      with (fUncertaintyDiffusion m * rand_tape w (rand_pos w)) by ring.
    apply Hbound. assumption.
  - replace (v a + fUncertaintyDiffusion m * rand_tape w (S (rand_pos w)) - v a)
      with (fUncertaintyDiffusion m * rand_tape w (S (rand_pos w))) by ring.
    apply Hbound. assumption.
Qed.

Lemma AddUncertainty_near_calm_witness :
  AddUncertainty 0 0 (mkVel (1 / 2) 0) still_mover
                 (steady_world (1 / 4) (1 / 2))
  = (0%Z,
     mkVel (1 / 2 + fUncertaintyDiffusion still_mover
                    * rand_tape (steady_world (1 / 4) (1 / 2))
                                (rand_pos (steady_world (1 / 4) (1 / 2))))
           (0 + fUncertaintyDiffusion still_mover
                * rand_tape (steady_world (1 / 4) (1 / 2))
                            (S (rand_pos (steady_world (1 / 4) (1 / 2))))),
     skip_rand 2 (steady_world (1 / 4) (1 / 2))).
Proof.
  apply (AddUncertainty_near_calm 0 0 (mkVel (1 / 2) 0) still_mover
           (steady_world (1 / 4) (1 / 2)) [Some the_draw] [0%Z]).
  - reflexivity.
  - reflexivity.
  - unfold norm2. cbn [u v].
    replace (0 * 0 + 1 / 2 * (1 / 2)) with (1 / 2 * (1 / 2)) by lra.
    rewrite sqrt_square; lra.
Defined.

Local Close Scope R_scope.

(** ** The batch, continued *)

Lemma scale_delta_zero : scale_delta zero_delta = zero_delta.
Proof.
  unfold scale_delta, zero_delta. cbn [p pLong pLat z].
  replace (0 / 1000000)%R with 0%R by lra. reflexivity.
Qed.

Lemma GetMove_world (H : Headers) (model_time timeStep setIndex leIndex : Z)
    (theLE : LERec) (leType : Z) (m : WindMover) (w : World) :
  snd (GetMove H model_time timeStep setIndex leIndex theLE leType m w) = w
  \/ snd (GetMove H model_time timeStep setIndex leIndex theLE leType m w)
     = skip_rand 2 w.
Proof.
  unfold GetMove. destruct (flt 0 (le_z theLE)); [left; reflexivity |].
  destruct (leType =? UNCERTAINTY_LE H); [| left; reflexivity].
  unfold AddUncertainty.
  destruct (fWindUncertaintyList m); [| left; reflexivity].
  destruct (fLESetSizes m); [| left; reflexivity].
  destruct (flt _ 1); [right | left]; reflexivity.
Qed.

Section BatchMore.

Variable H : Headers.
Variables (model_time step_len spillType spill_ID : Z).
Variables (ref : list WorldPoint3D) (windages : list R) (LE_status : list Z).
Variable m : WindMover.

Local Abbreviation one i :=
  (move_one H i model_time step_len ref windages LE_status spillType spill_ID m).
Local Abbreviation loop k i :=
  (move_loop H k i model_time step_len ref windages LE_status spillType
             spill_ID m).
Local Abbreviation entry i :=
  (forecast_entry H step_len m ref windages LE_status i).

Lemma move_one_forecast (i : nat) (delta : list WorldPoint3D) (w : World) :
  spillType <> UNCERTAINTY_LE H \/ store_absent m ->
  one i delta w = (upd i (entry i) delta, w).
Proof.
  intros Hdet. unfold move_one, forecast_entry.
  destruct (nth i LE_status 0 =? OILSTAT_INWATER H); cbn [negb];
    [| reflexivity].
  unfold GetMove, make_rec, forecast_delta. cbn [le_z le_p windage pLat].
  destruct (flt 0 (z (nth i ref zero_delta))).
  { rewrite scale_delta_zero. reflexivity. }
  assert (Hadd :
    (if spillType =? UNCERTAINTY_LE H
     then AddUncertainty spill_ID (Z.of_nat i) (current_time_value m) m w
     else (noErr, current_time_value m, w))
    = (noErr, current_time_value m, w)).
  { destruct Hdet as [Hty | Habs].
    - apply Z.eqb_neq in Hty. rewrite Hty. reflexivity.
    - rewrite (AddUncertainty_store_absent _ _ _ _ _ Habs).
      destruct (spillType =? UNCERTAINTY_LE H); reflexivity. }
  rewrite Hadd. unfold scale_delta. cbn [p pLong pLat z].
  assert (Hcancel : forall y : R, (y * 1000000 / 1000000)%R = y)
    by (intros y; lra).
  rewrite !Hcancel. reflexivity.
Qed.

Lemma move_loop_after (k i j : nat) (delta : list WorldPoint3D) (w : World) :
  (i + k <= j)%nat -> nth_error (fst (loop k i delta w)) j = nth_error delta j.
Proof.
  revert i delta w. induction k as [| k IH]; intros i delta w Hj; simpl.
  - reflexivity.
  - pose proof (move_one_other H model_time step_len spillType spill_ID ref
                               windages LE_status m i j delta w) as Ho.
    destruct (one i delta w) as [d' w'].
    rewrite IH by lia. apply Ho. lia.
Qed.

Lemma move_loop_forecast (k i : nat) (delta : list WorldPoint3D) (w : World) :
  spillType <> UNCERTAINTY_LE H \/ store_absent m ->
  snd (loop k i delta w) = w
  /\ forall j, (i <= j < i + k)%nat -> (j < length delta)%nat ->
       nth_error (fst (loop k i delta w)) j = Some (entry j).
Proof.
  intros Hdet. revert i delta w.
  induction k as [| k IH]; intros i delta w; simpl.
  - split; [reflexivity | intros; lia].
  - rewrite (move_one_forecast i delta w Hdet).
    destruct (IH (S i) (upd i (entry i) delta) w) as [Hw Hval].
    split; [exact Hw |].
    intros j Hj Hlen. destruct (Nat.eq_dec j i) as [-> | Hne].
    + rewrite (move_loop_before H model_time step_len spillType spill_ID ref
                                windages LE_status m k (S i) i) by lia.
      apply nth_error_upd_same. assumption.
    + apply Hval; [lia | rewrite upd_length; assumption].
Qed.

Lemma move_loop_world (k i : nat) (delta : list WorldPoint3D) (w : World) :
  (rand_pos w <= rand_pos (snd (loop k i delta w)) <= rand_pos w + 2 * k)%nat
  /\ rand_tape (snd (loop k i delta w)) = rand_tape w
  /\ alloc_pos (snd (loop k i delta w)) = alloc_pos w
  /\ alloc_tape (snd (loop k i delta w)) = alloc_tape w.
Proof.
  revert i delta w. induction k as [| k IH]; intros i delta w; simpl.
  - repeat split; lia.
  - assert (Hone :
      (rand_pos w <= rand_pos (snd (one i delta w)) <= rand_pos w + 2)%nat
      /\ rand_tape (snd (one i delta w)) = rand_tape w
      /\ alloc_pos (snd (one i delta w)) = alloc_pos w
      /\ alloc_tape (snd (one i delta w)) = alloc_tape w).
    { unfold move_one.
      destruct (negb (nth i LE_status 0 =? OILSTAT_INWATER H));
        [cbn [snd]; repeat split; lia |].
      match goal with
      | |- context [GetMove H ?a ?b ?c ?d ?e ?f m w] =>
          pose proof (GetMove_world H a b c d e f m w) as Hgw;
          destruct (GetMove H a b c d e f m w) as [dd w']
      end.
      cbn [snd] in *. destruct Hgw as [-> | ->]; cbn; repeat split; lia. }
    destruct (one i delta w) as [d' w']. cbn [snd] in Hone.
    destruct Hone as (Hp & Ht & Hap & Hat).
    destruct (IH (S i) d' w') as (IHp & IHt & IHap & IHat).
    repeat split; try congruence; lia.
Qed.

End BatchMore.

(** X18. A batch in which the wind alone acts (a valid element type that is
    not the uncertainty type, or no store allocated) succeeds without
    consulting the random source and stores, for each of the first [n]
    elements: the zero displacement when the element is not in the water or
    lies below the surface, and otherwise the cached wind times its windage
    over the time step, in degrees, the longitude divided by the ratio at
    the element's latitude.  The entries from [n] on are left as they were. *)
Theorem get_move_forecast :
  forall (H : Headers) (n model_time step_len : Z)
         (rf dl : list WorldPoint3D) (wl : list R) (LE_status : list Z)
         (spillType spill_ID : Z) (m : WindMover) (w : World),
    FORECAST_LE H <= spillType <= UNCERTAINTY_LE H ->
    spillType <> UNCERTAINTY_LE H \/ store_absent m ->
    exists dl' : list WorldPoint3D,
      get_move H n model_time step_len (Some rf) (Some dl) (Some wl) LE_status
               spillType spill_ID m w = (noErr, Some dl', w)
      /\ length dl' = length dl
      /\ (forall i, (i < Z.to_nat n)%nat -> (i < length dl)%nat ->
            nth_error dl' i
            = Some (forecast_entry H step_len m rf wl LE_status i))
      /\ (forall j, (Z.to_nat n <= j)%nat -> nth_error dl' j = nth_error dl j).
Proof.
  intros H n mt sl rf dl wl st ty sid m w Hty Hdet.
  unfold get_move.
  replace (orb (ty <? FORECAST_LE H) (UNCERTAINTY_LE H <? ty)) with false
    by (symmetry; apply orb_false_iff; split; apply Z.ltb_ge; lia).
  pose proof (move_loop_forecast H mt sl ty sid rf wl st m (Z.to_nat n) 0 dl w
                                 Hdet) as [Hw Hval].
  pose proof (move_loop_length H mt sl ty sid rf wl st m (Z.to_nat n) 0 dl w)
    as Hlen.
  pose proof (fun j => move_loop_after H mt sl ty sid rf wl st m
                                       (Z.to_nat n) 0 j dl w) as Hafter.
  destruct (move_loop H (Z.to_nat n) 0 mt sl rf wl st ty sid m dl w)
    as [dl' w'].
  cbn [fst snd] in *. subst w'. exists dl'.
  split; [reflexivity |]. split; [exact Hlen |]. split.
  - intros i Hi Hil. apply Hval; [lia | assumption].
  - intros j Hj. apply Hafter. lia.
Qed.

Lemma get_move_forecast_witness :
  exists dl' : list WorldPoint3D,
    get_move gnome_headers 1 0 900 (Some [mkWP3 (mkWP (-122) 45) 0])
             (Some [zero_delta]) (Some [(3 / 100)%R]) [2] 1 0 breeze_mover
             (steady_world (1 / 4) (1 / 2))
    = (noErr, Some dl', steady_world (1 / 4) (1 / 2))
    /\ length dl' = length [zero_delta].
Proof.
  destruct (get_move_forecast gnome_headers 1 0 900
              [mkWP3 (mkWP (-122) 45) 0] [zero_delta] [(3 / 100)%R] [2] 1 0
              breeze_mover (steady_world (1 / 4) (1 / 2)))
    as (dl' & Hrun & Hlen & _).
  - simpl. lia.
  - left. simpl. lia.
  - exists dl'. split; assumption.
Defined.

(** X19. Whatever its inputs, [get_move] keeps the length of the [delta]
    array and never writes an entry at index [n] or beyond; it takes at
    most two values per element from the random source, and it never calls
    the allocator. *)
Theorem get_move_frame :
  forall (H : Headers) (n model_time step_len : Z)
         (ref : option (list WorldPoint3D)) (dl : list WorldPoint3D)
         (windages : option (list R)) (LE_status : list Z)
         (spillType spill_ID : Z) (m : WindMover) (w : World),
  exists dl' : list WorldPoint3D,
    snd (fst (get_move H n model_time step_len ref (Some dl) windages
                       LE_status spillType spill_ID m w)) = Some dl'
    /\ length dl' = length dl
    /\ (forall j, (Z.to_nat n <= j)%nat -> nth_error dl' j = nth_error dl j)
    /\ (rand_pos w
        <= rand_pos (snd (get_move H n model_time step_len ref (Some dl)
                                   windages LE_status spillType spill_ID m w))
        <= rand_pos w + 2 * Z.to_nat n)%nat
    /\ alloc_pos (snd (get_move H n model_time step_len ref (Some dl) windages
                                LE_status spillType spill_ID m w))
       = alloc_pos w.
Proof.
  intros H n mt sl ref dl wd st ty sid m w. unfold get_move.
  destruct ref as [rf |];
    [| exists dl; cbn [fst snd]; repeat split; lia].
  destruct wd as [wl |];
    [| exists dl; cbn [fst snd]; repeat split; lia].
  destruct (orb (ty <? FORECAST_LE H) (UNCERTAINTY_LE H <? ty));
    [exists dl; cbn [fst snd]; repeat split; lia |].
  pose proof (move_loop_world H mt sl ty sid rf wl st m (Z.to_nat n) 0 dl w)
    as (Hp & _ & Hap & _).
  pose proof (move_loop_length H mt sl ty sid rf wl st m (Z.to_nat n) 0 dl w)
    as Hlen.
  pose proof (fun j => move_loop_after H mt sl ty sid rf wl st m
                                       (Z.to_nat n) 0 j dl w) as Hafter.
  destruct (move_loop H (Z.to_nat n) 0 mt sl rf wl st ty sid m dl w)
    as [dl' w'].
  cbn [fst snd] in *. exists dl'.
  split; [reflexivity |]. split; [exact Hlen |]. split.
  - intros j Hj. apply Hafter. lia.
  - split; [exact Hp | exact Hap].
Qed.

(** ** Preparing a step *)

(** X20. The error code that [PrepareForModelStep] returns and the wind it
    caches are those of [GetTimeValue] alone: an error of
    [UpdateUncertainty] is overwritten and never reaches the caller.  With a
    constant wind the call therefore always succeeds and caches the
    constant value, whatever the time and the scheduler do; and when
    uncertainty is not requested the store and the world are left as they
    are. *)
Theorem PrepareForModelStep_result :
  forall (H : Headers) (model_time time_step : Z) (uncertain : bool)
         (numLESets : Z) (sizes : list Z) (s : WindSource)
         (m : WindMover) (w : World),
    fst (fst (PrepareForModelStep H model_time time_step uncertain numLESets
                                  sizes s m w))
    = fst (GetTimeValue model_time s)
    /\ current_time_value
         (snd (fst (PrepareForModelStep H model_time time_step uncertain
                                        numLESets sizes s m w)))
       = snd (GetTimeValue model_time s)
    /\ (fIsConstantWind s = true ->
        GetTimeValue model_time s = (noErr, fConstantValue s))
    /\ (uncertain = false ->
        snd (PrepareForModelStep H model_time time_step uncertain numLESets
                                 sizes s m w) = w
        /\ fWindUncertaintyList
             (snd (fst (PrepareForModelStep H model_time time_step uncertain
                                            numLESets sizes s m w)))
           = fWindUncertaintyList m
        /\ fLESetSizes
             (snd (fst (PrepareForModelStep H model_time time_step uncertain
                                            numLESets sizes s m w)))
           = fLESetSizes m).
Proof.
  intros H t ts unc n sizes s m w. unfold PrepareForModelStep.
  set (m0 := if bIsFirstStep m then _ else m).
  assert (Hm0 : fWindUncertaintyList m0 = fWindUncertaintyList m
                /\ fLESetSizes m0 = fLESetSizes m).
  { unfold m0. destruct (bIsFirstStep m); split; reflexivity. }
  destruct Hm0 as [Hl0 Hs0].
  destruct (GetTimeValue t s) as [err value] eqn:Hg.
  split; [| split; [| split]].
  - destruct unc; [| reflexivity].
    destruct (UpdateUncertainty H _ n sizes m0 w) as [[e1 m1] w1]. reflexivity.
  - destruct unc; [| reflexivity].
    destruct (UpdateUncertainty H _ n sizes m0 w) as [[e1 m1] w1]. reflexivity.
  - intros Hc. unfold GetTimeValue in Hg. rewrite Hc in Hg.
    symmetry. exact Hg.
  - intros ->. cbn [fst snd fWindUncertaintyList fLESetSizes set_step].
    split; [reflexivity |]. split; assumption.
Qed.

(** A scheduler failure that the caller of [PrepareForModelStep] never
    sees: the two-set growth returns -1, the step returns 0. *)
Example PrepareForModelStep_hides_failure :
  fst (fst (UpdateUncertainty gnome_headers 100 2 [3; 5] two_set_mover
                              (steady_world (1 / 4) (1 / 2)))) = -1
  /\ fst (fst (PrepareForModelStep gnome_headers 100 900 true 2 [3; 5]
                                   (mkSource true (mkVel 5 0) None)
                                   two_set_mover
                                   (steady_world (1 / 4) (1 / 2)))) = 0.
Proof. split; reflexivity. Qed.

(** ** The spreads over time *)

Local Open Scope R_scope.

Lemma c_pow_monotone (x1 x2 y : R) :
  0 <= y -> 0 <= x1 <= x2 -> 0 <= c_pow x1 y <= c_pow x2 y.
Proof.
  intros Hy [H1 H12]. unfold c_pow.
  destruct (Req_dec_T x1 0) as [Hz1 | Hn1];
    destruct (Req_dec_T x2 0) as [Hz2 | Hn2].
  - lra.
  - split; [lra |]. unfold Rpower. left. apply exp_pos.
  - lra.
  - split; [unfold Rpower; left; apply exp_pos |].
    apply Rle_Rpower_l; [assumption | lra].
Qed.

(** X21. Both spreads grow with the elapsed time: for two times at or after
    the uncertainty start time, the later one gives a [sigma2] at least as
    large, and, the angle scale being non-negative, a [sigmaTheta] at
    least as large and not negative. *)
Theorem spreads_grow_with_time :
  forall (m : WindMover) (e1 e2 : Z),
    (fUncertainStartTime m <= e1)%Z -> (e1 <= e2)%Z ->
    new_sigma2 e1 m <= new_sigma2 e2 m
    /\ (0 <= fAngleScale m ->
        0 <= new_sigmaTheta e1 m <= new_sigmaTheta e2 m).
Proof.
  intros m e1 e2 Hs H12.
  assert (Hd1 : 0 <= IZR (e1 - fUncertainStartTime m))
    by (apply IZR_le; lia).
  assert (Hd12 : IZR (e1 - fUncertainStartTime m)
                 <= IZR (e2 - fUncertainStartTime m))
    by (apply IZR_le; lia).
  split.
  - unfold new_sigma2.
    destruct (c_pow_monotone (IZR (e1 - fUncertainStartTime m))
                (IZR (e2 - fUncertainStartTime m)) (147 / 1000))
      as [Hc1 Hc12]; [lra | lra |].
    set (c1 := c_pow (IZR (e1 - fUncertainStartTime m)) (147 / 1000)) in *.
    set (c2 := c_pow (IZR (e2 - fUncertainStartTime m)) (147 / 1000)) in *.
    set (k := fSpeedScale m * (315 / 1000)).
    assert (Hk : 0 <= k * k) by nra.
    assert (Hcc : c1 * c1 <= c2 * c2) by nra.
    replace (k * c1 * (k * c1) / 2) with (k * k * (c1 * c1) / 2) by lra.
    replace (k * c2 * (k * c2) / 2) with (k * k * (c2 * c2) / 2) by lra.
    nra.
  - intros Ha. unfold new_sigmaTheta.
    pose proof (sqrt_pos (sqrt (IZR (e1 - fUncertainStartTime m)))) as Hp1.
    assert (Hle : sqrt (sqrt (IZR (e1 - fUncertainStartTime m)))
                  <= sqrt (sqrt (IZR (e2 - fUncertainStartTime m)))).
    { apply sqrt_le_1_alt. apply sqrt_le_1_alt. assumption. }
    split; nra.
Qed.

Lemma spreads_grow_with_time_witness :
  new_sigma2 100 Init <= new_sigma2 10000 Init.
Proof.
  apply (spreads_grow_with_time Init 100 10000).
  - simpl. lia.
  - lia.
Defined.

Local Close Scope R_scope.

(** ** No cell is left unwritten *)

Lemma UpdateUncertaintyValues_written (elapsedTime : Z) (m : WindMover)
    (w : World) :
  all_written (fst (UpdateUncertaintyValues elapsedTime m w)).
Proof.
  destruct (fWindUncertaintyList m) as [l |] eqn:Hl.
  - rewrite (UpdateUncertaintyValues_refresh elapsedTime m l w Hl).
    intros l' Hl'. cbn in Hl'. injection Hl' as <-. apply draws_written.
  - unfold UpdateUncertaintyValues.
    cbn [fWindUncertaintyList set_time set_store]. rewrite Hl.
    intros l' Hl'. cbn in Hl'. congruence.
Qed.

Lemma update_tail_written (H : Headers) (reinit : bool)
    (elapsedTime numLESets : Z) (sizes : list Z) (m : WindMover) (w : World) :
  all_written m ->
  all_written (snd (fst (update_tail H reinit elapsedTime numLESets sizes m w))).
Proof.
  intros Hw. unfold update_tail.
  set (m1 := set_sigmas m _ _).
  assert (Hw1 : all_written m1) by exact Hw.
  clearbody m1. destruct reinit.
  - pose proof (AllocateUncertainty_failure H numLESets sizes m1 w) as Hfail.
    destruct (AllocateUncertainty H numLESets sizes m1 w) as [[err m2] w2].
    cbn [fst snd] in Hfail.
    destruct (Z.eqb_spec err 0) as [He | Hne].
    + pose proof (UpdateUncertaintyValues_written elapsedTime m2 w2) as Hv.
      destruct (UpdateUncertaintyValues elapsedTime m2 w2) as [m3 w3].
      exact Hv.
    + cbn [fst snd]. destruct (Hfail Hne) as [Hnil _].
      intros l Hl. congruence.
  - destruct (fle _ _); [| exact Hw1].
    pose proof (UpdateUncertaintyValues_written elapsedTime m1 w) as Hv.
    destruct (UpdateUncertaintyValues elapsedTime m1 w) as [m3 w3].
    exact Hv.
Qed.

Lemma decide_realloc_sizes (elapsedTime numLESets : Z) (sizes : list Z)
    (m : WindMover) :
  needToReAllocate (decide elapsedTime numLESets sizes m) = true ->
  d_uncertListSize (decide elapsedTime numLESets sizes m)
  = handle_len (fWindUncertaintyList m)
  /\ d_uncertListSize (decide elapsedTime numLESets sizes m)
     < d_numrec (decide elapsedTime numLESets sizes m).
Proof.
  unfold decide. destruct (fLESetSizes m) as [stored |]; [| discriminate].
  unfold check_sets.
  destruct (negb (numLESets =? Z.of_nat (length stored))); [discriminate |].
  destruct (check_loop _ _ _ _ _) as [brk numrec].
  destruct (negb (numrec =? handle_len (fWindUncertaintyList m)));
    [| discriminate].
  destruct (Z.ltb_spec (handle_len (fWindUncertaintyList m)) numrec);
    [| discriminate].
  cbn [needToReAllocate d_uncertListSize d_numrec]. intros _. split; [reflexivity | assumption].
Qed.

Lemma grow_written (elapsedTime : Z) (sizes : list Z) (m : WindMover)
    (w : World) :
  needToReAllocate (decide elapsedTime 1 sizes m) = true ->
  all_written m ->
  all_written (fst (fst (grow (decide elapsedTime 1 sizes m) 1 m w))).
Proof.
  intros Hra Hw.
  pose proof (decide_realloc_count _ _ _ _ Hra) as Hcnt.
  destruct (decide_realloc_sizes _ _ _ _ Hra) as [Hsize Hlt].
  unfold grow. rewrite Hcnt. cbn [Z.eqb negb orb].
  cbn [fWindUncertaintyList set_list set_store].
  destruct (fWindUncertaintyList m) as [l |] eqn:Hl; cbn [option_map].
  2:{ intros l' Hl'. cbn in Hl'. congruence. }
  cbn [handle_len] in Hsize. rewrite Hsize in *.
  rewrite SetHandleSize_grow by lia. rewrite Nat2Z.id.
  replace (Z.to_nat (d_numrec (decide elapsedTime 1 sizes m)) - length l)%nat
    with (Z.to_nat (d_numrec (decide elapsedTime 1 sizes m)
                    - Z.of_nat (length l))) by lia.
  rewrite fill_loop_spec by (rewrite repeat_length; lia).
  rewrite skipn_repeat_all, app_nil_r.
  intros l' Hl'. cbn in Hl'. injection Hl' as <-.
  apply Forall_app. split; [apply Hw; assumption | apply draws_written].
Qed.

(** X22. The scheduler keeps the store free of unwritten cells: if every
    cell of the draw array had been written before a step, then after
    [UpdateUncertainty], whatever path it takes and whatever it returns,
    every cell of the array that is left has been written, provided the
    grow path is not entered with a set count other than one. *)
Theorem UpdateUncertainty_keeps_cells_written :
  forall (H : Headers) (elapsedTime numLESets : Z) (sizes : list Z)
         (m : WindMover) (w : World),
    all_written m ->
    (needToReAllocate (decide elapsedTime numLESets sizes m) = false
     \/ numLESets = 1) ->
    all_written (snd (fst (UpdateUncertainty H elapsedTime numLESets sizes m w))).
Proof.
  intros H e n sizes m w Hw Hgo. unfold UpdateUncertainty.
  destruct (negb (fUncertainStartTime m <=? e)).
  - cbn [fst snd]. destruct (fWindUncertaintyList m) eqn:Hl; [| exact Hw].
    intros l' Hl'. cbn in Hl'. congruence.
  - destruct (needToReAllocate (decide e n sizes m)) eqn:Hra.
    + destruct Hgo as [Hx | Hone]; [discriminate |]. rewrite Hone in *.
      pose proof (decide_realloc_count _ _ _ _ Hra) as Hcnt.
      pose proof (grow_completes (decide e 1 sizes m) m w Hcnt) as Hok.
      pose proof (grow_written e sizes m w Hra Hw) as Hg.
      destruct (grow (decide e 1 sizes m) 1 m w) as [[m1 w1] ok].
      cbn [fst snd] in *. subst ok.
      apply update_tail_written. assumption.
    + apply update_tail_written. assumption.
Qed.

Lemma UpdateUncertainty_keeps_cells_written_witness :
  all_written (snd (fst (UpdateUncertainty gnome_headers 100 1 [5]
                                           (one_set_mover 3)
                                           (steady_world (1 / 4) (1 / 2))))).
Proof.
  apply (UpdateUncertainty_keeps_cells_written gnome_headers 100 1 [5]
           (one_set_mover 3) (steady_world (1 / 4) (1 / 2))).
  - intros l Hl. injection Hl as <-. repeat constructor; discriminate.
  - right. reflexivity.
Defined.

(** ** A reinit that cannot allocate *)

Lemma AllocateUncertainty_when_refused (H : Headers) (numLESets : Z) (sizes : list Z)
    (m : WindMover) (w : World) :
  Z.of_nat (length sizes) = numLESets ->
  numLESets = 0
  \/ alloc_tape w (alloc_pos w) = false
  \/ alloc_tape w (S (alloc_pos w)) = false ->
  fst (fst (AllocateUncertainty H numLESets sizes m w))
  = (if numLESets =? 0 then -1 else memFullErr H)
  /\ fWindUncertaintyList (snd (fst (AllocateUncertainty H numLESets sizes m w)))
     = None
  /\ fLESetSizes (snd (fst (AllocateUncertainty H numLESets sizes m w))) = None
  /\ fTimeUncertaintyWasSet
       (snd (fst (AllocateUncertainty H numLESets sizes m w))) = 0.
Proof.
  intros Hlen Hbad. unfold AllocateUncertainty, NewHandle.
  destruct (Z.eqb_spec numLESets 0) as [Hz | Hnz]; [repeat split |].
  destruct Hbad as [Hx | Hbad]; [contradiction |].
  cbn [alloc_tape alloc_pos].
  destruct (andb (0 <=? numLESets) (alloc_tape w (alloc_pos w))) eqn:H1;
    cbn [negb]; [| repeat split].
  destruct (offsets_loop _ _ _ _ _) as [offs numrec].
  apply andb_true_iff in H1. destruct H1 as [_ H1].
  destruct Hbad as [Hb | Hb]; [congruence |].
  rewrite Hb, andb_false_r. cbn [negb]. repeat split.
Qed.

(** X23. A reinit that cannot go through leaves no store behind: when the
    scheduler has decided on a reinit (outside the grow path) and the
    target has no set, or one of the two allocations is refused, the call
    returns -1 for an empty target and the memory error otherwise, both
    handles are nil, the refresh time is 0, and no value has been taken
    from the random source. *)
Theorem UpdateUncertainty_reinit_refused :
  forall (H : Headers) (elapsedTime numLESets : Z) (sizes : list Z)
         (m : WindMover) (w : World),
    fUncertainStartTime m <= elapsedTime ->
    Z.of_nat (length sizes) = numLESets ->
    needToReInit (decide elapsedTime numLESets sizes m) = true ->
    needToReAllocate (decide elapsedTime numLESets sizes m) = false ->
    memFullErr H <> 0 ->
    numLESets = 0
    \/ alloc_tape w (alloc_pos w) = false
    \/ alloc_tape w (S (alloc_pos w)) = false ->
    fst (fst (UpdateUncertainty H elapsedTime numLESets sizes m w))
    = (if numLESets =? 0 then -1 else memFullErr H)
    /\ fWindUncertaintyList
         (snd (fst (UpdateUncertainty H elapsedTime numLESets sizes m w))) = None
    /\ fLESetSizes
         (snd (fst (UpdateUncertainty H elapsedTime numLESets sizes m w))) = None
    /\ fTimeUncertaintyWasSet
         (snd (fst (UpdateUncertainty H elapsedTime numLESets sizes m w))) = 0
    /\ rand_pos (snd (UpdateUncertainty H elapsedTime numLESets sizes m w))
       = rand_pos w.
Proof.
  intros H e n sizes m w Hact Hlen Hre Hra Hmem Hbad.
  unfold UpdateUncertainty.
  replace (negb (fUncertainStartTime m <=? e)) with false
    by (symmetry; apply negb_false_iff; apply Z.leb_le; assumption).
  rewrite Hra, Hre. unfold update_tail.
  set (m1 := set_sigmas m _ _).
  pose proof (AllocateUncertainty_when_refused H n sizes m1 w Hlen Hbad)
    as (Herr & Hl & Hs & Ht).
  pose proof (AllocateUncertainty_settings H n sizes m1 w) as (_ & _ & _ & Hp & _).
  destruct (AllocateUncertainty H n sizes m1 w) as [[err m2] w2].
  cbn [fst snd] in *.
  assert (Hne : (err =? 0) = false).
  { apply Z.eqb_neq. rewrite Herr. destruct (n =? 0); [lia | assumption]. }
  rewrite Hne. cbn [fst snd]. repeat split; assumption.
Qed.

Lemma UpdateUncertainty_reinit_refused_witness :
  fst (fst (UpdateUncertainty gnome_headers 0 1 [3] Init
              (mkWorld (fun _ => 0%R) 0 (fun n => Nat.eqb n 0) 0)))
  = (if 1 =? 0 then -1 else memFullErr gnome_headers).
Proof.
  apply (UpdateUncertainty_reinit_refused gnome_headers 0 1 [3] Init
           (mkWorld (fun _ => 0%R) 0 (fun n => Nat.eqb n 0) 0)).
  - simpl. lia.
  - reflexivity.
  - reflexivity.
  - reflexivity.
  - simpl. lia.
  - right. right. reflexivity.
Defined.

(** ** Elements that the wind does not carry *)

Local Open Scope R_scope.

(** X24. An element with zero windage does not move: where the metres per
    degree and the longitude ratio at the latitude of the element are not
    zero, [GetMove] returns the zero displacement, whatever the wind, the
    time step, the element type and the store. *)
Theorem GetMove_zero_windage :
  forall (H : Headers) (model_time timeStep setIndex leIndex : Z)
         (theLE : LERec) (leType : Z) (m : WindMover) (w : World),
    METERSPERDEGREELAT H <> 0 ->
    LongToLatRatio3 H (pLat (le_p theLE)) <> 0 ->
    windage theLE = 0 ->
    fst (GetMove H model_time timeStep setIndex leIndex theLE leType m w)
    = zero_delta.
Proof.
  intros H mt ts si li theLE ty m w HM HL Hw. unfold GetMove.
  destruct (flt 0 (le_z theLE)); [reflexivity |].
  destruct (if (ty =? UNCERTAINTY_LE H)%Z
            then AddUncertainty si li (current_time_value m) m w
            else (noErr, current_time_value m, w)) as [[err tv] w1].
  cbn [fst]. unfold zero_delta. rewrite Hw.
  f_equal. f_equal; field; try split; assumption.
Qed.

Lemma GetMove_zero_windage_witness :
  fst (GetMove gnome_headers 0 900 0 0 (mkLE (mkWP (-122) 0) 0 0) 2
               still_mover (steady_world (1 / 4) (1 / 2)))
  = zero_delta.
Proof.
  apply (GetMove_zero_windage gnome_headers 0 900 0 0
           (mkLE (mkWP (-122) 0) 0 0) 2 still_mover
           (steady_world (1 / 4) (1 / 2))).
  - simpl. lra.
  - simpl. replace (0 / 1000000 * (PI / 180)) with 0 by lra.
    rewrite cos_0. lra.
  - reflexivity.
Defined.

Local Close Scope R_scope.

(** ** The step protocol *)

Lemma PrepareForModelStep_start (H : Headers) (model_time time_step : Z)
    (uncertain : bool) (numLESets : Z) (sizes : list Z) (s : WindSource)
    (m : WindMover) (w : World) :
  fModelStartTime
    (snd (fst (PrepareForModelStep H model_time time_step uncertain numLESets
                                   sizes s m w)))
  = (if bIsFirstStep m then model_time else fModelStartTime m).
Proof.
  unfold PrepareForModelStep.
  set (m0 := if bIsFirstStep m then _ else m).
  assert (Hm0 : fModelStartTime m0
                = if bIsFirstStep m then model_time else fModelStartTime m).
  { unfold m0. destruct (bIsFirstStep m); reflexivity. }
  destruct (GetTimeValue model_time s) as [err value].
  destruct uncertain; [| cbn [fst snd fModelStartTime set_step]; exact Hm0].
  pose proof (UpdateUncertainty_frame H
                ((model_time - fModelStartTime m0) mod Seconds_modulus)
                numLESets sizes m0 w) as Hset.
  destruct (UpdateUncertainty H _ numLESets sizes m0 w) as [[e1 m1] w1].
  cbn [fst snd fModelStartTime set_step] in *.
  destruct Hset as (_ & _ & _ & _ & _ & _ & _ & _ & Hstart & _).
  congruence.
Qed.

(** X25. The elapsed time of the scheduler is relative to the mover: after
    [PrepareForModelRun], a first step prepared at model time [t1] and
    closed by [ModelStepIsDone], a later step prepared at model time [t2]
    (with [t1 <= t2]) runs [UpdateUncertainty] with the elapsed time
    [t2 - t1], whatever the first step did. *)
Theorem step_protocol_elapsed :
  forall (H : Headers) (t1 ts1 : Z) (unc1 : bool) (n1 : Z) (sizes1 : list Z)
         (t2 ts2 n2 : Z) (sizes2 : list Z) (s : WindSource)
         (m : WindMover) (w w' : World),
    0 <= t2 - t1 < Seconds_modulus ->
    snd (PrepareForModelStep H t2 ts2 true n2 sizes2 s
           (ModelStepIsDone
              (snd (fst (PrepareForModelStep H t1 ts1 unc1 n1 sizes1 s
                           (snd (PrepareForModelRun m)) w)))) w')
    = snd (UpdateUncertainty H (t2 - t1) n2 sizes2
             (ModelStepIsDone
                (snd (fst (PrepareForModelStep H t1 ts1 unc1 n1 sizes1 s
                             (snd (PrepareForModelRun m)) w)))) w')
    /\ fWindUncertaintyList
         (snd (fst (PrepareForModelStep H t2 ts2 true n2 sizes2 s
                      (ModelStepIsDone
                         (snd (fst (PrepareForModelStep H t1 ts1 unc1 n1
                                      sizes1 s (snd (PrepareForModelRun m))
                                      w)))) w')))
       = fWindUncertaintyList
           (snd (fst (UpdateUncertainty H (t2 - t1) n2 sizes2
                        (ModelStepIsDone
                           (snd (fst (PrepareForModelStep H t1 ts1 unc1 n1
                                        sizes1 s (snd (PrepareForModelRun m))
                                        w)))) w'))).
Proof.
  intros H t1 ts1 unc1 n1 sizes1 t2 ts2 n2 sizes2 s m w w' Hrange.
  pose proof (PrepareForModelStep_start H t1 ts1 unc1 n1 sizes1 s
                (snd (PrepareForModelRun m)) w) as Hstart.
  change (bIsFirstStep (snd (PrepareForModelRun m))) with true in Hstart.
  cbn iota in Hstart.
  set (m1 := ModelStepIsDone _) in *.
  assert (Hfirst : bIsFirstStep m1 = false) by reflexivity.
  assert (Hs1 : fModelStartTime m1 = t1) by exact Hstart.
  clearbody m1.
  unfold PrepareForModelStep. rewrite Hfirst, Hs1.
  rewrite (Z.mod_small _ _ Hrange).
  destruct (UpdateUncertainty H (t2 - t1) n2 sizes2 m1 w') as [[e1 m2] w2].
  destruct (GetTimeValue t2 s) as [err value].
  split; reflexivity.
Qed.

Lemma step_protocol_elapsed_witness :
  snd (PrepareForModelStep gnome_headers 8100 900 true 1 [3]
         (mkSource true (mkVel 5 0) None)
         (ModelStepIsDone
            (snd (fst (PrepareForModelStep gnome_headers 7200 900 true 1 [3]
                         (mkSource true (mkVel 5 0) None)
                         (snd (PrepareForModelRun Init))
                         (steady_world (1 / 4) (1 / 2))))))
         (steady_world (1 / 4) (1 / 2)))
  = snd (UpdateUncertainty gnome_headers (8100 - 7200) 1 [3]
           (ModelStepIsDone
              (snd (fst (PrepareForModelStep gnome_headers 7200 900 true 1 [3]
                           (mkSource true (mkVel 5 0) None)
                           (snd (PrepareForModelRun Init))
                           (steady_world (1 / 4) (1 / 2))))))
           (steady_world (1 / 4) (1 / 2))).
Proof.
  apply (step_protocol_elapsed gnome_headers 7200 900 true 1 [3] 8100 900 1
           [3] (mkSource true (mkVel 5 0) None) Init
           (steady_world (1 / 4) (1 / 2)) (steady_world (1 / 4) (1 / 2))).
  unfold Seconds_modulus. lia.
Defined.

(** ** C9: the reinit *)

(** The sampler reads the two bounds and the two spreads of the mover and
    nothing else of it. *)
Lemma retry_loop_ext (m m' : WindMover) :
  fMaxSpeed m' = fMaxSpeed m -> fMaxAngle m' = fMaxAngle m ->
  fSigma2 m' = fSigma2 m -> fSigmaTheta m' = fSigmaTheta m ->
  forall (j : nat) (cs : R * R) (w : World),
    retry_loop j m' cs w = retry_loop j m cs w.
Proof.
  intros H1 H2 H3 H4.
  induction j as [| j IH]; intros cs w; cbn [retry_loop]; [reflexivity |].
  rewrite H1, H2, H3, H4.
  destruct (TermsLessThanMax _ _ _ _ _ _); [reflexivity |].
  destruct (rndv w) as [cs' w']. apply IH.
Qed.

Lemma draws_ext (m m' : WindMover) :
  fMaxSpeed m' = fMaxSpeed m -> fMaxAngle m' = fMaxAngle m ->
  fSigma2 m' = fSigma2 m -> fSigmaTheta m' = fSigmaTheta m ->
  forall (k : nat) (w : World), draws k m' w = draws k m w.
Proof.
  intros H1 H2 H3 H4.
  induction k as [| k IH]; intros w; cbn [draws]; [reflexivity |].
  unfold sampleBounded. destruct (rndv w) as [cs w1].
  rewrite (retry_loop_ext m m' H1 H2 H3 H4).
  destruct (retry_loop 10 m cs w1) as [cs' w2]. rewrite IH. reflexivity.
Qed.

(** The reinit of the tail, in full: the store it leaves holds the prefix
    sums and the successive bounded draws taken under the spreads of the
    step, from the world that follows the two allocations. *)
Lemma update_tail_resamples (H : Headers) (elapsedTime numLESets : Z)
    (sizes : list Z) (m : WindMover) (w : World) :
  Z.of_nat (length sizes) = numLESets ->
  numLESets <> 0 ->
  Forall (fun x => 0 <= x) sizes ->
  alloc_tape w (alloc_pos w) = true ->
  alloc_tape w (S (alloc_pos w)) = true ->
  update_tail H true elapsedTime numLESets sizes m w
  = (noErr,
     set_store (with_new_sigmas elapsedTime m)
       (Some (fst (draws (Z.to_nat (sum_list sizes))
                         (with_new_sigmas elapsedTime m)
                         (after_two_allocs w))))
       (Some (map (prefix_sum sizes) (seq 0 (length sizes))))
       elapsedTime,
     snd (draws (Z.to_nat (sum_list sizes)) (with_new_sigmas elapsedTime m)
                (after_two_allocs w))).
Proof.
  intros Hlen Hn Hpos Ha1 Ha2. unfold update_tail.
  rewrite (AllocateUncertainty_success H numLESets sizes _ w Hlen Hn Hpos Ha1 Ha2).
  cbn [Z.eqb noErr]. unfold UpdateUncertaintyValues.
  cbn [fWindUncertaintyList set_time set_list set_store].
  set (T := Z.to_nat (sum_list sizes)).
  set (m3 := set_time _ elapsedTime).
  rewrite repeat_length.
  pose proof (fill_loop_spec m3 T [] (repeat None T) (after_two_allocs w)) as Hfill.
  cbn [length app] in Hfill.
  rewrite Hfill by (rewrite repeat_length; lia). clear Hfill.
  rewrite skipn_repeat_all, app_nil_r.
  assert (Hd : draws T m3 (after_two_allocs w)
               = draws T (with_new_sigmas elapsedTime m) (after_two_allocs w)).
  { unfold m3, set_time, set_list, set_sizes, DisposeUncertainty.
    rewrite !draws_store. reflexivity. }
  rewrite Hd. reflexivity.
Qed.

Lemma set_store_settings (m m' : WindMover) (a b : R)
    (l : option (list cell)) (s : option (list Z)) (t : Z) :
  same_settings m m' ->
  set_store (set_sigmas m' a b) l s t = set_store (set_sigmas m a b) l s t.
Proof.
  intros (H1 & H2 & H3 & H4 & H5 & H6 & H7 & H8 & H9 & H10).
  unfold set_store, set_sigmas.
  cbn [fUncertainStartTime fDuration fSpeedScale fAngleScale fMaxSpeed
       fMaxAngle fSigma2 fSigmaTheta fUncertaintyDiffusion bIsFirstStep
       fModelStartTime current_time_value].
  rewrite H1, H2, H3, H4, H5, H6, H7, H8, H9, H10. reflexivity.
Qed.

(** A decided reinit, in full, unless the grow path returns early or an
    allocation is refused. *)
Lemma reinit_resamples (H : Headers) (elapsedTime numLESets : Z)
    (sizes : list Z) (m : WindMover) (w : World) :
  fUncertainStartTime m <= elapsedTime ->
  Z.of_nat (length sizes) = numLESets ->
  needToReInit (decide elapsedTime numLESets sizes m) = true ->
  (needToReAllocate (decide elapsedTime numLESets sizes m) = false
   \/ numLESets = 1) ->
  numLESets <> 0 ->
  Forall (fun x => 0 <= x) sizes ->
  alloc_tape w (alloc_pos w) = true ->
  alloc_tape w (S (alloc_pos w)) = true ->
  UpdateUncertainty H elapsedTime numLESets sizes m w
  = (noErr,
     set_store (with_new_sigmas elapsedTime m)
       (Some (fst (draws (Z.to_nat (sum_list sizes))
                         (with_new_sigmas elapsedTime m)
                         (after_two_allocs
                            (world_after_grow elapsedTime numLESets sizes
                                              m w)))))
       (Some (map (prefix_sum sizes) (seq 0 (length sizes))))
       elapsedTime,
     snd (draws (Z.to_nat (sum_list sizes)) (with_new_sigmas elapsedTime m)
                (after_two_allocs
                   (world_after_grow elapsedTime numLESets sizes m w)))).
Proof.
  intros Hact Hlen Hre Hgo Hn Hpos Ha1 Ha2.
  assert (Hactb : negb (fUncertainStartTime m <=? elapsedTime) = false).
  { apply negb_false_iff. apply Z.leb_le. assumption. }
  unfold UpdateUncertainty, world_after_grow. rewrite Hactb, Hre.
  destruct (needToReAllocate (decide elapsedTime numLESets sizes m)) eqn:Hra.
  - destruct Hgo as [Hx | Hone]; [discriminate |]. rewrite Hone in *.
    pose proof (decide_realloc_count _ _ _ _ Hra) as Hcnt.
    pose proof (grow_completes (decide elapsedTime 1 sizes m) m w Hcnt) as Hok.
    pose proof (grow_keeps (decide elapsedTime 1 sizes m) 1 m w)
      as (_ & Hp & Ht & _).
    pose proof (grow_frame (decide elapsedTime 1 sizes m) 1 m w)
      as (Hs & _).
    destruct (grow (decide elapsedTime 1 sizes m) 1 m w) as [[m1 w1] ok].
    cbn [fst snd] in *. subst ok.
    rewrite (update_tail_resamples H elapsedTime 1 sizes m1 w1 Hlen Hn Hpos)
      by (rewrite Ht, Hp; assumption).
    unfold with_new_sigmas.
    destruct (new_sigma_settings elapsedTime m m1 Hs) as [E2 Et].
    rewrite E2, Et.
    rewrite (set_store_settings m m1 _ _ _ _ _ Hs).
    destruct Hs as (_ & _ & _ & _ & H5 & H6 & _).
    rewrite (draws_ext (set_sigmas m (new_sigma2 elapsedTime m)
                                   (new_sigmaTheta elapsedTime m))
                       (set_sigmas m1 (new_sigma2 elapsedTime m)
                                   (new_sigmaTheta elapsedTime m)))
      by (try reflexivity; assumption).
    reflexivity.
  - apply update_tail_resamples; assumption.
Qed.

(** C9 (amended). On a step with uncertainty active, the scheduler decides
    on a full reinit if and only if the store is absent, or the elapsed time
    is earlier than the last refresh time, or the number of sets differs
    from the target, or some stored offset differs from the prefix sum of
    the target sizes, or the target total is smaller than the stored total.
    When it so decides and the grow path does not return early (it is not
    entered, or there is exactly one set), the target has at least one set,
    no size is negative and both allocations are granted, the reinit is
    carried out and success is reported: the offsets are the prefix sums of
    the target sizes, the draw array has the target total as its length and
    every cell of it holds a new draw, namely the successive results of the
    bounded sampler under the spreads of this step, taken from the random
    source where the allocations (and the grow path, if entered) left it,
    and the refresh time is the elapsed time.  When it decides against,
    nothing is allocated and the offset table is kept. *)
Theorem UpdateUncertainty_reinit :
  forall (H : Headers) (elapsedTime numLESets : Z) (sizes : list Z)
         (m : WindMover) (w : World),
    fUncertainStartTime m <= elapsedTime ->
    Z.of_nat (length sizes) = numLESets ->
    (needToReInit (decide elapsedTime numLESets sizes m) = true
     <-> (store_absent m
          \/ elapsedTime < fTimeUncertaintyWasSet m
          \/ numLESets <> handle_len (fLESetSizes m)
          \/ offsets_disagree numLESets sizes m
          \/ sum_list sizes < handle_len (fWindUncertaintyList m)))
    /\ (needToReInit (decide elapsedTime numLESets sizes m) = true ->
        (needToReAllocate (decide elapsedTime numLESets sizes m) = false
         \/ numLESets = 1) ->
        numLESets <> 0 ->
        Forall (fun x => 0 <= x) sizes ->
        alloc_tape w (alloc_pos w) = true ->
        alloc_tape w (S (alloc_pos w)) = true ->
        UpdateUncertainty H elapsedTime numLESets sizes m w
        = (noErr,
           set_store (with_new_sigmas elapsedTime m)
             (Some (fst (draws (Z.to_nat (sum_list sizes))
                               (with_new_sigmas elapsedTime m)
                               (after_two_allocs
                                  (world_after_grow elapsedTime numLESets
                                                    sizes m w)))))
             (Some (map (prefix_sum sizes) (seq 0 (length sizes))))
             elapsedTime,
           snd (draws (Z.to_nat (sum_list sizes))
                      (with_new_sigmas elapsedTime m)
                      (after_two_allocs
                         (world_after_grow elapsedTime numLESets sizes m w))))
        /\ Z.of_nat
             (length (fst (draws (Z.to_nat (sum_list sizes))
                                 (with_new_sigmas elapsedTime m)
                                 (after_two_allocs
                                    (world_after_grow elapsedTime numLESets
                                                      sizes m w)))))
           = sum_list sizes)
    /\ (needToReInit (decide elapsedTime numLESets sizes m) = false ->
        alloc_pos (snd (UpdateUncertainty H elapsedTime numLESets sizes m w))
        = alloc_pos w
        /\ fLESetSizes
             (snd (fst (UpdateUncertainty H elapsedTime numLESets sizes m w)))
           = fLESetSizes m).
Proof.
  intros H elapsedTime numLESets sizes m w Hact Hlen.
  split; [apply decide_reinit_iff; assumption |].
  assert (Hactb : negb (fUncertainStartTime m <=? elapsedTime) = false).
  { apply negb_false_iff. apply Z.leb_le. assumption. }
  split.
  - intros Hre Hgo Hn Hpos Ha1 Ha2. split.
    + apply reinit_resamples; assumption.
    + rewrite draws_length. apply Z2Nat.id. apply sum_list_nonneg. assumption.
  - intros Hre. unfold UpdateUncertainty. rewrite Hactb, Hre.
    assert (Htail : forall m0 w0,
      alloc_pos (snd (update_tail H false elapsedTime numLESets sizes m0 w0))
      = alloc_pos w0
      /\ fLESetSizes
           (snd (fst (update_tail H false elapsedTime numLESets sizes m0 w0)))
         = fLESetSizes m0).
    { intros m0 w0. unfold update_tail.
      destruct (fle _ _); [| split; reflexivity].
      match goal with
      | |- context [UpdateUncertaintyValues ?e ?mm ?ww] =>
          pose proof (UpdateUncertaintyValues_keeps e mm ww) as (Hs & Hp & _);
          destruct (UpdateUncertaintyValues e mm ww) as [m3 w3]
      end.
      cbn [fst snd] in *. split; [exact Hp | exact Hs]. }
    destruct (needToReAllocate (decide elapsedTime numLESets sizes m)).
    + pose proof (grow_keeps (decide elapsedTime numLESets sizes m) numLESets m w)
        as (Hs & Hp & _).
      destruct (grow (decide elapsedTime numLESets sizes m) numLESets m w)
        as [[m1 w1] ok].
      cbn [fst snd] in *. destruct ok.
      * destruct (Htail m1 w1) as [Hp1 Hs1]. split; congruence.
      * cbn [fst snd]. split; assumption.
    + apply Htail.
Qed.

Lemma UpdateUncertainty_reinit_witness :
  UpdateUncertainty gnome_headers 0 1 [3] Init (steady_world (1 / 4) (1 / 2))
  = (noErr,
     set_store (with_new_sigmas 0 Init)
       (Some (fst (draws (Z.to_nat (sum_list [3])) (with_new_sigmas 0 Init)
                         (after_two_allocs
                            (world_after_grow 0 1 [3] Init
                               (steady_world (1 / 4) (1 / 2)))))))
       (Some (map (prefix_sum [3]) (seq 0 (length [3]))))
       0,
     snd (draws (Z.to_nat (sum_list [3])) (with_new_sigmas 0 Init)
                (after_two_allocs
                   (world_after_grow 0 1 [3] Init
                      (steady_world (1 / 4) (1 / 2)))))).
Proof.
  apply (UpdateUncertainty_reinit gnome_headers 0 1 [3] Init
                                  (steady_world (1 / 4) (1 / 2))).
  - simpl. lia.
  - reflexivity.
  - reflexivity.
  - left. reflexivity.
  - lia.
  - repeat constructor. lia.
  - reflexivity.
  - reflexivity.
Defined.

(** A reinit that is decided and not carried out: the clock has moved back
    and the target of two sets has grown, so that both flags are set, and
    the grow path returns -1 before the reinit is reached. *)
Example reinit_preempted_by_grow :
  needToReInit (decide 100 2 [3; 5] (set_time two_set_mover 200)) = true
  /\ needToReAllocate (decide 100 2 [3; 5] (set_time two_set_mover 200)) = true
  /\ fst (fst (UpdateUncertainty gnome_headers 100 2 [3; 5]
                                  (set_time two_set_mover 200)
                                  (steady_world (1 / 4) (1 / 2))))
     = -1.
Proof. split; [| split]; reflexivity. Qed.

(** ** C5: the scaling around [GetMove], continued *)

Section BatchSplit.

Variable H : Headers.
Variables (model_time step_len spillType spill_ID : Z).
Variables (ref : list WorldPoint3D) (windages : list R) (LE_status : list Z).
Variable m : WindMover.

Local Abbreviation one i :=
  (move_one H i model_time step_len ref windages LE_status spillType spill_ID m).
Local Abbreviation loop k i :=
  (move_loop H k i model_time step_len ref windages LE_status spillType
             spill_ID m).

(** The loop over [a + b] elements is the loop over the first [a] followed
    by the loop over the next [b]. *)
Lemma move_loop_split (a b i : nat) (delta : list WorldPoint3D) (w : World) :
  loop (a + b) i delta w
  = loop b (i + a) (fst (loop a i delta w)) (snd (loop a i delta w)).
Proof.
  revert i delta w. induction a as [| a IH]; intros i delta w.
  - cbn [Nat.add move_loop fst snd]. rewrite Nat.add_0_r. reflexivity.
  - cbn [Nat.add move_loop]. destruct (one i delta w) as [d' w'].
    rewrite IH. replace (S i + a)%nat with (i + S a)%nat by lia. reflexivity.
Qed.

(** What the batch stores for an in-water element: the displacement that
    [GetMove] returns for the record built from its reference point, in the
    world left by the elements before it, with both components divided. *)
Lemma move_loop_entry (k i : nat) (delta : list WorldPoint3D) (w : World) :
  (i < k)%nat -> (i < length delta)%nat ->
  nth i LE_status 0 = OILSTAT_INWATER H ->
  nth_error (fst (loop k 0 delta w)) i
  = Some (scale_delta
            (fst (GetMove H model_time step_len spill_ID (Z.of_nat i)
                          (make_rec (nth i ref zero_delta) (nth i windages 0%R))
                          spillType m (snd (loop i 0 delta w))))).
Proof.
  intros Hk Hlen Hst.
  replace k with (i + S (k - S i))%nat by lia.
  rewrite move_loop_split. cbn [Nat.add].
  pose proof (move_loop_length H model_time step_len spillType spill_ID ref
                windages LE_status m i 0 delta w) as Hl.
  destruct (loop i 0 delta w) as [d1 w1]. cbn [fst snd] in *.
  cbn [move_loop]. unfold move_one at 1.
  rewrite Hst, Z.eqb_refl. cbn [negb].
  destruct (GetMove H model_time step_len spill_ID (Z.of_nat i) _ spillType m w1)
    as [d w2].
  rewrite (move_loop_before H model_time step_len spillType spill_ID ref
             windages LE_status m) by lia.
  cbn [fst]. apply nth_error_upd_same. lia.
Qed.

End BatchSplit.

Local Open Scope R_scope.

(** C5 (amended). For each in-water element, [get_move] multiplies the
    latitude of the reference point, given in degrees, by 1,000,000 before
    it calls [GetMove] (the longitude is passed as it is), and stores the
    displacement that this call returns with both components divided by
    1,000,000.  For an element at or above the surface, the displacement
    that [GetMove] returns is the displacement in degrees multiplied by
    1,000,000: the wind it uses (the cached wind, perturbed for an
    uncertainty element) times the windage, over the time step, converted
    to degrees; so that what [get_move] stores is that displacement in
    degrees. *)
Theorem get_move_encoding :
  forall (H : Headers) (n model_time step_len : Z)
         (ref delta : list WorldPoint3D) (windages : list R)
         (LE_status : list Z) (spillType spill_ID : Z)
         (m : WindMover) (w : World) (i : nat),
    (FORECAST_LE H <= spillType <= UNCERTAINTY_LE H)%Z ->
    (i < Z.to_nat n)%nat -> (i < length delta)%nat ->
    nth i LE_status 0%Z = OILSTAT_INWATER H ->
    let lon := pLong (p (nth i ref zero_delta)) in
    let lat := pLat (p (nth i ref zero_delta)) in
    let depth := z (nth i ref zero_delta) in
    let wdg := nth i windages 0 in
    let wi := world_at H i model_time step_len ref windages LE_status
                       spillType spill_ID m delta w in
    let d := fst (GetMove H model_time step_len spill_ID (Z.of_nat i)
                          (mkLE (mkWP lon (lat * 1000000)) depth wdg)
                          spillType m wi) in
    let tv := wind_used H spill_ID (Z.of_nat i) spillType m wi in
    exists (dl' : list WorldPoint3D) (w' : World),
      get_move H n model_time step_len (Some ref) (Some delta) (Some windages)
               LE_status spillType spill_ID m w
      = (noErr, Some dl', w')
      /\ nth_error dl' i
         = Some (mkWP3 (mkWP (pLong (p d) / 1000000) (pLat (p d) / 1000000))
                       (z d))
      /\ (depth <= 0 ->
          d = mkWP3
                (mkWP (u tv * wdg / METERSPERDEGREELAT H * IZR step_len
                       / LongToLatRatio3 H (lat * 1000000) * 1000000)
                      (v tv * wdg / METERSPERDEGREELAT H * IZR step_len
                       * 1000000))
                0
          /\ nth_error dl' i
             = Some (mkWP3
                       (mkWP (u tv * wdg / METERSPERDEGREELAT H * IZR step_len
                              / LongToLatRatio3 H (lat * 1000000))
                             (v tv * wdg / METERSPERDEGREELAT H
                              * IZR step_len))
                       0)).
Proof.
  intros H n mt sl rf dl wl st ty sid m w i Hty Hi Hil Hst
         lon lat depth wdg wi d tv.
  assert (Hin : orb (ty <? FORECAST_LE H)%Z (UNCERTAINTY_LE H <? ty)%Z = false).
  { apply orb_false_iff. split; apply Z.ltb_ge; lia. }
  pose proof (move_loop_entry H mt sl ty sid rf wl st m (Z.to_nat n) i dl w
                Hi Hil Hst) as He.
  unfold get_move. rewrite Hin.
  destruct (move_loop H (Z.to_nat n) 0 mt sl rf wl st ty sid m dl w)
    as [dl' w'].
  exists dl', w'. cbn [fst] in He.
  assert (Hstored :
    nth_error dl' i
    = Some (mkWP3 (mkWP (pLong (p d) / 1000000) (pLat (p d) / 1000000)) (z d))).
  { exact He. }
  split; [reflexivity |]. split; [exact Hstored |].
  intros Hz.
  assert (Hd :
    d = mkWP3
          (mkWP (u tv * wdg / METERSPERDEGREELAT H * IZR sl
                 / LongToLatRatio3 H (lat * 1000000) * 1000000)
                (v tv * wdg / METERSPERDEGREELAT H * IZR sl * 1000000))
          0).
  { unfold d, tv, wind_used, GetMove. cbn [le_z le_p windage pLat].
    replace (flt 0 depth) with false
      by (symmetry; apply flt_false; assumption).
    destruct (ty =? UNCERTAINTY_LE H)%Z; [| reflexivity].
    destruct (AddUncertainty sid (Z.of_nat i) (current_time_value m) m wi)
      as [[err t] w1].
    reflexivity. }
  split; [exact Hd |].
  rewrite Hstored, Hd. cbn [p pLong pLat z].
  assert (Hcancel : forall x : R, x * 1000000 / 1000000 = x)
    by (intros x; lra).
  rewrite !Hcancel. reflexivity.
Qed.

Lemma get_move_encoding_witness :
  exists (dl' : list WorldPoint3D) (w' : World),
    get_move gnome_headers 1 0 900 (Some [mkWP3 (mkWP (-122) 0) 0])
             (Some [zero_delta]) (Some [3 / 100]) [2%Z] 1 0 breeze_mover
             (steady_world (1 / 4) (1 / 2))
    = (noErr, Some dl', w')
    /\ nth_error dl' 0
       = Some (mkWP3
                 (mkWP (pLong (p (fst (GetMove gnome_headers 0 900 0 0
                                         (mkLE (mkWP (-122) (0 * 1000000)) 0
                                               (3 / 100))
                                         1 breeze_mover
                                         (steady_world (1 / 4) (1 / 2)))))
                        / 1000000)
                       (pLat (p (fst (GetMove gnome_headers 0 900 0 0
                                        (mkLE (mkWP (-122) (0 * 1000000)) 0
                                              (3 / 100))
                                        1 breeze_mover
                                        (steady_world (1 / 4) (1 / 2)))))
                        / 1000000))
                 (z (fst (GetMove gnome_headers 0 900 0 0
                            (mkLE (mkWP (-122) (0 * 1000000)) 0 (3 / 100))
                            1 breeze_mover
                            (steady_world (1 / 4) (1 / 2)))))).
Proof.
  destruct (get_move_encoding gnome_headers 1 0 900 [mkWP3 (mkWP (-122) 0) 0]
              [zero_delta] [3 / 100] [2%Z] 1 0 breeze_mover
              (steady_world (1 / 4) (1 / 2)) 0)
    as (dl' & w' & Hrun & Hentry & _).
  - simpl. lia.
  - simpl. lia.
  - simpl. lia.
  - reflexivity.
  - exists dl', w'. split; [exact Hrun | exact Hentry].
Defined.

Local Close Scope R_scope.
